(** * go-semver-audit: the API diff engine, the audit result and the CLI driver

    A shallow embedding of
      - internal/analyzer/types.go  (data model, [HasBreakingChanges],
        [HasWarnings], [ParseUpgrade]),
      - internal/analyzer/diff.go   ([diffAPIs], [diffInterfaces]),
      - cmd/go-semver-audit/main.go ([run], [determineExitCode]).

    Modelling conventions.
      - A Go [string] is a byte sequence: Rocq's [string].
      - A Go [map[string]T] is a [gmap string T].  Reading a missing key
        gives the zero value ([index_Symbols], [index_bool]).
      - The surfaces hold pointers ([*Function], [*Interface]) and the
        engine receives pointers ([*API], [*Usage], [*Result]); they are
        modelled by the records they point to, that is, all of them are
        non-nil, as [loadModuleAPI], [findUsage] and [Analyze] build them.
        [Result.Changes] is the one pointer the code tests against nil: it
        is an [option].
      - [for k, v := range m] over a map visits the entries in an order Go
        leaves unspecified, and which may change from one loop to the next.
        A computation that ranges over a map is therefore a list of possible
        results, one per visiting order ([range], the list monad).
      - [run] talks to the outside world: it is a computation that logs its
        events (text written, collaborators called, exit requested) and
        returns a value or an error ([io]).

    Layout: the program; the vocabulary of its properties; example inputs;
    lemmas and theorems. *)

From Stdlib Require Import ZArith Ascii String.
From stdpp Require Import gmap strings list list_monad fin_maps pretty.

Open Scope Z_scope.
Open Scope string_scope.
Open Scope list_scope.

(** * The program *)

(** ** Data model (types.go, main.go) *)

Record Location := { File : string; Line : Z }.

Record Function := {
  Function_Name : string;
  Signature : string;
  Function_PkgPath : string;
  IsMethod : bool }.

Record Type_ := {
  Type_Name : string;
  Kind : string;
  Type_PkgPath : string }.

Record Interface := {
  Interface_Name : string;
  Methods : list string;
  Interface_PkgPath : string }.

Record API := {
  Funcs : gmap string Function;
  Types : gmap string Type_;
  Interfaces : gmap string Interface }.

Record Usage := {
  Symbols : gmap string (list Location);
  Imports : gmap string bool }.

Module RemovedSymbol.
Record t := { Name : string; Type' : string; UsedIn : list Location }.
End RemovedSymbol.

Module AddedSymbol.
Record t := { Name : string; Type' : string }.
End AddedSymbol.

Module ChangedSignature.
Record t := {
  Name : string;
  OldSignature : string;
  NewSignature : string;
  UsedIn : list Location }.
End ChangedSignature.

Module InterfaceChange.
Record t := {
  Name : string;
  AddedMethods : list string;
  RemovedMethods : list string;
  ChangedMethods : list string;
  UsedIn : list Location }.
End InterfaceChange.

Record Diff := {
  Removed : list RemovedSymbol.t;
  Added : list AddedSymbol.t;
  Changed : list ChangedSignature.t;
  InterfaceChanges : list InterfaceChange.t }.

Record Upgrade := {
  Module_ : string;
  OldVersion : string;
  NewVersion : string }.

Record Result := {
  Result_Module : string;
  Result_OldVersion : string;
  Result_NewVersion : string;
  Changes : option Diff;
  UnusedDeps : list string }.

#[global] Instance Location_eq_dec : EqDecision Location.
Proof. solve_decision. Defined.
#[global] Instance RemovedSymbol_eq_dec : EqDecision RemovedSymbol.t.
Proof. solve_decision. Defined.
#[global] Instance AddedSymbol_eq_dec : EqDecision AddedSymbol.t.
Proof. solve_decision. Defined.
#[global] Instance ChangedSignature_eq_dec : EqDecision ChangedSignature.t.
Proof. solve_decision. Defined.
#[global] Instance InterfaceChange_eq_dec : EqDecision InterfaceChange.t.
Proof. solve_decision. Defined.
#[global] Instance Diff_eq_dec : EqDecision Diff.
Proof. solve_decision. Defined.

Record ParseError := { Spec : string }.

(** A Go call that returns [(value, error)]. *)
Inductive returns (A E : Type) : Type :=
  | Ok (value : A)
  | Err (err : E).
Arguments Ok {A E} value.
Arguments Err {A E} err.

Record config := {
  projectPath : string;
  upgrade : string;
  jsonOutput : bool;
  strict : bool;
  unused : bool;
  verbose : bool;
  showVersion : bool }.

(** Go [error] values: a [*ParseError], an error wrapped by
    [fmt.Errorf("...: %w", err)], or an error of a collaborator. *)
Inductive error : Type :=
  | error_ParseError (e : ParseError)
  | Errorf (prefix : string) (wrapped : error)
  | error_other (message : string).

(** The [Error()] method. *)
Fixpoint Error (e : error) : string :=
  match e with
  | error_ParseError e =>
      "invalid upgrade specification: " +:+ Spec e +:+
      " (expected format: module@version)"
  | Errorf prefix wrapped => prefix +:+ Error wrapped
  | error_other message => message
  end.

(** What [run] does to the outside world, in order: the text it writes, the
    collaborators it calls and the process exit it requests. *)
Inductive event : Type :=
  | Stderr (text : string)
  | Stdout (text : string)
  | Call_New (path : string)
  | Call_Analyze (upgrade : Upgrade)
  | Call_FindUnusedDependencies
  | Call_FormatJSON (result : Result)
  | Call_FormatText (result : Result) (verbose : bool)
  | Exit (code : Z).

(** ** Go maps and the Go standard library *)

(** [usage.Symbols[name]]: the nil slice when the key is missing. *)
Definition index_Symbols (usage : Usage) (name : string) : list Location :=
  default [] (Symbols usage !! name).

(** [m[k]] on a [map[string]bool]: false when the key is missing. *)
Definition index_bool (m : gmap string bool) (k : string) : bool :=
  default false (m !! k).

(** [for k, v := range m]: every visiting order of the entries is possible. *)
Definition range {V} (m : gmap string V) : list (list (string * V)) :=
  permutations (map_to_list m).

(** A loop whose body itself ranges over maps. *)
Fixpoint foldM {A B} (body : B → A → list B) (b : B) (l : list A) : list B :=
  match l with
  | [] => [b]
  | x :: l => b' ← body b x; foldM body b' l
  end.

(** [strings.Split(s, sep)] for a one-byte separator: [s] is cut at every
    occurrence of [sep]; a string without [sep] comes back whole, also the
    empty string. *)
Fixpoint Split (sep : ascii) (s : string) : list string :=
  match s with
  | EmptyString => [EmptyString]
  | String c s' =>
      if decide (c = sep) then EmptyString :: Split sep s'
      else match Split sep s' with
           | part :: parts => String c part :: parts
           | [] => [String c EmptyString]
           end
  end.

(** [strings.Count(s, sep)] for a one-byte separator. *)
Fixpoint Count (sep : ascii) (s : string) : nat :=
  match s with
  | EmptyString => 0
  | String c s' => (if decide (c = sep) then 1 else 0) + Count sep s'
  end.

(** [strings.Join(parts, sep)] for a one-byte separator. *)
Fixpoint Join (sep : ascii) (parts : list string) : string :=
  match parts with
  | [] => EmptyString
  | [part] => part
  | part :: parts => part +:+ String sep (Join sep parts)
  end.

(** [strings.TrimSpace] on ASCII text: leading and trailing tabs, line feeds,
    vertical tabs, form feeds, carriage returns and spaces are dropped.  Used
    to run the examples. *)
Definition asciiSpace (c : ascii) : bool :=
  bool_decide (c ∈ ["009"; "010"; "011"; "012"; "013"; " "]%char).

Fixpoint TrimLeft_ascii (s : string) : string :=
  match s with
  | String c s' => if asciiSpace c then TrimLeft_ascii s' else s
  | EmptyString => EmptyString
  end.

Fixpoint TrimRight_ascii (s : string) : string :=
  match s with
  | String c s' =>
      match TrimRight_ascii s' with
      | EmptyString => if asciiSpace c then EmptyString else String c EmptyString
      | rest => String c rest
      end
  | EmptyString => EmptyString
  end.

Definition TrimSpace_ascii (s : string) : string :=
  TrimRight_ascii (TrimLeft_ascii s).

Definition newline : string := String "010" EmptyString.

(** ** The audit result and the upgrade specification (types.go) *)

(** [HasBreakingChanges] returns true if the result contains breaking changes. *)
Definition HasBreakingChanges (r : Result) : bool :=
  match Changes r with
  | None => false
  | Some changes =>
      bool_decide (0 < length (Removed changes))%nat ||
      bool_decide (0 < length (Changed changes))%nat ||
      bool_decide (0 < length (InterfaceChanges changes))%nat
  end.

(** [HasWarnings] returns true if the result contains warnings. *)
Definition HasWarnings (r : Result) : bool :=
  match Changes r with
  | None => false
  | Some changes =>
      bool_decide (0 < length (Added changes))%nat ||
      bool_decide (0 < length (UnusedDeps r))%nat
  end.

Section analyzer.

(** [strings.TrimSpace] belongs to the Go standard library, not to this
    repository: [ParseUpgrade] is read over any function in its place. *)
Variable TrimSpace : string → string.

(** [ParseUpgrade] parses an upgrade specification like "module@version". *)
Definition ParseUpgrade (spec : string) : returns Upgrade ParseError :=
  let parts := Split "@" spec in
  if decide (length parts ≠ 2%nat) then Err {| Spec := spec |}
  else
    let module := TrimSpace (parts !!! 0%nat) in
    let version := TrimSpace (parts !!! 1%nat) in
    if decide (module = "" ∨ version = "") then Err {| Spec := spec |}
    else Ok {| Module_ := module; OldVersion := ""; NewVersion := version |}.

End analyzer.

(** ** The diff engine (diff.go) *)

(** [diff.Removed = append(diff.Removed, r)] and its three siblings. *)
Definition append_Removed (diff : Diff) (r : RemovedSymbol.t) : Diff :=
  {| Removed := Removed diff ++ [r]; Added := Added diff;
     Changed := Changed diff; InterfaceChanges := InterfaceChanges diff |}.

Definition append_Added (diff : Diff) (a : AddedSymbol.t) : Diff :=
  {| Removed := Removed diff; Added := Added diff ++ [a];
     Changed := Changed diff; InterfaceChanges := InterfaceChanges diff |}.

Definition append_Changed (diff : Diff) (c : ChangedSignature.t) : Diff :=
  {| Removed := Removed diff; Added := Added diff;
     Changed := Changed diff ++ [c]; InterfaceChanges := InterfaceChanges diff |}.

Definition append_InterfaceChanges (diff : Diff) (c : InterfaceChange.t) : Diff :=
  {| Removed := Removed diff; Added := Added diff;
     Changed := Changed diff; InterfaceChanges := InterfaceChanges diff ++ [c] |}.

(** The usage-filtered report of a removed symbol, shared by the three
    "removed" branches of [diffAPIs]. *)
Definition report_removed (usage : Usage) (kind name : string) (diff : Diff) : Diff :=
  let locations := index_Symbols usage name in
  if decide (0 < length locations)%nat then
    append_Removed diff
      {| RemovedSymbol.Name := name; RemovedSymbol.Type' := kind;
         RemovedSymbol.UsedIn := locations |}
  else diff.

(** [for _, method := range iface.Methods { set[method] = true }] *)
Definition method_set (methods : list string) : gmap string bool :=
  foldl (λ set method, <[method := true]> set) ∅ methods.

(** [for method := range these { if !those[method] { acc = append(acc, method) } }],
    along one visiting order of [these]. *)
Definition missing_from (those : gmap string bool)
    (order : list (string * bool)) : list string :=
  foldl (λ acc kv, if negb (index_bool those kv.1) then acc ++ [kv.1] else acc)
        [] order.

Definition diffInterfaces (name : string) (oldIface newIface : Interface)
    (usage : Usage) : list (option InterfaceChange.t) :=
  let oldMethods := method_set (Methods oldIface) in
  let newMethods := method_set (Methods newIface) in
  (* Find removed methods *)
  order ← range oldMethods;
  let removed := missing_from newMethods order in
  (* Find added methods *)
  order ← range newMethods;
  let added := missing_from oldMethods order in
  (* If there are changes and the interface is used, report it *)
  if decide ((0 < length added ∨ 0 < length removed) ∧
             0 < length (index_Symbols usage name))%nat then
    mret (Some {| InterfaceChange.Name := name;
                  InterfaceChange.AddedMethods := added;
                  InterfaceChange.RemovedMethods := removed;
                  InterfaceChange.ChangedMethods := [];
                  InterfaceChange.UsedIn := index_Symbols usage name |})
  else mret None.

(** The bodies of the six loops of [diffAPIs]. *)
Definition funcs_old_body (newAPI : API) (usage : Usage)
    (diff : Diff) (kv : string * Function) : Diff :=
  let '(name, oldFunc) := kv in
  match Funcs newAPI !! name with
  | None =>
      (* Function was removed; only report if it's actually used *)
      report_removed usage "function" name diff
  | Some newFunc =>
      (* Function exists, check if signature changed *)
      if decide (Signature oldFunc ≠ Signature newFunc) then
        let locations := index_Symbols usage name in
        if decide (0 < length locations)%nat then
          append_Changed diff
            {| ChangedSignature.Name := name;
               ChangedSignature.OldSignature := Signature oldFunc;
               ChangedSignature.NewSignature := Signature newFunc;
               ChangedSignature.UsedIn := locations |}
        else diff
      else diff
  end.

Definition funcs_new_body (oldAPI : API)
    (diff : Diff) (kv : string * Function) : Diff :=
  match Funcs oldAPI !! kv.1 with
  | None => append_Added diff
      {| AddedSymbol.Name := kv.1; AddedSymbol.Type' := "function" |}
  | Some _ => diff
  end.

Definition types_old_body (newAPI : API) (usage : Usage)
    (diff : Diff) (kv : string * Type_) : Diff :=
  match Types newAPI !! kv.1 with
  | None => report_removed usage "type" kv.1 diff
  | Some _ => diff
  end.

Definition types_new_body (oldAPI : API)
    (diff : Diff) (kv : string * Type_) : Diff :=
  match Types oldAPI !! kv.1 with
  | None => append_Added diff
      {| AddedSymbol.Name := kv.1; AddedSymbol.Type' := "type" |}
  | Some _ => diff
  end.

Definition interfaces_old_body (newAPI : API) (usage : Usage)
    (diff : Diff) (kv : string * Interface) : list Diff :=
  let '(name, oldIface) := kv in
  match Interfaces newAPI !! name with
  | Some newIface =>
      change ← diffInterfaces name oldIface newIface usage;
      match change with
      | Some c => mret (append_InterfaceChanges diff c)
      | None => mret diff
      end
  | None =>
      (* Interface was removed *)
      mret (report_removed usage "interface" name diff)
  end.

Definition interfaces_new_body (oldAPI : API)
    (diff : Diff) (kv : string * Interface) : Diff :=
  match Interfaces oldAPI !! kv.1 with
  | None => append_Added diff
      {| AddedSymbol.Name := kv.1; AddedSymbol.Type' := "interface" |}
  | Some _ => diff
  end.

Definition empty_Diff : Diff :=
  {| Removed := []; Added := []; Changed := []; InterfaceChanges := [] |}.

(** [diffAPIs] compares two API surfaces and returns the differences. *)
Definition diffAPIs (oldAPI newAPI : API) (usage : Usage) : list Diff :=
  let diff := empty_Diff in
  (* Check for removed functions *)
  order ← range (Funcs oldAPI);
  let diff := foldl (funcs_old_body newAPI usage) diff order in
  (* Check for added functions (informational) *)
  order ← range (Funcs newAPI);
  let diff := foldl (funcs_new_body oldAPI) diff order in
  (* Check for removed types *)
  order ← range (Types oldAPI);
  let diff := foldl (types_old_body newAPI usage) diff order in
  (* Check for added types (informational) *)
  order ← range (Types newAPI);
  let diff := foldl (types_new_body oldAPI) diff order in
  (* Check for interface changes *)
  order ← range (Interfaces oldAPI);
  diff ← foldM (interfaces_old_body newAPI usage) diff order;
  (* Check for added interfaces (informational) *)
  order ← range (Interfaces newAPI);
  mret (foldl (interfaces_new_body oldAPI) diff order).

(** ** The command-line driver (main.go) *)

(** [determineExitCode] of main.go. *)
Definition determineExitCode (result : Result) (strict : bool) : Z :=
  (* Exit non-zero if there are breaking changes *)
  if HasBreakingChanges result then 1
  (* In strict mode, exit non-zero if there are any warnings *)
  else if strict && HasWarnings result then 1
  else 0.

(** A computation that logs events and returns a value or stops at the first
    error. *)
Definition io (A : Type) : Type := (list event * returns A error)%type.

#[global] Instance io_ret : MRet io := λ A x, ([], Ok x).

#[global] Instance io_bind : MBind io := λ A B k m,
  match m.2 with
  | Ok x => (m.1 ++ (k x).1, (k x).2)
  | Err e => (m.1, Err e)
  end.

Definition emit (e : event) : io unit := ([e], Ok tt).

Definition call {A} (e : event) (r : returns A error) : io A := ([e], r).

(** [if err != nil { return fmt.Errorf(prefix + "%w", err) }] *)
Definition or_return {A} (prefix : string) (m : io A) : io A :=
  match m.2 with
  | Ok x => m
  | Err e => (m.1, Err (Errorf prefix e))
  end.

Definition set_UnusedDeps (result : Result) (deps : list string) : Result :=
  {| Result_Module := Result_Module result;
     Result_OldVersion := Result_OldVersion result;
     Result_NewVersion := Result_NewVersion result;
     Changes := Changes result;
     UnusedDeps := deps |}.

Definition unused_warning (err : error) : string :=
  "Warning: failed to detect unused dependencies: " +:+ Error err +:+ newline.

Section main.

Variable TrimSpace : string → string.

(** The collaborators of [run]: the analyzer ([analyzer.New], [Analyze],
    [FindUnusedDependencies], which load packages and keep them in the
    analyzer) and the report formatters. *)
Variable Analyzer : Type.
Variable New : string → returns Analyzer error.
Variable Analyze : Analyzer → Upgrade → Analyzer * returns Result error.
Variable FindUnusedDependencies : Analyzer → Analyzer * (list string * option error).
Variable FormatJSON : Result → returns string error.
Variable FormatText : Result → bool → returns string error.

(** Check for unused dependencies if requested. *)
Definition unused_pass (cfg : config) (a : Analyzer) (result : Result) : io Result :=
  if unused cfg then
    let '(unused, err) := (FindUnusedDependencies a).2 in
    emit Call_FindUnusedDependencies;;
    match err, verbose cfg with
    | Some err, true => emit (Stderr (unused_warning err));; mret result
    | _, _ => mret (set_UnusedDeps result unused)
    end
  else mret result.

(** The progress lines of verbose mode. *)
Definition verbose_log (cfg : config) (moduleUpgrade : Upgrade) : list event :=
  if verbose cfg then
    [ Stderr ("Analyzing project at: " +:+ projectPath cfg +:+ newline);
      Stderr ("Upgrade: " +:+ Module_ moduleUpgrade +:+ " " +:+
              OldVersion moduleUpgrade +:+ " -> " +:+
              NewVersion moduleUpgrade +:+ newline) ]
  else [].

(** Generate the report, print it and determine the exit code. *)
Definition report_and_exit (cfg : config) (result : Result) : io unit :=
  output ← or_return "failed to generate report: "
    (if jsonOutput cfg
     then call (Call_FormatJSON result) (FormatJSON result)
     else call (Call_FormatText result (verbose cfg))
               (FormatText result (verbose cfg)));
  emit (Stdout output);;
  let exitCode := determineExitCode result (strict cfg) in
  if decide (exitCode ≠ 0) then emit (Exit exitCode) else mret tt.

Definition run (cfg : config) : io unit :=
  (* Parse the upgrade specification *)
  moduleUpgrade ← or_return "invalid upgrade specification: "
    (match ParseUpgrade TrimSpace (upgrade cfg) with
     | Ok u => mret u
     | Err e => ([], Err (error_ParseError e))
     end);
  (verbose_log cfg moduleUpgrade, Ok tt);;
  (* Create analyzer *)
  a ← or_return "failed to initialize analyzer: "
    (call (Call_New (projectPath cfg)) (New (projectPath cfg)));
  (* Perform analysis *)
  result ← or_return "analysis failed: "
    (call (Call_Analyze moduleUpgrade) (Analyze a moduleUpgrade).2);
  let a := (Analyze a moduleUpgrade).1 in
  (* Check for unused dependencies if requested *)
  result ← unused_pass cfg a result;
  report_and_exit cfg result.

End main.

(** ** Decidable equality of errors and results *)

#[global] Instance Result_eq_dec : EqDecision Result.
Proof. solve_decision. Defined.

#[global] Instance ParseError_eq_dec : EqDecision ParseError.
Proof. solve_decision. Defined.

#[global] Instance error_eq_dec : EqDecision error.
Proof. solve_decision. Defined.

#[global] Instance returns_eq_dec {A E} `{EqDecision A, EqDecision E} :
  EqDecision (returns A E).
Proof. solve_decision. Defined.

(** ** The report formatters (internal/report: text.go, json.go, html.go) *)

Module report.

(** [fmt.Sprintf("%d", n)]: the decimal digits of [n], with a minus sign
    below zero. *)
Definition itoa (n : Z) : string := pretty n.

(** [len(s)], a Go [int]. *)
Definition len {A} (s : list A) : Z := Z.of_nat (length s).

(** [strings.Join(elems, sep)] *)
Fixpoint strings_Join (elems : list string) (sep : string) : string :=
  match elems with
  | [] => ""
  | [elem] => elem
  | elem :: elems => elem +:+ sep +:+ strings_Join elems sep
  end.

(** [s[:max]] where [len(s) > max] is known: the slice expression panics
    ([None]) when [max] is negative. *)
Definition slice_to {A} (s : list A) (max : Z) : option (list A) :=
  if decide (0 ≤ max)%Z then Some (take (Z.to_nat max) s) else None.

(** The loop of [formatLocations], from index [i] on: [n] is
    [len(locations)] of the whole slice. *)
Fixpoint formatLocations_parts (n max i : Z) (locations : list Location)
    : list string :=
  match locations with
  | [] => []
  | loc :: locations =>
      if decide (max ≤ i)%Z then ["and " +:+ itoa (n - max) +:+ " more"]
      else (File loc +:+ ":" +:+ itoa (Line loc))
           :: formatLocations_parts n max (i + 1) locations
  end.

(** [formatLocations] formats a list of locations for display. *)
Definition formatLocations (locations : list Location) (max : Z) : string :=
  if decide (len locations = 0) then ""
  else strings_Join (formatLocations_parts (len locations) max 0 locations) ", ".

(** [countAffectedLocations] counts total number of affected code locations. *)
Definition countAffectedLocations (changes : Diff) : Z :=
  let count := 0 in
  let count := foldl (λ count removed, count + len (RemovedSymbol.UsedIn removed))
                     count (Removed changes) in
  let count := foldl (λ count changed, count + len (ChangedSignature.UsedIn changed))
                     count (Changed changes) in
  let count := foldl (λ count iface, count + len (InterfaceChange.UsedIn iface))
                     count (InterfaceChanges changes) in
  count.

(** [summarizeFixes] returns a short list of items to address first. *)
Definition summarizeFixes (changes : Diff) (max : Z) : option (list string) :=
  let fixes := [] in
  let fixes :=
    foldl (λ fixes removed,
             if decide (len (RemovedSymbol.UsedIn removed) = 0) then fixes
             else fixes ++
               ["Remove/replace " +:+ RemovedSymbol.Name removed +:+ " (" +:+
                RemovedSymbol.Type' removed +:+ ") at " +:+
                formatLocations (RemovedSymbol.UsedIn removed) 1])
          fixes (Removed changes) in
  let fixes :=
    foldl (λ fixes changed,
             if decide (len (ChangedSignature.UsedIn changed) = 0) then fixes
             else fixes ++
               ["Update call to " +:+ ChangedSignature.Name changed +:+ " at " +:+
                formatLocations (ChangedSignature.UsedIn changed) 1])
          fixes (Changed changes) in
  let fixes :=
    foldl (λ fixes iface,
             if decide (len (InterfaceChange.UsedIn iface) = 0) then fixes
             else
               let action := "Update implementations" in
               fixes ++
               [action +:+ " of " +:+ InterfaceChange.Name iface +:+ " at " +:+
                formatLocations (InterfaceChange.UsedIn iface) 1])
          fixes (InterfaceChanges changes) in
  if decide (max < len fixes)%Z then slice_to fixes max else Some fixes.

(** [for _, x := range xs { b.WriteString(line(x)) }] on the builder [b]. *)
Definition write_each {A} (line : A → string) (xs : list A) (b : string) : string :=
  foldl (λ b x, b +:+ line x) b xs.

(** The sections of the text report, each appending to the builder [b]. *)
Definition write_fixes (fixes : list string) (b : string) : string :=
  if decide (0 < len fixes)%Z then
    let b := b +:+ "What to fix next:" +:+ newline in
    let b := write_each (λ fix_, "  - " +:+ fix_ +:+ newline) fixes b in
    b +:+ newline
  else b.

Definition write_removed (changes : Diff) (b : string) : string :=
  if decide (0 < len (Removed changes))%Z then
    let b := b +:+ "Removed Symbols:" +:+ newline in
    let b := write_each
      (λ removed,
         "  - " +:+ RemovedSymbol.Name removed +:+ " (" +:+
         RemovedSymbol.Type' removed +:+ ")" +:+
         (if decide (0 < len (RemovedSymbol.UsedIn removed))%Z then
            " (used in: " +:+ formatLocations (RemovedSymbol.UsedIn removed) 3 +:+ ")"
          else "") +:+
         newline)
      (Removed changes) b in
    b +:+ newline
  else b.

Definition write_changed (changes : Diff) (verbose : bool) (b : string) : string :=
  if decide (0 < len (Changed changes))%Z then
    let b := b +:+ "Changed Signatures:" +:+ newline in
    let b := write_each
      (λ changed,
         "  - " +:+ ChangedSignature.Name changed +:+ newline +:+
         (if verbose then
            "    Old: " +:+ ChangedSignature.OldSignature changed +:+ newline +:+
            "    New: " +:+ ChangedSignature.NewSignature changed +:+ newline
          else "") +:+
         (if decide (0 < len (ChangedSignature.UsedIn changed))%Z then
            "    Used in: " +:+
            formatLocations (ChangedSignature.UsedIn changed) 3 +:+ newline
          else ""))
      (Changed changes) b in
    b +:+ newline
  else b.

Definition write_interfaces (changes : Diff) (b : string) : string :=
  if decide (0 < len (InterfaceChanges changes))%Z then
    let b := b +:+ "Modified Interfaces:" +:+ newline in
    let b := write_each
      (λ iface,
         "  - " +:+ InterfaceChange.Name iface +:+ newline +:+
         (if decide (0 < len (InterfaceChange.RemovedMethods iface))%Z then
            write_each (λ method, "      - " +:+ method +:+ newline)
              (InterfaceChange.RemovedMethods iface)
              ("    Removed methods:" +:+ newline)
          else "") +:+
         (if decide (0 < len (InterfaceChange.AddedMethods iface))%Z then
            write_each (λ method, "      - " +:+ method +:+ newline)
              (InterfaceChange.AddedMethods iface)
              ("    Added methods:" +:+ newline)
          else "") +:+
         (if decide (0 < len (InterfaceChange.UsedIn iface))%Z then
            "    Used in: " +:+
            formatLocations (InterfaceChange.UsedIn iface) 3 +:+ newline
          else ""))
      (InterfaceChanges changes) b in
    b +:+ newline
  else b.

Definition write_added (changes : Diff) (verbose : bool) (b : string) : string :=
  if verbose && bool_decide (0 < len (Added changes))%Z then
    let b := b +:+ "Added Symbols (informational):" +:+ newline in
    let b := write_each
      (λ added, "  + " +:+ AddedSymbol.Name added +:+ " (" +:+
                AddedSymbol.Type' added +:+ ")" +:+ newline)
      (Added changes) b in
    b +:+ newline
  else b.

Definition write_unused (deps : list string) (b : string) : string :=
  if decide (0 < len deps)%Z then
    let b := b +:+ "Unused Dependencies:" +:+ newline in
    let b := write_each (λ dep, "  - " +:+ dep +:+ newline) deps b in
    b +:+ newline
  else b.

Definition no_breaking_banner : string :=
  "✓ No breaking changes detected." +:+ newline +:+ newline.

Definition breaking_banner : string :=
  "⚠️  BREAKING CHANGES DETECTED" +:+ newline +:+ newline.

(** [FormatText] generates a human-readable text report.  Its error result
    is always nil, so the model returns the text alone; [None] is the
    run-time panic of [result.Changes.Removed] on a nil [Changes]. *)
Definition FormatText (result : Result) (verbose : bool) : option string :=
  let b := "" in
  (* Header *)
  let b := b +:+ "Analyzing upgrade: " +:+ Result_Module result +:+ " " +:+
           Result_OldVersion result +:+ " -> " +:+ Result_NewVersion result +:+
           newline +:+ newline in
  (* Check if there are any breaking changes *)
  let hasBreaking := HasBreakingChanges result in
  changes ← Changes result;
  let breakingCount := len (Removed changes) + len (Changed changes) +
                       len (InterfaceChanges changes) in
  let usageCount := countAffectedLocations changes in
  let b := if negb hasBreaking then b +:+ no_breaking_banner
           else b +:+ breaking_banner in
  b ← (if hasBreaking then
         let b := b +:+ "Summary: " +:+ itoa breakingCount +:+
                  " breaking change(s) affecting " +:+ itoa usageCount +:+
                  " location(s)." +:+ newline +:+ newline in
         fixes ← summarizeFixes changes 3;
         Some (write_fixes fixes b)
       else Some b);
  (* Report removed symbols *)
  let b := write_removed changes b in
  (* Report changed signatures *)
  let b := write_changed changes verbose b in
  (* Report interface changes *)
  let b := write_interfaces changes b in
  (* Report added symbols (informational, only in verbose mode) *)
  let b := write_added changes verbose b in
  (* Report unused dependencies *)
  let b := write_unused (UnusedDeps result) b in
  (* Summary *)
  let b := if hasBreaking then
             b +:+ "Summary: " +:+ itoa breakingCount +:+
             " breaking change(s) affecting " +:+ itoa usageCount +:+
             " location(s) in your code." +:+ newline
           else b in
  Some b.

(** The data handed to the HTML template ([buildHTMLData], html.go). *)
Module htmlRemoved.
Record t := { Name : string; Type' : string; UsedIn : string }.
End htmlRemoved.

Module htmlChanged.
Record t := {
  Name : string;
  OldSignature : string;
  NewSignature : string;
  UsedIn : string }.
End htmlChanged.

Module htmlInterface.
Record t := {
  Name : string;
  AddedMethods : list string;
  RemovedMethods : list string;
  UsedIn : string }.
End htmlInterface.

Module htmlAdded.
Record t := { Name : string; Type' : string }.
End htmlAdded.

Module htmlData.
Record t := {
  Module_ : string;
  OldVersion : string;
  NewVersion : string;
  Breaking : bool;
  SummaryCount : Z;
  AffectedLocations : Z;
  Removed : list htmlRemoved.t;
  Changed : list htmlChanged.t;
  Interfaces : list htmlInterface.t;
  Added : list htmlAdded.t;
  UnusedDeps : list string;
  HasUnusedDeps : bool }.
End htmlData.

(** [buildHTMLData]: [None] is the panic of [result.Changes.Removed] on a
    nil [Changes]. *)
Definition buildHTMLData (result : Result) : option htmlData.t :=
  changes ← Changes result;
  Some
    {| htmlData.Module_ := Result_Module result;
       htmlData.OldVersion := Result_OldVersion result;
       htmlData.NewVersion := Result_NewVersion result;
       htmlData.Breaking := HasBreakingChanges result;
       htmlData.SummaryCount :=
         len (Removed changes) + len (Changed changes) +
         len (InterfaceChanges changes);
       htmlData.AffectedLocations := countAffectedLocations changes;
       htmlData.HasUnusedDeps := bool_decide (0 < len (UnusedDeps result))%Z;
       htmlData.UnusedDeps := UnusedDeps result;
       htmlData.Removed :=
         foldl (λ items removed, items ++
                  [ {| htmlRemoved.Name := RemovedSymbol.Name removed;
                       htmlRemoved.Type' := RemovedSymbol.Type' removed;
                       htmlRemoved.UsedIn :=
                         formatLocations (RemovedSymbol.UsedIn removed) 5 |} ])
               [] (Removed changes);
       htmlData.Changed :=
         foldl (λ items changed, items ++
                  [ {| htmlChanged.Name := ChangedSignature.Name changed;
                       htmlChanged.OldSignature := ChangedSignature.OldSignature changed;
                       htmlChanged.NewSignature := ChangedSignature.NewSignature changed;
                       htmlChanged.UsedIn :=
                         formatLocations (ChangedSignature.UsedIn changed) 5 |} ])
               [] (Changed changes);
       htmlData.Interfaces :=
         foldl (λ items iface, items ++
                  [ {| htmlInterface.Name := InterfaceChange.Name iface;
                       htmlInterface.AddedMethods := InterfaceChange.AddedMethods iface;
                       htmlInterface.RemovedMethods := InterfaceChange.RemovedMethods iface;
                       htmlInterface.UsedIn :=
                         formatLocations (InterfaceChange.UsedIn iface) 5 |} ])
               [] (InterfaceChanges changes);
       htmlData.Added :=
         foldl (λ items added, items ++
                  [ {| htmlAdded.Name := AddedSymbol.Name added;
                       htmlAdded.Type' := AddedSymbol.Type' added |} ])
               [] (Added changes) |}.

(** The JSON output structure (json.go). *)
Module JSONLocation.
Record t := { File : string; Line : Z }.
End JSONLocation.

Module RemovedItem.
Record t := { Name : string; Type' : string; UsedIn : list JSONLocation.t }.
End RemovedItem.

Module ChangedItem.
Record t := {
  Name : string;
  OldSignature : string;
  NewSignature : string;
  UsedIn : list JSONLocation.t }.
End ChangedItem.

Module InterfaceChangeItem.
Record t := {
  Name : string;
  AddedMethods : list string;
  RemovedMethods : list string;
  UsedIn : list JSONLocation.t }.
End InterfaceChangeItem.

Module AddedItem.
Record t := { Name : string; Type' : string }.
End AddedItem.

Module JSONReport.
Record t := {
  Module_ : string;
  OldVersion : string;
  NewVersion : string;
  Breaking : bool;
  BreakingCount : Z;
  AffectedLocations : Z;
  Removed : list RemovedItem.t;
  Changed : list ChangedItem.t;
  InterfaceChanges : list InterfaceChangeItem.t;
  Added : list AddedItem.t;
  UnusedDeps : list string }.
End JSONReport.

(** [for _, loc := range usedIn { item.UsedIn = append(item.UsedIn, Location{...}) }] *)
Definition convert_UsedIn (usedIn : list Location) : list JSONLocation.t :=
  foldl (λ items loc, items ++
           [ {| JSONLocation.File := File loc; JSONLocation.Line := Line loc |} ])
        [] usedIn.

(** The [JSONReport] that [FormatJSON] builds and hands to
    [json.MarshalIndent]; [None] is the panic of [result.Changes.Removed] on a
    nil [Changes]. *)
Definition jsonReport (result : Result) : option JSONReport.t :=
  changes ← Changes result;
  Some
    {| JSONReport.Module_ := Result_Module result;
       JSONReport.OldVersion := Result_OldVersion result;
       JSONReport.NewVersion := Result_NewVersion result;
       JSONReport.Breaking := HasBreakingChanges result;
       JSONReport.BreakingCount :=
         len (Removed changes) + len (Changed changes) +
         len (InterfaceChanges changes);
       JSONReport.AffectedLocations := countAffectedLocations changes;
       (* Convert removed symbols *)
       JSONReport.Removed :=
         foldl (λ items removed, items ++
                  [ {| RemovedItem.Name := RemovedSymbol.Name removed;
                       RemovedItem.Type' := RemovedSymbol.Type' removed;
                       RemovedItem.UsedIn :=
                         convert_UsedIn (RemovedSymbol.UsedIn removed) |} ])
               [] (Removed changes);
       (* Convert changed signatures *)
       JSONReport.Changed :=
         foldl (λ items changed, items ++
                  [ {| ChangedItem.Name := ChangedSignature.Name changed;
                       ChangedItem.OldSignature := ChangedSignature.OldSignature changed;
                       ChangedItem.NewSignature := ChangedSignature.NewSignature changed;
                       ChangedItem.UsedIn :=
                         convert_UsedIn (ChangedSignature.UsedIn changed) |} ])
               [] (Changed changes);
       (* Convert interface changes *)
       JSONReport.InterfaceChanges :=
         foldl (λ items iface, items ++
                  [ {| InterfaceChangeItem.Name := InterfaceChange.Name iface;
                       InterfaceChangeItem.AddedMethods := InterfaceChange.AddedMethods iface;
                       InterfaceChangeItem.RemovedMethods := InterfaceChange.RemovedMethods iface;
                       InterfaceChangeItem.UsedIn :=
                         convert_UsedIn (InterfaceChange.UsedIn iface) |} ])
               [] (InterfaceChanges changes);
       (* Convert added symbols *)
       JSONReport.Added :=
         foldl (λ items added, items ++
                  [ {| AddedItem.Name := AddedSymbol.Name added;
                       AddedItem.Type' := AddedSymbol.Type' added |} ])
               [] (Added changes);
       (* Add unused dependencies *)
       JSONReport.UnusedDeps := UnusedDeps result |}.

Section FormatJSON.

(** [json.MarshalIndent(report, "", "  ")] of the Go standard library. *)
Variable MarshalIndent : JSONReport.t → returns string error.

(** [FormatJSON] generates a JSON report. *)
Definition FormatJSON (result : Result) : option (returns string error) :=
  report ← jsonReport result;
  Some match MarshalIndent report with
       | Err err => Err err
       | Ok data => Ok (data +:+ newline)
       end.

End FormatJSON.

End report.

(** ** The analyzer (internal/analyzer/analyzer.go) *)

(** What the analyzer reads of [golang.org/x/tools/go/packages]: a loaded
    package, its module, and of each package it imports the path and the
    module. *)
Module packages.

Record Module_ := { Path : string; Version : string }.

Record Imported := {
  Imported_PkgPath : string;
  Imported_Module : option Module_ }.

Record Package := {
  PkgPath : string;
  Module' : option Module_;
  Imports : gmap string Imported }.

End packages.

#[global] Instance packages_Module_eq_dec : EqDecision packages.Module_.
Proof. solve_decision. Defined.

#[global] Instance packages_Imported_eq_dec : EqDecision packages.Imported.
Proof. solve_decision. Defined.

#[global] Instance packages_Package_eq_dec : EqDecision packages.Package.
Proof. solve_decision. Defined.

Module analyzer.

Record Analyzer := {
  projectPath : string;
  pkgs : list packages.Package }.

#[global] Instance Analyzer_eq_dec : EqDecision Analyzer.
Proof. solve_decision. Defined.

(** [extractModulePath] extracts the module path from an import path. *)
Definition extractModulePath (importPath : string) : string := importPath.

(** The body of the loop of [getDependencyModules], on the pair of
    [modules] and [seen]. *)
Definition dependency_modules_step
    (state : list packages.Module_ * gmap string bool)
    (kv : string * packages.Imported) : list packages.Module_ * gmap string bool :=
  let '(modules, seen) := state in
  match packages.Imported_Module kv.2 with
  | Some m =>
      if negb (index_bool seen (packages.Path m))
      then (modules ++ [m], <[packages.Path m := true]> seen)
      else (modules, seen)
  | None => (modules, seen)
  end.

(** [getDependencyModules] extracts dependency modules from a package. *)
Definition getDependencyModules (pkg : packages.Package)
    : list (list packages.Module_) :=
  order ← range (packages.Imports pkg);
  mret (foldl dependency_modules_step ([], ∅) order).1.

(** [getCurrentVersion] retrieves the current version of a module from the
    loaded packages. *)
Fixpoint getCurrentVersion (pkgs : list packages.Package) (module : string)
    : list (returns string error) :=
  match pkgs with
  | [] =>
      mret (Err (error_other
        ("module " +:+ module +:+ " not found in project dependencies")))
  | pkg :: pkgs =>
      let check_dependencies :=
        modules ← getDependencyModules pkg;
        match List.find (λ dep, bool_decide (packages.Path dep = module)) modules with
        | Some dep => mret (Ok (packages.Version dep))
        | None => getCurrentVersion pkgs module
        end in
      match packages.Module' pkg with
      | Some m =>
          if decide (packages.Path m = module)
          then mret (Ok (packages.Version m))
          else check_dependencies
      | None => check_dependencies
      end
  end.

(** The deduplication loop of [getDirectDependencies], on the pair of
    [unique] and [seen]. *)
Definition deduplicate_step (state : list string * gmap string bool)
    (dep : string) : list string * gmap string bool :=
  let '(unique, seen) := state in
  if negb (index_bool seen dep)
  then (unique ++ [dep], <[dep := true]> seen)
  else (unique, seen).

Definition deduplicate (deps : list string) : list string :=
  (foldl deduplicate_step ([], ∅) deps).1.

(** The body of the inner loop of [getDirectDependencies]. *)
Definition direct_dependencies_step (deps : list string)
    (kv : string * packages.Imported) : list string :=
  match packages.Imported_Module kv.2 with
  | Some m => if decide (packages.Path m ≠ "") then deps ++ [packages.Path m]
              else deps
  | None => deps
  end.

(** [getDirectDependencies] retrieves direct dependencies; its error result
    is always nil. *)
Definition getDirectDependencies (pkgs : list packages.Package)
    : list (list string) :=
  deps ← foldM (λ deps pkg,
                  order ← range (packages.Imports pkg);
                  mret (foldl direct_dependencies_step deps order))
               [] pkgs;
  (* Deduplicate *)
  mret (deduplicate deps).

(** The body of the inner loop that fills the [imported] map of
    [FindUnusedDependencies]. *)
Definition imported_step (imported : gmap string bool)
    (kv : string * packages.Imported) : gmap string bool :=
  (* Extract module path from import path *)
  let modPath := extractModulePath (packages.Imported_PkgPath kv.2) in
  if decide (modPath ≠ "") then <[modPath := true]> imported else imported.

(** The [imported] map of [FindUnusedDependencies]. *)
Definition imported_modules (pkgs : list packages.Package)
    : list (gmap string bool) :=
  foldM (λ imported pkg,
           order ← range (packages.Imports pkg);
           mret (foldl imported_step imported order))
        ∅ pkgs.

(** The last loop of [FindUnusedDependencies]. *)
Definition unused_dependencies (imported : gmap string bool)
    (dependencies : list string) : list string :=
  foldl (λ unused dep,
           if negb (index_bool imported dep) then unused ++ [dep] else unused)
        [] dependencies.

Section loading.

(** The loaders: [packages.Load] on the project directory with the pattern
    ["./..."], [packages.PrintErrors], and the two functions of analyzer.go
    that read [go/types] data, [loadModuleAPI] and [findUsage]. *)
Variable packagesLoad : string → string → returns (list packages.Package) error.
Variable packagesPrintErrors : list packages.Package → Z.
Variable loadModuleAPI : string → string → returns API error.
Variable findUsage : list packages.Package → string → Usage.

(** [loadProject] loads the Go packages for the project. *)
Definition loadProject (a : Analyzer) : returns Analyzer error :=
  match packagesLoad (projectPath a) "./..." with
  | Err err => Err (Errorf "failed to load packages: " err)
  | Ok pkgs =>
      if decide (0 < packagesPrintErrors pkgs)%Z
      then Err (error_other "packages contain errors")
      else Ok {| projectPath := projectPath a; pkgs := pkgs |}
  end.

(** [FindUnusedDependencies] identifies dependencies that are no longer
    used.  It returns the analyzer as it leaves it, the list and the error. *)
Definition FindUnusedDependencies (a : Analyzer)
    : list (Analyzer * (list string * option error)) :=
  match (if decide (length (pkgs a) = 0%nat) then loadProject a else Ok a) with
  | Err err => mret (a, ([], Some err))
  | Ok a =>
      (* Get all direct dependencies *)
      dependencies ← getDirectDependencies (pkgs a);
      (* Find which dependencies are actually imported *)
      imported ← imported_modules (pkgs a);
      (* Identify unused dependencies *)
      let unused := unused_dependencies imported dependencies in
      mret (a, (unused, None))
  end.

(** [Analyze] performs the dependency upgrade analysis.  It returns the
    analyzer as it leaves it and the result or the error; the current version
    it stores in [upgrade.OldVersion] is the [OldVersion] of the result. *)
Definition Analyze (a : Analyzer) (upgrade : Upgrade)
    : list (Analyzer * returns Result error) :=
  (* Load the project packages *)
  match loadProject a with
  | Err err => mret (a, Err (Errorf "failed to load project: " err))
  | Ok a =>
      (* Get current version from project dependencies *)
      currentVersion ← getCurrentVersion (pkgs a) (Module_ upgrade);
      match currentVersion with
      | Err err =>
          mret (a, Err (Errorf "failed to determine current version: " err))
      | Ok currentVersion =>
          (* Load API surface for old and new versions *)
          match loadModuleAPI (Module_ upgrade) currentVersion with
          | Err err => mret (a, Err (Errorf "failed to load old API: " err))
          | Ok oldAPI =>
              match loadModuleAPI (Module_ upgrade) (NewVersion upgrade) with
              | Err err => mret (a, Err (Errorf "failed to load new API: " err))
              | Ok newAPI =>
                  (* Find usage of the dependency in the project *)
                  let usage := findUsage (pkgs a) (Module_ upgrade) in
                  (* Diff the APIs *)
                  diff ← diffAPIs oldAPI newAPI usage;
                  mret (a, Ok {| Result_Module := Module_ upgrade;
                                 Result_OldVersion := currentVersion;
                                 Result_NewVersion := NewVersion upgrade;
                                 Changes := Some diff;
                                 UnusedDeps := [] |})
              end
          end
      end
  end.

End loading.

End analyzer.

(** ** The entry point (main.go) *)

Definition version : string := "0.1.0".

Section entry.

Variable TrimSpace : string → string.
Variable Analyzer : Type.
Variable New : string → returns Analyzer error.
Variable Analyze : Analyzer → Upgrade → Analyzer * returns Result error.
Variable FindUnusedDependencies : Analyzer → Analyzer * (list string * option error).
Variable FormatJSON : Result → returns string error.
Variable FormatText : Result → bool → returns string error.

(** What [flag.Usage()] writes to the error stream. *)
Variable usage_text : string.

(** [main], from the configuration that [parseFlags] returns. *)
Definition main (cfg : config) : list event :=
  if showVersion cfg then
    [ Stdout ("go-semver-audit version " +:+ version +:+ newline); Exit 0 ]
  else if decide (upgrade cfg = "") then
    [ Stderr ("Error: -upgrade flag is required" +:+ newline);
      Stderr ("Usage: go-semver-audit -upgrade module@version [options]" +:+ newline);
      Stderr usage_text;
      Exit 1 ]
  else
    let out := run TrimSpace Analyzer New Analyze FindUnusedDependencies
                   FormatJSON FormatText cfg in
    match out.2 with
    | Err err => out.1 ++ [ Stderr ("Error: " +:+ Error err +:+ newline); Exit 1 ]
    | Ok _ => out.1
    end.

End entry.

(** ** Vocabulary for the properties of the reports and the analyzer *)

(** ["%s:%d"] of a location. *)
Definition location_text (loc : Location) : string :=
  File loc +:+ ":" +:+ report.itoa (Line loc).


(** The number of breaking entries of a Diff. *)
Definition breaking_count (d : Diff) : Z :=
  report.len (Removed d) + report.len (Changed d) +
  report.len (InterfaceChanges d).

(** The number of breaking entries that list at least one location. *)
Definition located_count (d : Diff) : Z :=
  report.len (filter (λ r, RemovedSymbol.UsedIn r ≠ []) (Removed d)) +
  report.len (filter (λ c, ChangedSignature.UsedIn c ≠ []) (Changed d)) +
  report.len (filter (λ c, InterfaceChange.UsedIn c ≠ []) (InterfaceChanges d)).

(** Every breaking entry of the Diff lists at least one location. *)
Definition all_located (d : Diff) : Prop :=
  Forall (λ r, RemovedSymbol.UsedIn r ≠ []) (Removed d) ∧
  Forall (λ c, ChangedSignature.UsedIn c ≠ []) (Changed d) ∧
  Forall (λ c, InterfaceChange.UsedIn c ≠ []) (InterfaceChanges d).

(** The first line of the text report. *)
Definition report_header (module oldVersion newVersion : string) : string :=
  "" +:+ "Analyzing upgrade: " +:+ module +:+ " " +:+ oldVersion +:+ " -> " +:+
  newVersion +:+ newline +:+ newline.

(** Some package of [pkgs] imports a package of the module with path [dep],
    in the version [version]. *)
Definition imports_module_version (pkgs : list packages.Package)
    (dep version : string) : Prop :=
  ∃ pkg k imp, pkg ∈ pkgs ∧ packages.Imports pkg !! k = Some imp ∧
    packages.Imported_Module imp
      = Some {| packages.Path := dep; packages.Version := version |}.

Definition imports_module (pkgs : list packages.Package) (dep : string) : Prop :=
  ∃ version, imports_module_version pkgs dep version.

(** Some package of [pkgs] imports the package with path [path]. *)
Definition imports_package (pkgs : list packages.Package) (path : string) : Prop :=
  ∃ pkg k imp, pkg ∈ pkgs ∧ packages.Imports pkg !! k = Some imp ∧
    packages.Imported_PkgPath imp = path.

(** Some package of [pkgs] belongs to the module with path [module], in the
    version [version]. *)
Definition is_module_version (pkgs : list packages.Package)
    (module version : string) : Prop :=
  ∃ pkg, pkg ∈ pkgs ∧
    packages.Module' pkg
      = Some {| packages.Path := module; packages.Version := version |}.

(** The error of [getCurrentVersion]. *)
Definition module_not_found (module : string) : error :=
  error_other ("module " +:+ module +:+ " not found in project dependencies").

(** The package [pkg] imports a package of the module with path [dep]. *)
Definition package_imports_module (pkg : packages.Package) (dep : string) : Prop :=
  ∃ k imp version, packages.Imports pkg !! k = Some imp ∧
    packages.Imported_Module imp
      = Some {| packages.Path := dep; packages.Version := version |}.

(** The package [pkg] imports the package with path [path]. *)
Definition package_imports_package (pkg : packages.Package) (path : string) : Prop :=
  ∃ k imp, packages.Imports pkg !! k = Some imp ∧
    packages.Imported_PkgPath imp = path.

(** The call that [run] makes to the formatter that [cfg] selects, and what
    that formatter returns. *)
Definition format_call (cfg : config) (result : Result) : event :=
  if jsonOutput cfg then Call_FormatJSON result
  else Call_FormatText result (verbose cfg).

Definition formatted (FormatJSON : Result → returns string error)
    (FormatText : Result → bool → returns string error)
    (cfg : config) (result : Result) : returns string error :=
  if jsonOutput cfg then FormatJSON result else FormatText result (verbose cfg).

(** Kinds of events. *)
Definition is_Exit (e : event) : bool :=
  match e with Exit _ => true | _ => false end.

Definition is_Stdout (e : event) : bool :=
  match e with Stdout _ => true | _ => false end.

Definition is_call (e : event) : bool :=
  match e with
  | Call_New _ | Call_Analyze _ | Call_FindUnusedDependencies
  | Call_FormatJSON _ | Call_FormatText _ _ => true
  | _ => false
  end.

(** The four prefixes under which [run] returns an error. *)
Definition run_error_prefixes : list string :=
  [ "invalid upgrade specification: "; "failed to initialize analyzer: ";
    "analysis failed: "; "failed to generate report: " ].

(** * The vocabulary of the properties *)

(** ** Appending loops

    Every loop body of [diffAPIs] only appends to the four sequences of the
    running [Diff]: it maps [diff] to [diff_app diff e], where [e] is what the
    body emits on the empty [Diff]. *)

Definition diff_app (d e : Diff) : Diff :=
  {| Removed := Removed d ++ Removed e; Added := Added d ++ Added e;
     Changed := Changed d ++ Changed e;
     InterfaceChanges := InterfaceChanges d ++ InterfaceChanges e |}.

Definition diff_concat (es : list Diff) : Diff := foldr diff_app empty_Diff es.

Definition appends {A} (body : Diff → A → Diff) : Prop :=
  ∀ d x, body d x = diff_app d (body empty_Diff x).

Definition appendsM {A} (body : Diff → A → list Diff) : Prop :=
  ∀ d x d', d' ∈ body d x ↔ ∃ e, e ∈ body empty_Diff x ∧ d' = diff_app d e.

(** The six visiting orders and the per-interface results that produced a
    given outcome of [diffAPIs]. *)
Record Trace := {
  order_oldFuncs : list (string * Function);
  order_newFuncs : list (string * Function);
  order_oldTypes : list (string * Type_);
  order_newTypes : list (string * Type_);
  order_oldInterfaces : list (string * Interface);
  order_newInterfaces : list (string * Interface);
  emitted_oldInterfaces : list Diff }.

Definition trace_of (oldAPI newAPI : API) (usage : Usage) (t : Trace) : Prop :=
  order_oldFuncs t ∈ range (Funcs oldAPI) ∧
  order_newFuncs t ∈ range (Funcs newAPI) ∧
  order_oldTypes t ∈ range (Types oldAPI) ∧
  order_newTypes t ∈ range (Types newAPI) ∧
  order_oldInterfaces t ∈ range (Interfaces oldAPI) ∧
  order_newInterfaces t ∈ range (Interfaces newAPI) ∧
  Forall2 (λ kv e, e ∈ interfaces_old_body newAPI usage empty_Diff kv)
          (order_oldInterfaces t) (emitted_oldInterfaces t).

Definition outcome_of (oldAPI newAPI : API) (usage : Usage) (t : Trace) : Diff :=
  diff_concat
    [ diff_concat (funcs_old_body newAPI usage empty_Diff <$> order_oldFuncs t);
      diff_concat (funcs_new_body oldAPI empty_Diff <$> order_newFuncs t);
      diff_concat (types_old_body newAPI usage empty_Diff <$> order_oldTypes t);
      diff_concat (types_new_body oldAPI empty_Diff <$> order_newTypes t);
      diff_concat (emitted_oldInterfaces t);
      diff_concat (interfaces_new_body oldAPI empty_Diff <$> order_newInterfaces t) ].

(** ** Method sets, declared names, entries *)

Definition methods_of (iface : Interface) : gset string :=
  list_to_set (Methods iface).

(** The method sets differ: their symmetric difference is not empty. *)
Definition methods_differ (oldIface newIface : Interface) : Prop :=
  methods_of newIface ∖ methods_of oldIface ≠ ∅ ∨
  methods_of oldIface ∖ methods_of newIface ≠ ∅.

#[global] Instance methods_differ_dec o n : Decision (methods_differ o n).
Proof. unfold methods_differ. apply _. Defined.

(** The interface loop: whatever the visiting orders inside
    [diffInterfaces], the removal it reports and the interface change it
    reports, read up to the order of its method lists, are fixed. *)
Definition removed_interface (newAPI : API) (usage : Usage)
    (kv : string * Interface) : list RemovedSymbol.t :=
  match Interfaces newAPI !! kv.1 with
  | None => Removed (report_removed usage "interface" kv.1 empty_Diff)
  | Some _ => []
  end.

Definition change_key (c : InterfaceChange.t)
    : string * gset string * gset string * list string * list Location :=
  (InterfaceChange.Name c,
   list_to_set (InterfaceChange.AddedMethods c),
   list_to_set (InterfaceChange.RemovedMethods c),
   InterfaceChange.ChangedMethods c,
   InterfaceChange.UsedIn c).

Definition interface_change_keys (newAPI : API) (usage : Usage)
    (kv : string * Interface)
    : list (string * gset string * gset string * list string * list Location) :=
  match Interfaces newAPI !! kv.1 with
  | Some newIface =>
      if decide (methods_differ kv.2 newIface ∧ index_Symbols usage kv.1 ≠ [])
      then [ (kv.1, methods_of newIface ∖ methods_of kv.2,
              methods_of kv.2 ∖ methods_of newIface, [],
              index_Symbols usage kv.1) ]
      else []
  | None => []
  end.

Definition methods_NoDup (c : InterfaceChange.t) : Prop :=
  NoDup (InterfaceChange.AddedMethods c) ∧
  NoDup (InterfaceChange.RemovedMethods c).

(** [declares api kind name]: [name] is a key of the mapping of [api] that
    the engine reports under [kind]. *)
Definition declares (api : API) (kind name : string) : Prop :=
  (kind = "function" ∧ name ∈ dom (Funcs api)) ∨
  (kind = "type" ∧ name ∈ dom (Types api)) ∨
  (kind = "interface" ∧ name ∈ dom (Interfaces api)).

#[global] Instance declares_dec api kind name : Decision (declares api kind name).
Proof. unfold declares. apply _. Defined.

(** [name] labels some entry of [d], in any of its four sequences. *)
Definition named_in (d : Diff) (name : string) : Prop :=
  (∃ r, r ∈ Removed d ∧ RemovedSymbol.Name r = name) ∨
  (∃ a, a ∈ Added d ∧ AddedSymbol.Name a = name) ∨
  (∃ c, c ∈ Changed d ∧ ChangedSignature.Name c = name) ∨
  (∃ c, c ∈ InterfaceChanges d ∧ InterfaceChange.Name c = name).

(** [spec] is [a], one ["@"], then [b], with no other ["@"], and both
    [a] and [b] are non-empty once trimmed. *)
Definition module_at_version (TrimSpace : string → string)
    (spec a b : string) : Prop :=
  spec = a +:+ String "@" b ∧
  Count "@" a = 0%nat ∧ Count "@" b = 0%nat ∧
  TrimSpace a ≠ "" ∧ TrimSpace b ≠ "".

(** * Example inputs *)

(** ** Surfaces, usage indexes and the Diffs they give *)

Definition mkFunc (name sig : string) : Function :=
  {| Function_Name := name; Signature := sig;
     Function_PkgPath := "lib"; IsMethod := false |}.

Definition mkType (name : string) : Type_ :=
  {| Type_Name := name; Kind := "struct{}"; Type_PkgPath := "lib" |}.

Definition mkIface (name : string) (ms : list string) : Interface :=
  {| Interface_Name := name; Methods := ms; Interface_PkgPath := "lib" |}.

Definition empty_API : API :=
  {| Funcs := ∅; Types := ∅; Interfaces := ∅ |}.

Definition no_usage : Usage := {| Symbols := ∅; Imports := ∅ |}.

Definition used (names : list string) : Usage :=
  {| Symbols := list_to_map ((λ n, (n, [ {| File := "m.go"; Line := 10 |} ])) <$> names);
     Imports := ∅ |}.

Definition api_F : API :=
  {| Funcs := {[ "F" := mkFunc "F" "func() error" ]}; Types := ∅; Interfaces := ∅ |}.

Definition api_F_type : API :=
  {| Funcs := ∅; Types := {[ "F" := mkType "F" ]}; Interfaces := ∅ |}.

Definition api_A_B : API :=
  {| Funcs := {[ "A" := mkFunc "A" "func()"; "B" := mkFunc "B" "func()" ]};
     Types := ∅; Interfaces := ∅ |}.

Definition api_F' : API :=
  {| Funcs := {[ "F" := mkFunc "F" "func(context.Context) error" ]};
     Types := ∅; Interfaces := ∅ |}.

Definition api_Handler (methods : list string) : API :=
  {| Funcs := ∅; Types := ∅;
     Interfaces := {[ "Handler" := mkIface "Handler" methods ]} |}.

Definition loc_m_10 : Location := {| File := "m.go"; Line := 10 |}.

Definition removed_F : RemovedSymbol.t :=
  {| RemovedSymbol.Name := "F"; RemovedSymbol.Type' := "function";
     RemovedSymbol.UsedIn := [loc_m_10] |}.

Definition diff_removed_F : Diff :=
  {| Removed := [removed_F]; Added := []; Changed := []; InterfaceChanges := [] |}.

Definition diff_added_F_type : Diff :=
  {| Removed := [];
     Added := [ {| AddedSymbol.Name := "F"; AddedSymbol.Type' := "type" |} ];
     Changed := []; InterfaceChanges := [] |}.

Definition diff_changed_F : Diff :=
  {| Removed := []; Added := [];
     Changed := [ {| ChangedSignature.Name := "F";
                     ChangedSignature.OldSignature := "func() error";
                     ChangedSignature.NewSignature := "func(context.Context) error";
                     ChangedSignature.UsedIn := [loc_m_10] |} ];
     InterfaceChanges := [] |}.

Definition diff_Handler_Close : Diff :=
  {| Removed := []; Added := []; Changed := [];
     InterfaceChanges :=
       [ {| InterfaceChange.Name := "Handler";
            InterfaceChange.AddedMethods := [];
            InterfaceChange.RemovedMethods := ["Close() error"];
            InterfaceChange.ChangedMethods := [];
            InterfaceChange.UsedIn := [loc_m_10] |} ] |}.

Definition removed_in_order (names : list string) : Diff :=
  {| Removed := (λ n, {| RemovedSymbol.Name := n; RemovedSymbol.Type' := "function";
                         RemovedSymbol.UsedIn := [loc_m_10] |}) <$> names;
     Added := []; Changed := []; InterfaceChanges := [] |}.

(** ** Results, and stub collaborators as in main_test.go *)

Definition result_no_changes : Result :=
  {| Result_Module := "example.com/mod"; Result_OldVersion := "";
     Result_NewVersion := ""; Changes := Some empty_Diff; UnusedDeps := [] |}.

Definition result_nil_changes : Result :=
  {| Result_Module := "example.com/mod"; Result_OldVersion := "v1.0.0";
     Result_NewVersion := "v1.1.0"; Changes := None;
     UnusedDeps := ["github.com/unused/dep"] |}.

Definition result_only_unused : Result :=
  {| Result_Module := "example.com/mod"; Result_OldVersion := "v1.0.0";
     Result_NewVersion := "v1.1.0"; Changes := Some empty_Diff;
     UnusedDeps := ["github.com/unused/dep"] |}.

Definition stub_New (path : string) : returns unit error := Ok tt.

Definition stub_Analyze (a : unit) (u : Upgrade) : unit * returns Result error :=
  (a, Ok result_no_changes).

Definition stub_FindUnused_boom (a : unit) : unit * (list string * option error) :=
  (a, ([], Some (error_other "boom"))).

Definition stub_FormatJSON (r : Result) : returns string error := Ok "{}".

Definition stub_FormatText (r : Result) (verbose : bool) : returns string error :=
  Ok "ok".

Definition stub_run : config → io unit :=
  run TrimSpace_ascii unit stub_New stub_Analyze stub_FindUnused_boom
      stub_FormatJSON stub_FormatText.

Definition cfg_unused (verbose : bool) : config :=
  {| projectPath := "."; upgrade := "example.com/mod@v1.2.0";
     jsonOutput := false; strict := false; unused := true;
     verbose := verbose; showVersion := false |}.

Definition upgrade_v1_2_0 : Upgrade :=
  {| Module_ := "example.com/mod"; OldVersion := ""; NewVersion := "v1.2.0" |}.

(** ** Loaded packages *)

Definition module_lib : packages.Module_ :=
  {| packages.Path := "example.com/lib"; packages.Version := "v1.0.0" |}.

Definition module_user : packages.Module_ :=
  {| packages.Path := "example.com/user"; packages.Version := "" |}.

Definition pkg_user : packages.Package :=
  {| packages.PkgPath := "example.com/user";
     packages.Module' := Some module_user;
     packages.Imports :=
       {[ "example.com/lib/sub" :=
            {| packages.Imported_PkgPath := "example.com/lib/sub";
               packages.Imported_Module := Some module_lib |};
          "fmt" :=
            {| packages.Imported_PkgPath := "fmt";
               packages.Imported_Module := None |} ]} |}.

Definition analyzer_user : analyzer.Analyzer :=
  {| analyzer.projectPath := "/work/user"; analyzer.pkgs := [pkg_user] |}.

(** Loaders that fail, for an analyzer whose packages are loaded already. *)
Definition no_packagesLoad (dir pattern : string)
    : returns (list packages.Package) error :=
  Err (error_other "not loaded").

Definition no_PrintErrors (pkgs : list packages.Package) : Z := 0.

(** Loaders of a project that uses [F] of example.com/lib. *)
Definition load_user (dir pattern : string)
    : returns (list packages.Package) error :=
  Ok [pkg_user].

Definition load_lib (module version : string) : returns API error :=
  if decide (version = "v1.0.0") then Ok api_F
  else if decide (version = "v2.0.0") then Ok empty_API
  else Err (error_other "unknown version").

Definition usage_F (pkgs : list packages.Package) (module : string) : Usage :=
  used ["F"].

Definition upgrade_lib (version : string) : Upgrade :=
  {| Module_ := "example.com/lib"; OldVersion := ""; NewVersion := version |}.

Definition result_lib_v2 : Result :=
  {| Result_Module := "example.com/lib"; Result_OldVersion := "v1.0.0";
     Result_NewVersion := "v2.0.0"; Changes := Some diff_removed_F;
     UnusedDeps := [] |}.

Definition result_lib_v1 : Result :=
  {| Result_Module := "example.com/lib"; Result_OldVersion := "v1.0.0";
     Result_NewVersion := "v1.0.0"; Changes := Some empty_Diff;
     UnusedDeps := [] |}.

(** ** Configurations and collaborators of the driver *)

Definition cfg_plain : config :=
  {| projectPath := "."; upgrade := "example.com/mod@v1.2.0";
     jsonOutput := false; strict := false; unused := false;
     verbose := true; showVersion := false |}.

Definition cfg_no_at : config :=
  {| projectPath := "."; upgrade := "example.com/mod";
     jsonOutput := false; strict := false; unused := false;
     verbose := false; showVersion := false |}.

(** * The program on the example inputs *)

(** Closed decidable facts, by evaluation. *)
Ltac by_compute := apply (bool_decide_unpack _); vm_compute; exact I.

Example scenario_removed_used :
  diffAPIs api_F empty_API (used ["F"]) =
  [ {| Removed := [ {| RemovedSymbol.Name := "F"; RemovedSymbol.Type' := "function";
                       RemovedSymbol.UsedIn := [ {| File := "m.go"; Line := 10 |} ] |} ];
       Added := []; Changed := []; InterfaceChanges := [] |} ].
Proof. vm_compute. reflexivity. Qed.

Example scenario_removed_unused :
  diffAPIs api_F empty_API no_usage = [ empty_Diff ].
Proof. vm_compute. reflexivity. Qed.

Example scenario_Handler_used :
  remove_dups (diffAPIs (api_Handler ["Handle() error"; "Close() error"])
                        (api_Handler ["Handle() error"]) (used ["Handler"]))
  = [diff_Handler_Close].
Proof. vm_compute. reflexivity. Qed.

Example scenario_Handler_unused :
  remove_dups (diffAPIs (api_Handler ["Handle() error"; "Close() error"])
                        (api_Handler ["Handle() error"]) no_usage)
  = [empty_Diff].
Proof. vm_compute. reflexivity. Qed.

Example scenario_signature_changed :
  diffAPIs api_F api_F' (used ["F"]) = [diff_changed_F].
Proof. vm_compute. reflexivity. Qed.

Example scenario_two_removed :
  diffAPIs api_A_B empty_API (used ["A"; "B"]) =
  [removed_in_order ["A"; "B"]; removed_in_order ["B"; "A"]] ∨
  diffAPIs api_A_B empty_API (used ["A"; "B"]) =
  [removed_in_order ["B"; "A"]; removed_in_order ["A"; "B"]].
Proof. vm_compute. first [by left | by right]. Qed.

Example ParseUpgrade_valid :
  ParseUpgrade TrimSpace_ascii "github.com/pkg/errors@v0.9.1"
  = Ok {| Module_ := "github.com/pkg/errors"; OldVersion := "";
          NewVersion := "v0.9.1" |}.
Proof. vm_compute. reflexivity. Qed.

Example ParseUpgrade_whitespace :
  ParseUpgrade TrimSpace_ascii "  github.com/pkg/errors@v0.9.1  "
  = Ok {| Module_ := "github.com/pkg/errors"; OldVersion := "";
          NewVersion := "v0.9.1" |}.
Proof. vm_compute. reflexivity. Qed.

Example ParseUpgrade_missing_version :
  ParseUpgrade TrimSpace_ascii "github.com/pkg/errors"
  = Err {| Spec := "github.com/pkg/errors" |}.
Proof. vm_compute. reflexivity. Qed.

Example ParseUpgrade_missing_module :
  ParseUpgrade TrimSpace_ascii "@v0.9.1" = Err {| Spec := "@v0.9.1" |}.
Proof. vm_compute. reflexivity. Qed.

Example ParseUpgrade_empty :
  ParseUpgrade TrimSpace_ascii "" = Err {| Spec := "" |}.
Proof. vm_compute. reflexivity. Qed.

Example ParseUpgrade_two_ats :
  ParseUpgrade TrimSpace_ascii "github.com/pkg/errors@v0.9.1@extra"
  = Err {| Spec := "github.com/pkg/errors@v0.9.1@extra" |}.
Proof. vm_compute. reflexivity. Qed.

Example ParseUpgrade_blank_version :
  ParseUpgrade TrimSpace_ascii "m@  " = Err {| Spec := "m@  " |}.
Proof. vm_compute. reflexivity. Qed.

Example HasWarnings_only_unused :
  HasBreakingChanges result_only_unused = false ∧
  HasWarnings result_only_unused = true.
Proof. done. Qed.

Example determineExitCode_unused_strict :
  determineExitCode result_only_unused true = 1 ∧
  determineExitCode result_only_unused false = 0.
Proof. done. Qed.

Example run_unused_error_verbose :
  stub_run (cfg_unused true) =
  ([ Stderr ("Analyzing project at: ." +:+ newline);
     Stderr ("Upgrade: example.com/mod  -> v1.2.0" +:+ newline);
     Call_New "."; Call_Analyze upgrade_v1_2_0; Call_FindUnusedDependencies;
     Stderr ("Warning: failed to detect unused dependencies: boom" +:+ newline);
     Call_FormatText result_no_changes true; Stdout "ok" ],
   Ok tt).
Proof. vm_compute. reflexivity. Qed.

(** * The diff engine: lemmas *)

(** ** The loops append *)

Lemma diff_app_empty_l d : diff_app empty_Diff d = d.
Proof. by destruct d. Qed.

Lemma diff_app_empty_r d : diff_app d empty_Diff = d.
Proof. destruct d; unfold diff_app; simpl. by rewrite !app_nil_r. Qed.

Lemma diff_app_assoc d e f : diff_app d (diff_app e f) = diff_app (diff_app d e) f.
Proof. unfold diff_app; simpl. by rewrite !app_assoc. Qed.

Lemma append_Removed_app d r :
  append_Removed d r = diff_app d (append_Removed empty_Diff r).
Proof. unfold append_Removed, diff_app; simpl. by rewrite !app_nil_r. Qed.

Lemma append_Added_app d a :
  append_Added d a = diff_app d (append_Added empty_Diff a).
Proof. unfold append_Added, diff_app; simpl. by rewrite !app_nil_r. Qed.

Lemma append_Changed_app d c :
  append_Changed d c = diff_app d (append_Changed empty_Diff c).
Proof. unfold append_Changed, diff_app; simpl. by rewrite !app_nil_r. Qed.

Lemma append_InterfaceChanges_app d c :
  append_InterfaceChanges d c = diff_app d (append_InterfaceChanges empty_Diff c).
Proof. unfold append_InterfaceChanges, diff_app; simpl. by rewrite !app_nil_r. Qed.

Lemma report_removed_app usage kind name d :
  report_removed usage kind name d =
  diff_app d (report_removed usage kind name empty_Diff).
Proof.
  unfold report_removed. case_decide.
  - apply append_Removed_app.
  - by rewrite diff_app_empty_r.
Qed.

Lemma funcs_old_body_appends newAPI usage : appends (funcs_old_body newAPI usage).
Proof.
  intros d [name oldFunc]; simpl.
  destruct (Funcs newAPI !! name) as [newFunc|]; [|apply report_removed_app].
  repeat case_decide;
    auto using append_Changed_app; by rewrite diff_app_empty_r.
Qed.

Lemma funcs_new_body_appends oldAPI : appends (funcs_new_body oldAPI).
Proof.
  intros d kv. unfold funcs_new_body.
  destruct (Funcs oldAPI !! kv.1);
    [by rewrite diff_app_empty_r | apply append_Added_app].
Qed.

Lemma types_old_body_appends newAPI usage : appends (types_old_body newAPI usage).
Proof.
  intros d kv. unfold types_old_body.
  destruct (Types newAPI !! kv.1);
    [by rewrite diff_app_empty_r | apply report_removed_app].
Qed.

Lemma types_new_body_appends oldAPI : appends (types_new_body oldAPI).
Proof.
  intros d kv. unfold types_new_body.
  destruct (Types oldAPI !! kv.1);
    [by rewrite diff_app_empty_r | apply append_Added_app].
Qed.

Lemma interfaces_new_body_appends oldAPI : appends (interfaces_new_body oldAPI).
Proof.
  intros d kv. unfold interfaces_new_body.
  destruct (Interfaces oldAPI !! kv.1);
    [by rewrite diff_app_empty_r | apply append_Added_app].
Qed.

Lemma interfaces_old_body_appendsM newAPI usage :
  appendsM (interfaces_old_body newAPI usage).
Proof.
  intros d [name oldIface] d'; simpl.
  destruct (Interfaces newAPI !! name) as [newIface|].
  - rewrite list_elem_of_bind. split.
    + intros (change & Hd' & Hchange).
      destruct change as [c|]; apply list_elem_of_ret in Hd' as ->.
      * exists (append_InterfaceChanges empty_Diff c). split.
        -- apply list_elem_of_bind. exists (Some c). split; [|done].
           by apply list_elem_of_ret.
        -- apply append_InterfaceChanges_app.
      * exists empty_Diff. split; [|by rewrite diff_app_empty_r].
        apply list_elem_of_bind. exists None. split; [|done].
        by apply list_elem_of_ret.
    + intros (e & (change & He & Hchange)%list_elem_of_bind & ->).
      exists change. split; [|done].
      destruct change as [c|]; apply list_elem_of_ret in He as ->;
        apply list_elem_of_ret.
      * symmetry. apply append_InterfaceChanges_app.
      * by rewrite diff_app_empty_r.
  - rewrite list_elem_of_ret. split.
    + intros ->. eexists. split; [by apply list_elem_of_ret|].
      apply report_removed_app.
    + intros (e & ->%list_elem_of_ret & ->). symmetry. apply report_removed_app.
Qed.

Lemma foldl_appends {A} (body : Diff → A → Diff) (order : list A) d :
  appends body →
  foldl body d order = diff_app d (diff_concat (body empty_Diff <$> order)).
Proof.
  intros Hbody. revert d.
  induction order as [|x order IH]; intros d; simpl.
  - by rewrite diff_app_empty_r.
  - by rewrite IH, (Hbody d x), diff_app_assoc.
Qed.

Lemma foldM_appendsM {A} (body : Diff → A → list Diff) (order : list A) d d' :
  appendsM body →
  d' ∈ foldM body d order ↔
  ∃ es, Forall2 (λ x e, e ∈ body empty_Diff x) order es ∧
        d' = diff_app d (diff_concat es).
Proof.
  intros Hbody. revert d.
  induction order as [|x order IH]; intros d; simpl.
  - rewrite list_elem_of_singleton. split.
    + intros ->. exists []. split; [constructor|].
      by rewrite diff_app_empty_r.
    + intros (es & ->%Forall2_nil_inv_l & ->). by rewrite diff_app_empty_r.
  - rewrite list_elem_of_bind. split.
    + intros (d1 & (es & Hes & ->)%IH & (e & He & ->)%Hbody).
      exists (e :: es). split; [by constructor|].
      simpl. by rewrite diff_app_assoc.
    + intros (es & (e & es' & He & Hes & ->)%Forall2_cons_inv_l & ->).
      exists (diff_app d e). split.
      * apply IH. exists es'. split; [done|].
        simpl. by rewrite diff_app_assoc.
      * apply Hbody. eauto.
Qed.

(** ** Visiting orders *)

Lemma elem_of_range {V} (m : gmap string V) order :
  order ∈ range m ↔ order ≡ₚ map_to_list m.
Proof.
  unfold range. rewrite permutations_Permutation. split; intros H; by symmetry.
Qed.

Lemma range_inhabited {V} (m : gmap string V) : map_to_list m ∈ range m.
Proof. by apply elem_of_range. Qed.

Lemma range_NoDup {V} (m : gmap string V) order :
  order ∈ range m → NoDup order.*1.
Proof.
  intros ->%elem_of_range. apply NoDup_fst_map_to_list.
Qed.

Lemma range_keys {V} (m : gmap string V) order k :
  order ∈ range m → k ∈ order.*1 ↔ is_Some (m !! k).
Proof.
  intros ->%elem_of_range. rewrite list_elem_of_fmap. split.
  - intros ([k' v] & Hk & Hkv). simpl in Hk. subst k'.
    apply elem_of_map_to_list in Hkv. by exists v.
  - intros [v Hv]. exists (k, v). split; [done|]. by apply elem_of_map_to_list.
Qed.

Lemma range_lookup {V} (m : gmap string V) order k v :
  order ∈ range m → (k, v) ∈ order ↔ m !! k = Some v.
Proof. intros ->%elem_of_range. apply elem_of_map_to_list. Qed.

Lemma range_Permutation {V} (m : gmap string V) o o' :
  o ∈ range m → o' ∈ range m → o ≡ₚ o'.
Proof. intros ->%elem_of_range ->%elem_of_range. done. Qed.

(** ** The method sets of [diffInterfaces] *)

Lemma method_set_lookup methods k :
  method_set methods !! k = if decide (k ∈ methods) then Some true else None.
Proof.
  unfold method_set.
  enough (∀ acc, foldl (λ set method, <[method := true]> set) acc methods !! k
                 = if decide (k ∈ methods) then Some true else acc !! k) as ->.
  { by rewrite lookup_empty. }
  induction methods as [|m methods IH]; intros acc; simpl.
  - done.
  - rewrite IH. destruct (decide (k = m)) as [->|Hne].
    + rewrite lookup_insert_eq.
      rewrite (decide_True (P := m ∈ m :: methods)) by apply list_elem_of_here.
      by case_decide.
    + rewrite lookup_insert_ne by done.
      destruct (decide (k ∈ methods)) as [Hin|Hnin].
      * by rewrite decide_True by (by right).
      * rewrite decide_False; [done|]. by intros [?|?]%elem_of_cons.
Qed.

Lemma index_bool_method_set methods k :
  index_bool (method_set methods) k = bool_decide (k ∈ methods).
Proof.
  unfold index_bool. rewrite method_set_lookup.
  case_decide; [by rewrite bool_decide_eq_true_2 | by rewrite bool_decide_eq_false_2].
Qed.

Lemma missing_from_filter those order :
  missing_from those order = filter (λ k, index_bool those k = false) order.*1.
Proof.
  unfold missing_from.
  enough (∀ acc,
    foldl (λ acc kv, if negb (index_bool those kv.1) then acc ++ [kv.1] else acc)
          acc order
    = acc ++ filter (λ k, index_bool those k = false) order.*1) as ->; [done|].
  induction order as [|[k v] order IH]; intros acc; simpl.
  - by rewrite app_nil_r.
  - rewrite IH, filter_cons; simpl.
    destruct (index_bool those k); simpl; [done|].
    by rewrite <- app_assoc.
Qed.

Lemma missing_from_spec these those order :
  order ∈ range (method_set these) →
  NoDup (missing_from (method_set those) order) ∧
  list_to_set (missing_from (method_set those) order)
    = (list_to_set these ∖ list_to_set those : gset string).
Proof.
  intros Horder. rewrite missing_from_filter. split.
  - apply NoDup_filter. by eapply range_NoDup.
  - apply set_eq. intros k.
    rewrite elem_of_list_to_set, list_elem_of_filter, elem_of_difference,
      !elem_of_list_to_set, index_bool_method_set.
    rewrite (range_keys _ _ _ Horder), method_set_lookup.
    rewrite bool_decide_eq_false. case_decide; split.
    + by intros [? _].
    + intros [??]. by eauto.
    + intros [_ []%is_Some_None].
    + by intros [? _].
Qed.

Lemma length_pos_list_to_set (l : list string) :
  (0 < length l)%nat ↔ (list_to_set l : gset string) ≠ ∅.
Proof.
  destruct l as [|x l]; simpl.
  - split; [lia | done].
  - split; [|lia]. intros _. set_solver.
Qed.

Lemma length_pos_ne_nil {A} (l : list A) : (0 < length l)%nat ↔ l ≠ [].
Proof. destruct l; simpl; split; (done || lia). Qed.

Lemma diffInterfaces_spec name oldIface newIface usage change :
  change ∈ diffInterfaces name oldIface newIface usage →
  match change with
  | Some c =>
      (methods_differ oldIface newIface ∧ index_Symbols usage name ≠ []) ∧
      InterfaceChange.Name c = name ∧
      list_to_set (InterfaceChange.AddedMethods c)
        = methods_of newIface ∖ methods_of oldIface ∧
      list_to_set (InterfaceChange.RemovedMethods c)
        = methods_of oldIface ∖ methods_of newIface ∧
      NoDup (InterfaceChange.AddedMethods c) ∧
      NoDup (InterfaceChange.RemovedMethods c) ∧
      InterfaceChange.ChangedMethods c = [] ∧
      InterfaceChange.UsedIn c = index_Symbols usage name
  | None =>
      ¬ (methods_differ oldIface newIface ∧ index_Symbols usage name ≠ [])
  end.
Proof.
  unfold diffInterfaces.
  intros (o1 & (o2 & Hc & Ho2)%list_elem_of_bind & Ho1)%list_elem_of_bind.
  destruct (missing_from_spec _ (Methods newIface) _ Ho1) as [Hnd1 Hset1].
  destruct (missing_from_spec _ (Methods oldIface) _ Ho2) as [Hnd2 Hset2].
  assert (((0 < length (missing_from (method_set (Methods oldIface)) o2) ∨
            0 < length (missing_from (method_set (Methods newIface)) o1)) ∧
           0 < length (index_Symbols usage name))%nat ↔
          methods_differ oldIface newIface ∧ index_Symbols usage name ≠ [])
    as Hcond.
  { unfold methods_differ, methods_of.
    by rewrite !length_pos_list_to_set, Hset1, Hset2, length_pos_ne_nil. }
  case_decide as Hd; apply list_elem_of_ret in Hc as ->.
  - split; [by apply Hcond|]. simpl. by repeat split.
  - by rewrite <- Hcond.
Qed.

(** Some visiting order always exists, so the loops always finish with a
    result. *)
Lemma bind_range_inhabited {V B} (m : gmap string V)
    (k : list (string * V) → list B) :
  (∀ order, ∃ y, y ∈ k order) → ∃ y, y ∈ range m ≫= k.
Proof.
  intros Hk. destruct (Hk (map_to_list m)) as [y Hy].
  exists y. apply list_elem_of_bind. eauto using range_inhabited.
Qed.

Lemma diffInterfaces_total name oldIface newIface usage :
  ∃ change, change ∈ diffInterfaces name oldIface newIface usage.
Proof.
  unfold diffInterfaces.
  apply bind_range_inhabited; intros o1.
  apply bind_range_inhabited; intros o2.
  case_decide; eexists; by apply list_elem_of_ret.
Qed.

(** ** The shape of every result of [diffAPIs] *)

Lemma diff_concat_cons e es : diff_concat (e :: es) = diff_app e (diff_concat es).
Proof. done. Qed.

Lemma diff_concat_nil : diff_concat [] = empty_Diff.
Proof. done. Qed.

Lemma Removed_concat es : Removed (diff_concat es) = es ≫= Removed.
Proof. induction es as [|e es IH]; [done|]. simpl. by rewrite IH. Qed.

Lemma Added_concat es : Added (diff_concat es) = es ≫= Added.
Proof. induction es as [|e es IH]; [done|]. simpl. by rewrite IH. Qed.

Lemma Changed_concat es : Changed (diff_concat es) = es ≫= Changed.
Proof. induction es as [|e es IH]; [done|]. simpl. by rewrite IH. Qed.

Lemma InterfaceChanges_concat es :
  InterfaceChanges (diff_concat es) = es ≫= InterfaceChanges.
Proof. induction es as [|e es IH]; [done|]. simpl. by rewrite IH. Qed.

Lemma bind_nil_all {A B} (f : A → list B) (l : list A) :
  (∀ x, f x = []) → l ≫= f = [].
Proof. intros Hf. induction l as [|x l IH]; [done|]. by rewrite bind_cons, Hf, IH. Qed.

Lemma bind_ext_all {A B} (f g : A → list B) (l : list A) :
  (∀ x, f x = g x) → l ≫= f = l ≫= g.
Proof. intros Hfg. induction l as [|x l IH]; [done|]. by rewrite !bind_cons, Hfg, IH. Qed.

Lemma fmap_bind_comm {A B C} (f : B → C) (g : A → list B) (l : list A) :
  f <$> (l ≫= g) = l ≫= (λ x, f <$> g x).
Proof.
  induction l as [|x l IH]; [done|].
  by rewrite !bind_cons, fmap_app, IH.
Qed.

Lemma Forall2_bind_eq {A B C} (P : A → B → Prop)
    (f : B → list C) (g : A → list C) l k :
  (∀ x y, P x y → f y = g x) → Forall2 P l k → k ≫= f = l ≫= g.
Proof.
  intros Hfg. induction 1 as [|x y l k Hxy _ IH]; [done|].
  by rewrite !bind_cons, IH, (Hfg x y).
Qed.

Lemma nil_if_no_elem {A} (l : list A) : (∀ x, x ∉ l) → l = [].
Proof.
  destruct l as [|x l]; [done|]. intros H. destruct (H x). apply list_elem_of_here.
Qed.

Lemma diffAPIs_outcome oldAPI newAPI usage d :
  d ∈ diffAPIs oldAPI newAPI usage ↔
  ∃ t, trace_of oldAPI newAPI usage t ∧ d = outcome_of oldAPI newAPI usage t.
Proof.
  unfold diffAPIs, trace_of, outcome_of. split.
  - intros (o1 & (o2 & (o3 & (o4 & (o5 & (d5 & (o6 & Hd & Ho6)%list_elem_of_bind
      & Hd5)%list_elem_of_bind & Ho5)%list_elem_of_bind & Ho4)%list_elem_of_bind
      & Ho3)%list_elem_of_bind & Ho2)%list_elem_of_bind & Ho1)%list_elem_of_bind.
    apply list_elem_of_ret in Hd as ->.
    apply foldM_appendsM in Hd5 as (es & Hes & ->);
      [|apply interfaces_old_body_appendsM].
    exists (Build_Trace o1 o2 o3 o4 o5 o6 es).
    cbn [order_oldFuncs order_newFuncs order_oldTypes order_newTypes
         order_oldInterfaces order_newInterfaces emitted_oldInterfaces].
    split; [done|].
    rewrite !diff_concat_cons, diff_concat_nil.
    rewrite (foldl_appends _ o6) by apply interfaces_new_body_appends.
    rewrite (foldl_appends _ o4) by apply types_new_body_appends.
    rewrite (foldl_appends _ o3) by apply types_old_body_appends.
    rewrite (foldl_appends _ o2) by apply funcs_new_body_appends.
    rewrite (foldl_appends _ o1) by apply funcs_old_body_appends.
    by rewrite diff_app_empty_l, diff_app_empty_r, !diff_app_assoc.
  - intros ([o1 o2 o3 o4 o5 o6 es] & (Ho1 & Ho2 & Ho3 & Ho4 & Ho5 & Ho6 & Hes) & ->).
    cbn [order_oldFuncs order_newFuncs order_oldTypes order_newTypes
         order_oldInterfaces order_newInterfaces emitted_oldInterfaces] in *.
    apply list_elem_of_bind; exists o1; split; [|done].
    apply list_elem_of_bind; exists o2; split; [|done].
    apply list_elem_of_bind; exists o3; split; [|done].
    apply list_elem_of_bind; exists o4; split; [|done].
    apply list_elem_of_bind; exists o5; split; [|done].
    apply list_elem_of_bind.
    exists (diff_app
      (foldl (types_new_body oldAPI)
        (foldl (types_old_body newAPI usage)
          (foldl (funcs_new_body oldAPI)
            (foldl (funcs_old_body newAPI usage) empty_Diff o1) o2) o3) o4)
      (diff_concat es)).
    split.
    + apply list_elem_of_bind; exists o6; split; [|done].
      apply list_elem_of_ret.
      rewrite (foldl_appends _ o6) by apply interfaces_new_body_appends.
      rewrite (foldl_appends _ o4) by apply types_new_body_appends.
      rewrite (foldl_appends _ o3) by apply types_old_body_appends.
      rewrite (foldl_appends _ o2) by apply funcs_new_body_appends.
      rewrite (foldl_appends _ o1) by apply funcs_old_body_appends.
      rewrite !diff_concat_cons, diff_concat_nil.
      by rewrite diff_app_empty_l, diff_app_empty_r, !diff_app_assoc.
    + apply foldM_appendsM; [apply interfaces_old_body_appendsM|].
      by exists es.
Qed.

(** ** What each loop contributes to each sequence *)

Ltac emits_nothing :=
  intros [??];
  unfold funcs_old_body, funcs_new_body, types_old_body, types_new_body,
    interfaces_new_body, report_removed; simpl;
  repeat case_match; reflexivity.

Lemma funcs_old_body_Added newAPI usage kv :
  Added (funcs_old_body newAPI usage empty_Diff kv) = [].
Proof. revert kv. emits_nothing. Qed.

Lemma funcs_old_body_InterfaceChanges newAPI usage kv :
  InterfaceChanges (funcs_old_body newAPI usage empty_Diff kv) = [].
Proof. revert kv. emits_nothing. Qed.

Lemma funcs_new_body_Removed oldAPI kv :
  Removed (funcs_new_body oldAPI empty_Diff kv) = [].
Proof. revert kv. emits_nothing. Qed.

Lemma funcs_new_body_Changed oldAPI kv :
  Changed (funcs_new_body oldAPI empty_Diff kv) = [].
Proof. revert kv. emits_nothing. Qed.

Lemma funcs_new_body_InterfaceChanges oldAPI kv :
  InterfaceChanges (funcs_new_body oldAPI empty_Diff kv) = [].
Proof. revert kv. emits_nothing. Qed.

Lemma types_old_body_Added newAPI usage kv :
  Added (types_old_body newAPI usage empty_Diff kv) = [].
Proof. revert kv. emits_nothing. Qed.

Lemma types_old_body_Changed newAPI usage kv :
  Changed (types_old_body newAPI usage empty_Diff kv) = [].
Proof. revert kv. emits_nothing. Qed.

Lemma types_old_body_InterfaceChanges newAPI usage kv :
  InterfaceChanges (types_old_body newAPI usage empty_Diff kv) = [].
Proof. revert kv. emits_nothing. Qed.

Lemma types_new_body_Removed oldAPI kv :
  Removed (types_new_body oldAPI empty_Diff kv) = [].
Proof. revert kv. emits_nothing. Qed.

Lemma types_new_body_Changed oldAPI kv :
  Changed (types_new_body oldAPI empty_Diff kv) = [].
Proof. revert kv. emits_nothing. Qed.

Lemma types_new_body_InterfaceChanges oldAPI kv :
  InterfaceChanges (types_new_body oldAPI empty_Diff kv) = [].
Proof. revert kv. emits_nothing. Qed.

Lemma interfaces_new_body_Removed oldAPI kv :
  Removed (interfaces_new_body oldAPI empty_Diff kv) = [].
Proof. revert kv. emits_nothing. Qed.

Lemma interfaces_new_body_Changed oldAPI kv :
  Changed (interfaces_new_body oldAPI empty_Diff kv) = [].
Proof. revert kv. emits_nothing. Qed.

Lemma interfaces_new_body_InterfaceChanges oldAPI kv :
  InterfaceChanges (interfaces_new_body oldAPI empty_Diff kv) = [].
Proof. revert kv. emits_nothing. Qed.

Lemma interfaces_old_body_emits newAPI usage kv e :
  e ∈ interfaces_old_body newAPI usage empty_Diff kv →
  Removed e = removed_interface newAPI usage kv ∧
  Added e = [] ∧ Changed e = [] ∧
  change_key <$> InterfaceChanges e = interface_change_keys newAPI usage kv ∧
  Forall methods_NoDup (InterfaceChanges e).
Proof.
  destruct kv as [name oldIface].
  unfold interfaces_old_body, removed_interface, interface_change_keys; simpl.
  destruct (Interfaces newAPI !! name) as [newIface|].
  - intros (change & He & Hchange%diffInterfaces_spec)%list_elem_of_bind.
    destruct change as [c|]; apply list_elem_of_ret in He as ->; simpl.
    + destruct Hchange as (Hcond & Hname & Hadd & Hrem & Hnd1 & Hnd2 & Hch & Hused).
      rewrite decide_True by done.
      split_and!; try done.
      * unfold change_key. by rewrite Hname, Hadd, Hrem, Hch, Hused.
      * by repeat constructor.
    + rewrite decide_False by done. by split_and!.
  - intros ->%list_elem_of_ret. split_and!; try done.
    + unfold report_removed. by case_decide.
    + unfold report_removed. by case_decide.
    + unfold report_removed. by case_decide.
    + unfold report_removed. case_decide; constructor.
Qed.

(** The four sequences of an outcome, loop by loop. *)
Lemma outcome_Removed oldAPI newAPI usage t :
  trace_of oldAPI newAPI usage t →
  Removed (outcome_of oldAPI newAPI usage t) =
    (order_oldFuncs t ≫= λ kv, Removed (funcs_old_body newAPI usage empty_Diff kv)) ++
    (order_oldTypes t ≫= λ kv, Removed (types_old_body newAPI usage empty_Diff kv)) ++
    (order_oldInterfaces t ≫= removed_interface newAPI usage).
Proof.
  intros (_ & _ & _ & _ & _ & _ & Hes). unfold outcome_of.
  rewrite Removed_concat, !bind_cons, !Removed_concat, !list_fmap_bind.
  rewrite (bind_nil_all (Removed ∘ funcs_new_body oldAPI empty_Diff))
    by apply funcs_new_body_Removed.
  rewrite (bind_nil_all (Removed ∘ types_new_body oldAPI empty_Diff))
    by apply types_new_body_Removed.
  rewrite (bind_nil_all (Removed ∘ interfaces_new_body oldAPI empty_Diff))
    by apply interfaces_new_body_Removed.
  rewrite (Forall2_bind_eq _ Removed (removed_interface newAPI usage) _ _
             (λ kv e H, proj1 (interfaces_old_body_emits _ _ kv e H)) Hes).
  simpl. by rewrite !app_nil_r.
Qed.

Lemma outcome_Added oldAPI newAPI usage t :
  trace_of oldAPI newAPI usage t →
  Added (outcome_of oldAPI newAPI usage t) =
    (order_newFuncs t ≫= λ kv, Added (funcs_new_body oldAPI empty_Diff kv)) ++
    (order_newTypes t ≫= λ kv, Added (types_new_body oldAPI empty_Diff kv)) ++
    (order_newInterfaces t ≫= λ kv, Added (interfaces_new_body oldAPI empty_Diff kv)).
Proof.
  intros (_ & _ & _ & _ & _ & _ & Hes). unfold outcome_of.
  rewrite Added_concat, !bind_cons, !Added_concat, !list_fmap_bind.
  rewrite (bind_nil_all (Added ∘ funcs_old_body newAPI usage empty_Diff))
    by apply funcs_old_body_Added.
  rewrite (bind_nil_all (Added ∘ types_old_body newAPI usage empty_Diff))
    by apply types_old_body_Added.
  rewrite (Forall2_bind_eq _ Added (λ _, []) _ _
             (λ kv e H, proj1 (proj2 (interfaces_old_body_emits _ _ kv e H))) Hes).
  rewrite (bind_nil_all (λ _ : string * Interface, @nil AddedSymbol.t)) by done.
  simpl. by rewrite !app_nil_r.
Qed.

Lemma outcome_Changed oldAPI newAPI usage t :
  trace_of oldAPI newAPI usage t →
  Changed (outcome_of oldAPI newAPI usage t) =
    order_oldFuncs t ≫= λ kv, Changed (funcs_old_body newAPI usage empty_Diff kv).
Proof.
  intros (_ & _ & _ & _ & _ & _ & Hes). unfold outcome_of.
  rewrite Changed_concat, !bind_cons, !Changed_concat, !list_fmap_bind.
  rewrite (bind_nil_all (Changed ∘ funcs_new_body oldAPI empty_Diff))
    by apply funcs_new_body_Changed.
  rewrite (bind_nil_all (Changed ∘ types_old_body newAPI usage empty_Diff))
    by apply types_old_body_Changed.
  rewrite (bind_nil_all (Changed ∘ types_new_body oldAPI empty_Diff))
    by apply types_new_body_Changed.
  rewrite (bind_nil_all (Changed ∘ interfaces_new_body oldAPI empty_Diff))
    by apply interfaces_new_body_Changed.
  rewrite (Forall2_bind_eq _ Changed (λ _, []) _ _
     (λ kv e H, proj1 (proj2 (proj2 (interfaces_old_body_emits _ _ kv e H)))) Hes).
  rewrite (bind_nil_all (λ _ : string * Interface, @nil ChangedSignature.t)) by done.
  simpl. by rewrite !app_nil_r.
Qed.

Lemma outcome_InterfaceChanges oldAPI newAPI usage t :
  trace_of oldAPI newAPI usage t →
  InterfaceChanges (outcome_of oldAPI newAPI usage t) =
    emitted_oldInterfaces t ≫= InterfaceChanges.
Proof.
  intros _. unfold outcome_of.
  rewrite InterfaceChanges_concat, !bind_cons, !InterfaceChanges_concat,
    !list_fmap_bind.
  rewrite (bind_nil_all (InterfaceChanges ∘ funcs_old_body newAPI usage empty_Diff))
    by apply funcs_old_body_InterfaceChanges.
  rewrite (bind_nil_all (InterfaceChanges ∘ funcs_new_body oldAPI empty_Diff))
    by apply funcs_new_body_InterfaceChanges.
  rewrite (bind_nil_all (InterfaceChanges ∘ types_old_body newAPI usage empty_Diff))
    by apply types_old_body_InterfaceChanges.
  rewrite (bind_nil_all (InterfaceChanges ∘ types_new_body oldAPI empty_Diff))
    by apply types_new_body_InterfaceChanges.
  rewrite (bind_nil_all (InterfaceChanges ∘ interfaces_new_body oldAPI empty_Diff))
    by apply interfaces_new_body_InterfaceChanges.
  simpl. by rewrite !app_nil_r.
Qed.

Lemma outcome_change_keys oldAPI newAPI usage t :
  trace_of oldAPI newAPI usage t →
  change_key <$> InterfaceChanges (outcome_of oldAPI newAPI usage t) =
    order_oldInterfaces t ≫= interface_change_keys newAPI usage.
Proof.
  intros Ht. rewrite outcome_InterfaceChanges by done.
  destruct Ht as (_ & _ & _ & _ & _ & _ & Hes).
  rewrite fmap_bind_comm.
  apply (Forall2_bind_eq _ _ _ _ _
    (λ kv e H, proj1 (proj2 (proj2 (proj2 (interfaces_old_body_emits _ _ kv e H)))))
    Hes).
Qed.

Lemma outcome_methods_NoDup oldAPI newAPI usage t :
  trace_of oldAPI newAPI usage t →
  Forall methods_NoDup (InterfaceChanges (outcome_of oldAPI newAPI usage t)).
Proof.
  intros Ht. rewrite outcome_InterfaceChanges by done.
  destruct Ht as (_ & _ & _ & _ & _ & _ & Hes).
  apply Forall_bind.
  induction Hes as [|kv e o es He _ IH]; constructor; [|done].
  by apply interfaces_old_body_emits in He as (_ & _ & _ & _ & ?).
Qed.

(** ** Which entries a result holds *)

Lemma elem_of_report_removed usage kind name r :
  r ∈ Removed (report_removed usage kind name empty_Diff) ↔
  index_Symbols usage name ≠ [] ∧
  r = {| RemovedSymbol.Name := name; RemovedSymbol.Type' := kind;
         RemovedSymbol.UsedIn := index_Symbols usage name |}.
Proof.
  unfold report_removed. rewrite <- length_pos_ne_nil.
  case_decide as Hlen; simpl.
  - rewrite list_elem_of_singleton. by split; [intros ->|intros [_ ->]].
  - rewrite elem_of_nil. by split; [|intros [? _]].
Qed.

Lemma elem_of_removed_via {V} (m m' : gmap string V) usage kind order r :
  order ∈ range m →
  r ∈ order ≫= (λ kv, match m' !! kv.1 with
                       | None => Removed (report_removed usage kind kv.1 empty_Diff)
                       | Some _ => []
                       end) ↔
  RemovedSymbol.Type' r = kind ∧
  RemovedSymbol.Name r ∈ dom m ∧ (RemovedSymbol.Name r ∉ dom m') ∧
  index_Symbols usage (RemovedSymbol.Name r) ≠ [] ∧
  RemovedSymbol.UsedIn r = index_Symbols usage (RemovedSymbol.Name r).
Proof.
  intros Horder. rewrite list_elem_of_bind. split.
  - intros ([k v] & Hr & Hkv%(range_lookup _ _ _ _ Horder)); simpl in Hr.
    destruct (m' !! k) eqn:Hk; [by apply elem_of_nil in Hr|].
    apply elem_of_report_removed in Hr as [Hused ->]; simpl.
    split_and!; try done.
    + apply elem_of_dom. eauto.
    + by apply not_elem_of_dom.
  - destruct r as [name kind' locs]; simpl.
    intros (-> & [v Hv]%elem_of_dom & Hnone%not_elem_of_dom & Hused & ->).
    exists (name, v). split; [|by apply (range_lookup _ _ _ _ Horder)].
    simpl. rewrite Hnone. by apply elem_of_report_removed.
Qed.

Lemma elem_of_added_via {V} (m m' : gmap string V) kind order a :
  order ∈ range m →
  a ∈ order ≫= (λ kv, match m' !! kv.1 with
                       | None => [ {| AddedSymbol.Name := kv.1;
                                      AddedSymbol.Type' := kind |} ]
                       | Some _ => []
                       end) ↔
  AddedSymbol.Type' a = kind ∧
  AddedSymbol.Name a ∈ dom m ∧ AddedSymbol.Name a ∉ dom m'.
Proof.
  intros Horder. rewrite list_elem_of_bind. split.
  - intros ([k v] & Ha & Hkv%(range_lookup _ _ _ _ Horder)); simpl in Ha.
    destruct (m' !! k) eqn:Hk; [by apply elem_of_nil in Ha|].
    apply list_elem_of_singleton in Ha as ->; simpl.
    split_and!; try done.
    + apply elem_of_dom. eauto.
    + by apply not_elem_of_dom.
  - destruct a as [name kind']; simpl.
    intros (-> & [v Hv]%elem_of_dom & Hnone%not_elem_of_dom).
    exists (name, v). split; [|by apply (range_lookup _ _ _ _ Horder)].
    simpl. rewrite Hnone. by apply list_elem_of_singleton.
Qed.

Lemma funcs_old_body_Removed newAPI usage kv :
  Removed (funcs_old_body newAPI usage empty_Diff kv) =
  match Funcs newAPI !! kv.1 with
  | None => Removed (report_removed usage "function" kv.1 empty_Diff)
  | Some _ => []
  end.
Proof.
  destruct kv as [name f]; simpl.
  destruct (Funcs newAPI !! name); [|done]. by repeat case_decide.
Qed.

Lemma types_old_body_Removed newAPI usage kv :
  Removed (types_old_body newAPI usage empty_Diff kv) =
  match Types newAPI !! kv.1 with
  | None => Removed (report_removed usage "type" kv.1 empty_Diff)
  | Some _ => []
  end.
Proof. unfold types_old_body. by destruct (Types newAPI !! kv.1). Qed.

Lemma funcs_new_body_Added oldAPI kv :
  Added (funcs_new_body oldAPI empty_Diff kv) =
  match Funcs oldAPI !! kv.1 with
  | None => [ {| AddedSymbol.Name := kv.1; AddedSymbol.Type' := "function" |} ]
  | Some _ => []
  end.
Proof. unfold funcs_new_body. by destruct (Funcs oldAPI !! kv.1). Qed.

Lemma types_new_body_Added oldAPI kv :
  Added (types_new_body oldAPI empty_Diff kv) =
  match Types oldAPI !! kv.1 with
  | None => [ {| AddedSymbol.Name := kv.1; AddedSymbol.Type' := "type" |} ]
  | Some _ => []
  end.
Proof. unfold types_new_body. by destruct (Types oldAPI !! kv.1). Qed.

Lemma interfaces_new_body_Added oldAPI kv :
  Added (interfaces_new_body oldAPI empty_Diff kv) =
  match Interfaces oldAPI !! kv.1 with
  | None => [ {| AddedSymbol.Name := kv.1; AddedSymbol.Type' := "interface" |} ]
  | Some _ => []
  end.
Proof. unfold interfaces_new_body. by destruct (Interfaces oldAPI !! kv.1). Qed.

Lemma elem_of_Removed oldAPI newAPI usage d r :
  d ∈ diffAPIs oldAPI newAPI usage →
  r ∈ Removed d ↔
  declares oldAPI (RemovedSymbol.Type' r) (RemovedSymbol.Name r) ∧
  ¬ declares newAPI (RemovedSymbol.Type' r) (RemovedSymbol.Name r) ∧
  index_Symbols usage (RemovedSymbol.Name r) ≠ [] ∧
  RemovedSymbol.UsedIn r = index_Symbols usage (RemovedSymbol.Name r).
Proof.
  intros (t & Ht & ->)%diffAPIs_outcome.
  rewrite outcome_Removed by done.
  rewrite (bind_ext_all _ _ _ (funcs_old_body_Removed newAPI usage)).
  rewrite (bind_ext_all _ _ _ (types_old_body_Removed newAPI usage)).
  destruct Ht as (Ho1 & _ & Ho3 & _ & Ho5 & _ & _).
  unfold removed_interface.
  rewrite !elem_of_app, (elem_of_removed_via _ _ _ _ _ _ Ho1),
    (elem_of_removed_via _ _ _ _ _ _ Ho3), (elem_of_removed_via _ _ _ _ _ _ Ho5).
  unfold declares. split.
  - intros [H|[H|H]]; destruct H as (-> & ? & ? & ? & ?);
      split_and!; try done; [by left| |by right; left| |by right; right|];
      by intros [[??]|[[??]|[??]]].
  - intros ([[-> ?]|[[-> ?]|[-> ?]]] & Hnew & ? & ?);
      [left|right; left|right; right]; split_and!; try done;
      intros ?; apply Hnew; auto.
Qed.

Lemma elem_of_Added oldAPI newAPI usage d a :
  d ∈ diffAPIs oldAPI newAPI usage →
  a ∈ Added d ↔
  declares newAPI (AddedSymbol.Type' a) (AddedSymbol.Name a) ∧
  ¬ declares oldAPI (AddedSymbol.Type' a) (AddedSymbol.Name a).
Proof.
  intros (t & Ht & ->)%diffAPIs_outcome.
  rewrite outcome_Added by done.
  rewrite (bind_ext_all _ _ _ (funcs_new_body_Added oldAPI)).
  rewrite (bind_ext_all _ _ _ (types_new_body_Added oldAPI)).
  rewrite (bind_ext_all _ _ _ (interfaces_new_body_Added oldAPI)).
  destruct Ht as (_ & Ho2 & _ & Ho4 & _ & Ho6 & _).
  rewrite !elem_of_app, (elem_of_added_via _ _ _ _ _ Ho2),
    (elem_of_added_via _ _ _ _ _ Ho4), (elem_of_added_via _ _ _ _ _ Ho6).
  unfold declares. split.
  - intros [H|[H|H]]; destruct H as (-> & ? & ?);
      split_and!; try done; [by left| |by right; left| |by right; right|];
      by intros [[??]|[[??]|[??]]].
  - intros ([[-> ?]|[[-> ?]|[-> ?]]] & Hold);
      [left|right; left|right; right]; split_and!; try done;
      intros ?; apply Hold; auto.
Qed.

Lemma elem_of_funcs_old_body_Changed newAPI usage name oldFunc c :
  c ∈ Changed (funcs_old_body newAPI usage empty_Diff (name, oldFunc)) ↔
  ∃ newFunc, Funcs newAPI !! name = Some newFunc ∧
    Signature oldFunc ≠ Signature newFunc ∧
    index_Symbols usage name ≠ [] ∧
    c = {| ChangedSignature.Name := name;
           ChangedSignature.OldSignature := Signature oldFunc;
           ChangedSignature.NewSignature := Signature newFunc;
           ChangedSignature.UsedIn := index_Symbols usage name |}.
Proof.
  simpl. destruct (Funcs newAPI !! name) as [newFunc|].
  - destruct (decide (Signature oldFunc ≠ Signature newFunc)) as [Hsig|Hsig];
      [destruct (decide (0 < length (index_Symbols usage name))%nat) as [Hlen|Hlen]|];
      simpl; rewrite ?list_elem_of_singleton, ?elem_of_nil.
    + apply length_pos_ne_nil in Hlen.
      split; [intros ->; by exists newFunc|].
      by intros (? & [= <-] & _ & _ & ->).
    + split; [done|]. intros (? & _ & _ & Hused%length_pos_ne_nil & _). done.
    + split; [done|]. by intros (? & [= <-] & ? & _).
  - unfold report_removed. case_decide; simpl; rewrite elem_of_nil;
      (split; [done|]); by intros (? & ? & _).
Qed.

Lemma elem_of_Changed oldAPI newAPI usage d c :
  d ∈ diffAPIs oldAPI newAPI usage →
  c ∈ Changed d ↔
  ∃ oldFunc newFunc,
    Funcs oldAPI !! ChangedSignature.Name c = Some oldFunc ∧
    Funcs newAPI !! ChangedSignature.Name c = Some newFunc ∧
    Signature oldFunc ≠ Signature newFunc ∧
    index_Symbols usage (ChangedSignature.Name c) ≠ [] ∧
    ChangedSignature.OldSignature c = Signature oldFunc ∧
    ChangedSignature.NewSignature c = Signature newFunc ∧
    ChangedSignature.UsedIn c = index_Symbols usage (ChangedSignature.Name c).
Proof.
  intros (t & Ht & ->)%diffAPIs_outcome.
  rewrite outcome_Changed by done.
  destruct Ht as (Ho1 & _). rewrite list_elem_of_bind. split.
  - intros ([name oldFunc] & Hc & Hkv%(range_lookup _ _ _ _ Ho1)).
    apply elem_of_funcs_old_body_Changed in Hc as (newFunc & ? & ? & ? & ->).
    simpl. by exists oldFunc, newFunc.
  - destruct c as [name osig nsig locs]; simpl.
    intros (oldFunc & newFunc & Hold & Hnew & Hsig & Hused & -> & -> & ->).
    exists (name, oldFunc). split; [|by apply (range_lookup _ _ _ _ Ho1)].
    apply elem_of_funcs_old_body_Changed. by exists newFunc.
Qed.

Lemma elem_of_change_keys oldAPI newAPI usage d key :
  d ∈ diffAPIs oldAPI newAPI usage →
  key ∈ change_key <$> InterfaceChanges d ↔
  ∃ name oldIface newIface,
    Interfaces oldAPI !! name = Some oldIface ∧
    Interfaces newAPI !! name = Some newIface ∧
    methods_differ oldIface newIface ∧
    index_Symbols usage name ≠ [] ∧
    key = (name, methods_of newIface ∖ methods_of oldIface,
           methods_of oldIface ∖ methods_of newIface, [],
           index_Symbols usage name).
Proof.
  intros (t & Ht & ->)%diffAPIs_outcome.
  rewrite outcome_change_keys by done.
  destruct Ht as (_ & _ & _ & _ & Ho5 & _). rewrite list_elem_of_bind.
  unfold interface_change_keys. split.
  - intros ([name oldIface] & Hkey & Hkv%(range_lookup _ _ _ _ Ho5)).
    simpl in Hkey.
    destruct (Interfaces newAPI !! name) as [newIface|] eqn:Hnew;
      [|by apply elem_of_nil in Hkey].
    case_decide as Hcond; [|by apply elem_of_nil in Hkey].
    apply list_elem_of_singleton in Hkey as ->. destruct Hcond.
    by exists name, oldIface, newIface.
  - intros (name & oldIface & newIface & Hold & Hnew & Hdiff & Hused & ->).
    exists (name, oldIface). split; [|by apply (range_lookup _ _ _ _ Ho5)].
    simpl. rewrite Hnew, decide_True by done. by apply list_elem_of_singleton.
Qed.

(** Every [InterfaceChange] of a result, read field by field. *)
Lemma elem_of_InterfaceChanges oldAPI newAPI usage d c :
  d ∈ diffAPIs oldAPI newAPI usage →
  c ∈ InterfaceChanges d →
  ∃ oldIface newIface,
    Interfaces oldAPI !! InterfaceChange.Name c = Some oldIface ∧
    Interfaces newAPI !! InterfaceChange.Name c = Some newIface ∧
    methods_differ oldIface newIface ∧
    index_Symbols usage (InterfaceChange.Name c) ≠ [] ∧
    list_to_set (InterfaceChange.AddedMethods c)
      = methods_of newIface ∖ methods_of oldIface ∧
    list_to_set (InterfaceChange.RemovedMethods c)
      = methods_of oldIface ∖ methods_of newIface ∧
    InterfaceChange.ChangedMethods c = [] ∧
    InterfaceChange.UsedIn c = index_Symbols usage (InterfaceChange.Name c).
Proof.
  intros Hd Hc.
  assert (change_key c ∈ change_key <$> InterfaceChanges d) as Hkey
    by (by apply list_elem_of_fmap_2).
  apply (elem_of_change_keys _ _ _ _ _ Hd) in Hkey
    as (name & oldIface & newIface & Hold & Hnew & Hdiff & Hused & Hkey).
  unfold change_key in Hkey. injection Hkey as <- Hadd Hrem Hch Hu.
  by exists oldIface, newIface.
Qed.

Lemma InterfaceChanges_complete oldAPI newAPI usage d name oldIface newIface :
  d ∈ diffAPIs oldAPI newAPI usage →
  Interfaces oldAPI !! name = Some oldIface →
  Interfaces newAPI !! name = Some newIface →
  methods_differ oldIface newIface →
  index_Symbols usage name ≠ [] →
  ∃ c, c ∈ InterfaceChanges d ∧ InterfaceChange.Name c = name.
Proof.
  intros Hd Hold Hnew Hdiff Hused.
  assert ((name, methods_of newIface ∖ methods_of oldIface,
           methods_of oldIface ∖ methods_of newIface, [],
           index_Symbols usage name) ∈ change_key <$> InterfaceChanges d) as Hkey.
  { apply (elem_of_change_keys _ _ _ _ _ Hd). by exists name, oldIface, newIface. }
  apply list_elem_of_fmap in Hkey as (c & Hkey & Hc).
  exists c. split; [done|]. unfold change_key in Hkey. by injection Hkey.
Qed.

(** [diffAPIs] cannot fail: it always returns some [Diff]. *)
Lemma foldM_total {A B} (body : B → A → list B) (order : list A) b :
  (∀ b x, ∃ b', b' ∈ body b x) → ∃ b', b' ∈ foldM body b order.
Proof.
  intros Hbody. revert b.
  induction order as [|x order IH]; intros b; simpl.
  - exists b. by apply list_elem_of_singleton.
  - destruct (Hbody b x) as [b1 Hb1]. destruct (IH b1) as [b' Hb'].
    exists b'. apply list_elem_of_bind. eauto.
Qed.

Lemma interfaces_old_body_total newAPI usage diff kv :
  ∃ d, d ∈ interfaces_old_body newAPI usage diff kv.
Proof.
  destruct kv as [name oldIface]; simpl.
  destruct (Interfaces newAPI !! name) as [newIface|].
  - destruct (diffInterfaces_total name oldIface newIface usage) as [change Hc].
    destruct change as [c|]; eexists; apply list_elem_of_bind;
      eexists; (split; [|exact Hc]); by apply list_elem_of_ret.
  - eexists. by apply list_elem_of_ret.
Qed.

Lemma diffAPIs_total oldAPI newAPI usage :
  ∃ d, d ∈ diffAPIs oldAPI newAPI usage.
Proof.
  unfold diffAPIs.
  do 5 (apply bind_range_inhabited; intros ?).
  destruct (foldM_total (interfaces_old_body newAPI usage) order3
    (foldl (types_new_body oldAPI)
       (foldl (types_old_body newAPI usage)
          (foldl (funcs_new_body oldAPI)
             (foldl (funcs_old_body newAPI usage) empty_Diff order) order0)
          order1) order2)
    (interfaces_old_body_total newAPI usage)) as [d5 Hd5].
  eexists. apply list_elem_of_bind. exists d5. split; [|done].
  apply list_elem_of_bind. eexists. split; [|apply range_inhabited].
  by apply list_elem_of_ret.
Qed.

(** ** Two results of the same run differ by the visiting orders only *)

Lemma outcomes_Added_Permutation oldAPI newAPI usage usage' d d' :
  d ∈ diffAPIs oldAPI newAPI usage →
  d' ∈ diffAPIs oldAPI newAPI usage' →
  Added d ≡ₚ Added d'.
Proof.
  intros (t & Ht & ->)%diffAPIs_outcome (t' & Ht' & ->)%diffAPIs_outcome.
  rewrite !outcome_Added by done.
  destruct Ht as (_ & Ho2 & _ & Ho4 & _ & Ho6 & _).
  destruct Ht' as (_ & Ho2' & _ & Ho4' & _ & Ho6' & _).
  by rewrite (range_Permutation _ _ _ Ho2 Ho2'), (range_Permutation _ _ _ Ho4 Ho4'),
    (range_Permutation _ _ _ Ho6 Ho6').
Qed.

Lemma outcomes_Removed_Permutation oldAPI newAPI usage d d' :
  d ∈ diffAPIs oldAPI newAPI usage →
  d' ∈ diffAPIs oldAPI newAPI usage →
  Removed d ≡ₚ Removed d'.
Proof.
  intros (t & Ht & ->)%diffAPIs_outcome (t' & Ht' & ->)%diffAPIs_outcome.
  rewrite !outcome_Removed by done.
  destruct Ht as (Ho1 & _ & Ho3 & _ & Ho5 & _ & _).
  destruct Ht' as (Ho1' & _ & Ho3' & _ & Ho5' & _ & _).
  by rewrite (range_Permutation _ _ _ Ho1 Ho1'), (range_Permutation _ _ _ Ho3 Ho3'),
    (range_Permutation _ _ _ Ho5 Ho5').
Qed.

Lemma outcomes_Changed_Permutation oldAPI newAPI usage d d' :
  d ∈ diffAPIs oldAPI newAPI usage →
  d' ∈ diffAPIs oldAPI newAPI usage →
  Changed d ≡ₚ Changed d'.
Proof.
  intros (t & Ht & ->)%diffAPIs_outcome (t' & Ht' & ->)%diffAPIs_outcome.
  rewrite !outcome_Changed by done.
  destruct Ht as (Ho1 & _). destruct Ht' as (Ho1' & _).
  by rewrite (range_Permutation _ _ _ Ho1 Ho1').
Qed.

Lemma outcomes_change_keys_Permutation oldAPI newAPI usage d d' :
  d ∈ diffAPIs oldAPI newAPI usage →
  d' ∈ diffAPIs oldAPI newAPI usage →
  change_key <$> InterfaceChanges d ≡ₚ change_key <$> InterfaceChanges d'.
Proof.
  intros (t & Ht & ->)%diffAPIs_outcome (t' & Ht' & ->)%diffAPIs_outcome.
  rewrite !outcome_change_keys by done.
  destruct Ht as (_ & _ & _ & _ & Ho5 & _). destruct Ht' as (_ & _ & _ & _ & Ho5' & _).
  by rewrite (range_Permutation _ _ _ Ho5 Ho5').
Qed.

(** * The diff engine: the properties *)

(** C1, counterexample.  A function [F] of the old surface that the new
    surface no longer has as a function, and that the project does not use,
    is not reported as removed, but the name [F] is still the label of an
    entry of the Diff: the new surface declares a type [F], which the engine
    lists in [Added] (a warning) without consulting the usage index. *)
Lemma C1_unused_removed_name_still_listed :
  diffAPIs api_F api_F_type no_usage = [diff_added_F_type] ∧
  declares api_F "function" "F" ∧
  ¬ declares api_F_type "function" "F" ∧
  index_Symbols no_usage "F" = [] ∧
  named_in diff_added_F_type "F".
Proof.
  split_and!.
  - vm_compute. reflexivity.
  - by_compute.
  - by_compute.
  - reflexivity.
  - right; left. eexists. split; [apply list_elem_of_here | reflexivity].
Qed.

(** C1, as amended.  Let [name] be a key of the old surface's functions
    (respectively types, interfaces) that is not a key of the same mapping of
    the new surface.  Then [Removed] holds the entry with that name, the
    matching kind and the usage locations of the name if and only if the name
    has a non-empty location list in the usage index, and every [Removed]
    entry with that name carries those locations.  Otherwise no entry with
    that name appears in [Removed], [Changed] or [InterfaceChanges]; and in
    no case does [Added] hold an entry with that name and that kind. *)
Theorem C1_removed_iff_used oldAPI newAPI usage d kind name :
  d ∈ diffAPIs oldAPI newAPI usage →
  declares oldAPI kind name →
  ¬ declares newAPI kind name →
  ({| RemovedSymbol.Name := name; RemovedSymbol.Type' := kind;
      RemovedSymbol.UsedIn := index_Symbols usage name |} ∈ Removed d
   ↔ index_Symbols usage name ≠ []) ∧
  (∀ r, r ∈ Removed d → RemovedSymbol.Name r = name →
        RemovedSymbol.UsedIn r = index_Symbols usage name) ∧
  (index_Symbols usage name = [] →
     (∀ r, r ∈ Removed d → RemovedSymbol.Name r ≠ name) ∧
     (∀ c, c ∈ Changed d → ChangedSignature.Name c ≠ name) ∧
     (∀ c, c ∈ InterfaceChanges d → InterfaceChange.Name c ≠ name)) ∧
  (∀ a, a ∈ Added d → AddedSymbol.Name a = name → AddedSymbol.Type' a ≠ kind).
Proof.
  intros Hd Hold Hnew. split_and!.
  - rewrite (elem_of_Removed _ _ _ _ _ Hd); simpl.
    split; [by intros (_ & _ & ? & _) | by intros ?].
  - intros r Hr <-. by apply (elem_of_Removed _ _ _ _ _ Hd) in Hr as (_ & _ & _ & ?).
  - intros Hunused. split_and!.
    + intros r Hr <-.
      by apply (elem_of_Removed _ _ _ _ _ Hd) in Hr as (_ & _ & ? & _).
    + intros c Hc <-.
      by apply (elem_of_Changed _ _ _ _ _ Hd) in Hc as (? & ? & _ & _ & _ & ? & _).
    + intros c Hc <-.
      by apply (elem_of_InterfaceChanges _ _ _ _ _ Hd) in Hc
        as (? & ? & _ & _ & _ & ? & _).
  - intros a Ha <- <-.
    by apply (elem_of_Added _ _ _ _ _ Hd) in Ha as [? _].
Qed.

Lemma C1_removed_iff_used_witness :
  diff_removed_F ∈ diffAPIs api_F empty_API (used ["F"]) ∧
  declares api_F "function" "F" ∧
  ¬ declares empty_API "function" "F" ∧
  (removed_F ∈ Removed diff_removed_F ↔ index_Symbols (used ["F"]) "F" ≠ []).
Proof.
  assert (diff_removed_F ∈ diffAPIs api_F empty_API (used ["F"])) as Hd
    by by_compute.
  assert (declares api_F "function" "F") as Hold by by_compute.
  assert (¬ declares empty_API "function" "F") as Hnew by by_compute.
  split_and!; try assumption.
  exact (proj1 (C1_removed_iff_used api_F empty_API (used ["F"]) diff_removed_F
                  "function" "F" Hd Hold Hnew)).
Defined.

(** C2.  A [ChangedSignature] entry for a name is in [Changed] if and only if
    the name is a key of both function maps, the two signature strings differ
    and the name has at least one usage location; the entry carries the old
    signature, the new signature and the usage locations.  A function whose
    signature string is the same in both surfaces never appears in [Changed],
    whatever its usage. *)
Theorem C2_changed_iff oldAPI newAPI usage d :
  d ∈ diffAPIs oldAPI newAPI usage →
  (∀ c, c ∈ Changed d ↔
     ∃ oldFunc newFunc,
       Funcs oldAPI !! ChangedSignature.Name c = Some oldFunc ∧
       Funcs newAPI !! ChangedSignature.Name c = Some newFunc ∧
       Signature oldFunc ≠ Signature newFunc ∧
       index_Symbols usage (ChangedSignature.Name c) ≠ [] ∧
       ChangedSignature.OldSignature c = Signature oldFunc ∧
       ChangedSignature.NewSignature c = Signature newFunc ∧
       ChangedSignature.UsedIn c = index_Symbols usage (ChangedSignature.Name c)) ∧
  (∀ name oldFunc newFunc,
     Funcs oldAPI !! name = Some oldFunc →
     Funcs newAPI !! name = Some newFunc →
     Signature oldFunc = Signature newFunc →
     ∀ c, c ∈ Changed d → ChangedSignature.Name c ≠ name).
Proof.
  intros Hd. split.
  - intros c. apply (elem_of_Changed _ _ _ _ _ Hd).
  - intros name oldFunc newFunc Hold Hnew Hsig c Hc <-.
    apply (elem_of_Changed _ _ _ _ _ Hd) in Hc
      as (oldFunc' & newFunc' & Hold' & Hnew' & Hne & _).
    congruence.
Qed.

Lemma C2_changed_iff_witness :
  diff_changed_F ∈ diffAPIs api_F api_F' (used ["F"]) ∧
  ∃ oldFunc newFunc,
    Funcs api_F !! "F" = Some oldFunc ∧ Funcs api_F' !! "F" = Some newFunc ∧
    Signature oldFunc ≠ Signature newFunc.
Proof.
  assert (diff_changed_F ∈ diffAPIs api_F api_F' (used ["F"])) as Hd by by_compute.
  split; [assumption|].
  destruct (proj1 (proj1 (C2_changed_iff api_F api_F' (used ["F"]) diff_changed_F Hd)
                     {| ChangedSignature.Name := "F";
                        ChangedSignature.OldSignature := "func() error";
                        ChangedSignature.NewSignature := "func(context.Context) error";
                        ChangedSignature.UsedIn := [loc_m_10] |})
                  (list_elem_of_here _ _))
    as (oldFunc & newFunc & Hold & Hnew & Hsig & _).
  exists oldFunc, newFunc. by split_and!.
Defined.

(** C3.  For an interface name present in both surfaces, an
    [InterfaceChange] is emitted if and only if the symmetric difference of
    the two method sets is not empty and the name has at least one usage
    location.  The method sets are sets of method signature strings
    ([methods_of]), so order and duplicates in the method lists do not count.
    In the emitted entry, [AddedMethods] lists exactly the methods of the new
    interface that the old one lacks, [RemovedMethods] exactly the methods of
    the old interface that the new one lacks, each once. *)
Theorem C3_interface_change_iff oldAPI newAPI usage d name oldIface newIface :
  d ∈ diffAPIs oldAPI newAPI usage →
  Interfaces oldAPI !! name = Some oldIface →
  Interfaces newAPI !! name = Some newIface →
  ((∃ c, c ∈ InterfaceChanges d ∧ InterfaceChange.Name c = name) ↔
     (methods_of newIface ∖ methods_of oldIface) ∪
     (methods_of oldIface ∖ methods_of newIface) ≠ ∅ ∧
     index_Symbols usage name ≠ []) ∧
  (∀ c, c ∈ InterfaceChanges d → InterfaceChange.Name c = name →
     list_to_set (InterfaceChange.AddedMethods c)
       = methods_of newIface ∖ methods_of oldIface ∧
     list_to_set (InterfaceChange.RemovedMethods c)
       = methods_of oldIface ∖ methods_of newIface ∧
     NoDup (InterfaceChange.AddedMethods c) ∧
     NoDup (InterfaceChange.RemovedMethods c) ∧
     InterfaceChange.UsedIn c = index_Symbols usage name).
Proof.
  intros Hd Hold Hnew.
  assert ((methods_of newIface ∖ methods_of oldIface) ∪
          (methods_of oldIface ∖ methods_of newIface) ≠ ∅
          ↔ methods_differ oldIface newIface) as Hsym.
  { unfold methods_differ. split.
    - intros Hne.
      destruct (decide (methods_of newIface ∖ methods_of oldIface = ∅))
        as [Hadd|Hadd]; [right|by left].
      intros Hrem. apply Hne. rewrite Hadd, Hrem. apply (left_id_L ∅ (∪)).
    - intros [H|H] [??]%empty_union_L; by apply H. }
  split.
  - rewrite Hsym. split.
    + intros (c & Hc & <-).
      apply (elem_of_InterfaceChanges _ _ _ _ _ Hd) in Hc
        as (oldIface' & newIface' & Hold' & Hnew' & ? & ? & _).
      by simplify_eq.
    + intros [??]. by eapply InterfaceChanges_complete.
  - intros c Hc <-.
    assert (methods_NoDup c) as [??].
    { apply diffAPIs_outcome in Hd as (t & Ht & ->).
      by eapply (proj1 (Forall_forall _ _)); [apply outcome_methods_NoDup|]. }
    apply (elem_of_InterfaceChanges _ _ _ _ _ Hd) in Hc
      as (oldIface' & newIface' & Hold' & Hnew' & _ & _ & ? & ? & _ & ?).
    by simplify_eq.
Qed.

Lemma C3_interface_change_iff_witness :
  diff_Handler_Close
    ∈ diffAPIs (api_Handler ["Handle() error"; "Close() error"])
               (api_Handler ["Handle() error"]) (used ["Handler"]) ∧
  ∃ c, c ∈ InterfaceChanges diff_Handler_Close ∧
       InterfaceChange.Name c = "Handler".
Proof.
  assert (diff_Handler_Close
    ∈ diffAPIs (api_Handler ["Handle() error"; "Close() error"])
               (api_Handler ["Handle() error"]) (used ["Handler"])) as Hd
    by by_compute.
  split; [assumption|].
  apply (proj1 (C3_interface_change_iff
    (api_Handler ["Handle() error"; "Close() error"])
    (api_Handler ["Handle() error"]) (used ["Handler"]) diff_Handler_Close
    "Handler" (mkIface "Handler" ["Handle() error"; "Close() error"])
    (mkIface "Handler" ["Handle() error"]) Hd eq_refl eq_refl)).
  split; by_compute.
Defined.

(** C4.  Diffing a surface against itself always returns a result, and in
    every result the four sequences are empty, whatever the usage index. *)
Theorem C4_self_diff_empty (S : API) (U : Usage) :
  (∃ d, d ∈ diffAPIs S S U) ∧
  (∀ d, d ∈ diffAPIs S S U →
     Removed d = [] ∧ Added d = [] ∧ Changed d = [] ∧ InterfaceChanges d = []).
Proof.
  split; [apply diffAPIs_total|].
  intros d Hd. split_and!; apply nil_if_no_elem.
  - intros r Hr. by apply (elem_of_Removed _ _ _ _ _ Hd) in Hr as (? & ? & _).
  - intros a Ha. by apply (elem_of_Added _ _ _ _ _ Hd) in Ha as (? & ?).
  - intros c Hc.
    apply (elem_of_Changed _ _ _ _ _ Hd) in Hc as (f & f' & Hf & Hf' & Hne & _).
    by simplify_eq.
  - intros c Hc.
    apply (elem_of_InterfaceChanges _ _ _ _ _ Hd) in Hc
      as (i & i' & Hi & Hi' & [Hdiff|Hdiff] & _);
      rewrite Hi in Hi'; injection Hi' as <-;
      apply Hdiff, difference_diag_L.
Qed.

(** C5.  [Added] holds an entry with a given name and kind if and only if
    the name is a key of the new surface's mapping of that kind and not a key
    of the old surface's; nothing else is in [Added].  The usage index plays
    no part: the results for any other usage index have the same [Added]
    entries. *)
Theorem C5_added_unfiltered oldAPI newAPI usage d :
  d ∈ diffAPIs oldAPI newAPI usage →
  (∀ a, a ∈ Added d ↔
     declares newAPI (AddedSymbol.Type' a) (AddedSymbol.Name a) ∧
     ¬ declares oldAPI (AddedSymbol.Type' a) (AddedSymbol.Name a)) ∧
  (∀ usage' d', d' ∈ diffAPIs oldAPI newAPI usage' → Added d' ≡ₚ Added d).
Proof.
  intros Hd. split.
  - intros a. apply (elem_of_Added _ _ _ _ _ Hd).
  - intros usage' d' Hd'. by eapply outcomes_Added_Permutation.
Qed.

Lemma C5_added_unfiltered_witness :
  diff_added_F_type ∈ diffAPIs api_F api_F_type no_usage ∧
  ({| AddedSymbol.Name := "F"; AddedSymbol.Type' := "type" |}
     ∈ Added diff_added_F_type ↔
   declares api_F_type "type" "F" ∧ ¬ declares api_F "type" "F").
Proof.
  assert (diff_added_F_type ∈ diffAPIs api_F api_F_type no_usage) as Hd
    by by_compute.
  split; [assumption|].
  exact (proj1 (C5_added_unfiltered api_F api_F_type no_usage diff_added_F_type Hd)
           {| AddedSymbol.Name := "F"; AddedSymbol.Type' := "type" |}).
Defined.

(** C6, counterexample.  With two used functions [A] and [B] removed, one run
    may report them as [A; B] and another run on the same inputs as [B; A]:
    the engine appends in the visiting order of the map and never sorts. *)
Lemma C6_order_depends_on_map_iteration :
  removed_in_order ["A"; "B"] ∈ diffAPIs api_A_B empty_API (used ["A"; "B"]) ∧
  removed_in_order ["B"; "A"] ∈ diffAPIs api_A_B empty_API (used ["A"; "B"]) ∧
  removed_in_order ["A"; "B"] ≠ removed_in_order ["B"; "A"].
Proof. split_and!; by_compute. Qed.

(** C6, as amended.  Two runs on equal inputs produce the same Diff up to
    the order of the elements: their [Removed], [Added] and [Changed]
    sequences are permutations of each other, and so are their
    [InterfaceChanges] once the [AddedMethods] and [RemovedMethods] of each
    entry are read as sets ([change_key]); these method lists never repeat a
    method.  The order itself is the visiting order of the maps. *)
Theorem C6_deterministic_up_to_order oldAPI newAPI usage d1 d2 :
  d1 ∈ diffAPIs oldAPI newAPI usage →
  d2 ∈ diffAPIs oldAPI newAPI usage →
  Removed d1 ≡ₚ Removed d2 ∧
  Added d1 ≡ₚ Added d2 ∧
  Changed d1 ≡ₚ Changed d2 ∧
  change_key <$> InterfaceChanges d1 ≡ₚ change_key <$> InterfaceChanges d2 ∧
  Forall methods_NoDup (InterfaceChanges d1) ∧
  Forall methods_NoDup (InterfaceChanges d2).
Proof.
  intros Hd1 Hd2. split_and!.
  - by eapply outcomes_Removed_Permutation.
  - by eapply outcomes_Added_Permutation.
  - by eapply outcomes_Changed_Permutation.
  - by eapply outcomes_change_keys_Permutation.
  - apply diffAPIs_outcome in Hd1 as (t & Ht & ->).
    by apply outcome_methods_NoDup.
  - apply diffAPIs_outcome in Hd2 as (t & Ht & ->).
    by apply outcome_methods_NoDup.
Qed.

Lemma C6_deterministic_up_to_order_witness :
  removed_in_order ["A"; "B"] ∈ diffAPIs api_A_B empty_API (used ["A"; "B"]) ∧
  removed_in_order ["B"; "A"] ∈ diffAPIs api_A_B empty_API (used ["A"; "B"]) ∧
  Removed (removed_in_order ["A"; "B"]) ≡ₚ Removed (removed_in_order ["B"; "A"]).
Proof.
  assert (removed_in_order ["A"; "B"]
            ∈ diffAPIs api_A_B empty_API (used ["A"; "B"])) as H1 by by_compute.
  assert (removed_in_order ["B"; "A"]
            ∈ diffAPIs api_A_B empty_API (used ["A"; "B"])) as H2 by by_compute.
  split_and!; try assumption.
  exact (proj1 (C6_deterministic_up_to_order api_A_B empty_API (used ["A"; "B"])
                  _ _ H1 H2)).
Defined.

(** * The audit result: the properties *)

(** C7, counterexample.  A Result whose [Changes] pointer is nil has no
    warnings, although its list of unused dependencies is not empty: both
    predicates return false on a nil [Changes] before they look at
    anything else. *)
Lemma C7_nil_changes_hides_unused_deps :
  Changes result_nil_changes = None ∧
  (0 < length (UnusedDeps result_nil_changes))%nat ∧
  HasWarnings result_nil_changes = false.
Proof. split_and!; [reflexivity | simpl; lia | reflexivity]. Qed.

(** C7, as amended.  On a Result whose [Changes] is not nil,
    [HasBreakingChanges] is true if and only if [Removed], [Changed] or
    [InterfaceChanges] is not empty, and [HasWarnings] is true if and only if
    [Added] or the unused-dependency list is not empty; so a Result with an
    empty Diff and a non-empty unused-dependency list has no breaking change
    and has warnings.  On a Result whose [Changes] is nil both predicates are
    false. *)
Theorem C7_predicates (r : Result) :
  match Changes r with
  | Some changes =>
      (HasBreakingChanges r = true ↔
         (0 < length (Removed changes) ∨ 0 < length (Changed changes) ∨
          0 < length (InterfaceChanges changes))%nat) ∧
      (HasWarnings r = true ↔
         (0 < length (Added changes) ∨ 0 < length (UnusedDeps r))%nat) ∧
      (changes = empty_Diff → (0 < length (UnusedDeps r))%nat →
         HasBreakingChanges r = false ∧ HasWarnings r = true)
  | None => HasBreakingChanges r = false ∧ HasWarnings r = false
  end.
Proof.
  unfold HasBreakingChanges, HasWarnings.
  destruct (Changes r) as [changes|]; [|done].
  split_and!.
  - rewrite !orb_true_iff, !bool_decide_eq_true. tauto.
  - rewrite !orb_true_iff, !bool_decide_eq_true. tauto.
  - intros -> Hdeps. split; [done|].
    rewrite orb_true_iff, !bool_decide_eq_true. by right.
Qed.

(** C10.  [determineExitCode] returns 1 when the result has breaking
    changes; otherwise 1 when strict mode is on and the result has warnings;
    otherwise 0.  It returns nothing but 0 and 1, and two results on which
    [HasBreakingChanges] and [HasWarnings] agree get the same exit code. *)
Theorem C10_determineExitCode (r : Result) (strict : bool) :
  (HasBreakingChanges r = true → determineExitCode r strict = 1) ∧
  (HasBreakingChanges r = false → strict = true → HasWarnings r = true →
     determineExitCode r strict = 1) ∧
  (HasBreakingChanges r = false → strict = false ∨ HasWarnings r = false →
     determineExitCode r strict = 0) ∧
  (determineExitCode r strict = 0 ∨ determineExitCode r strict = 1) ∧
  (∀ r', HasBreakingChanges r' = HasBreakingChanges r →
         HasWarnings r' = HasWarnings r →
         determineExitCode r' strict = determineExitCode r strict).
Proof.
  unfold determineExitCode. split_and!.
  - by intros ->.
  - by intros -> -> ->.
  - intros -> [-> | ->]; [done | by destruct strict].
  - destruct (HasBreakingChanges r), strict, (HasWarnings r); auto.
  - by intros r' -> ->.
Qed.

(** * The upgrade specification: the properties *)

Lemma Split_nonempty sep s : Split sep s ≠ [].
Proof.
  destruct s as [|c s]; simpl; [done|].
  case_decide; [done|]. by destruct (Split sep s).
Qed.

Lemma Join_cons sep part parts :
  parts ≠ [] → Join sep (part :: parts) = part +:+ String sep (Join sep parts).
Proof. by destruct parts. Qed.

Lemma Join_Split sep s : Join sep (Split sep s) = s.
Proof.
  induction s as [|c s IH]; simpl; [done|].
  case_decide as Hc.
  - rewrite Join_cons by apply Split_nonempty. simpl. by rewrite IH, Hc.
  - pose proof (Split_nonempty sep s) as Hne.
    destruct (Split sep s) as [|part parts]; [done|].
    destruct parts as [|part' parts].
    + simpl in *. by rewrite IH.
    + rewrite Join_cons in IH by done. rewrite Join_cons by done.
      by rewrite <- IH.
Qed.

Lemma Count_Split sep s : Forall (λ part, Count sep part = 0%nat) (Split sep s).
Proof.
  induction s as [|c s IH]; simpl.
  - by repeat constructor.
  - case_decide as Hc; [by constructor|].
    destruct (Split sep s) as [|part parts].
    + repeat constructor. simpl. by rewrite decide_False.
    + apply Forall_cons in IH as [Hpart Hparts].
      constructor; [|done]. simpl. by rewrite decide_False.
Qed.

Lemma Split_app_sep sep part rest :
  Count sep part = 0%nat →
  Split sep (part +:+ String sep rest) = part :: Split sep rest.
Proof.
  induction part as [|c part IH]; simpl.
  - intros _. by rewrite decide_True.
  - case_decide; [done|]. intros Hpart. by rewrite IH.
Qed.

Lemma Split_no_sep sep part : Count sep part = 0%nat → Split sep part = [part].
Proof.
  induction part as [|c part IH]; simpl; [done|].
  case_decide; [done|]. intros Hpart. by rewrite IH.
Qed.

Lemma Split_Join sep parts :
  parts ≠ [] → Forall (λ part, Count sep part = 0%nat) parts →
  Split sep (Join sep parts) = parts.
Proof.
  intros Hne Hparts.
  induction Hparts as [|part parts Hpart _ IH]; [done|].
  destruct parts as [|part' parts].
  - by apply Split_no_sep.
  - rewrite Join_cons by done. rewrite Split_app_sep by done.
    by rewrite IH.
Qed.

Lemma module_at_version_Split TrimSpace spec a b :
  module_at_version TrimSpace spec a b → Split "@" spec = [a; b].
Proof.
  intros (-> & Ha & Hb & _). rewrite Split_app_sep by done.
  by rewrite Split_no_sep.
Qed.

Lemma Split_two_inv spec a b :
  Split "@" spec = [a; b] →
  spec = a +:+ String "@" b ∧ Count "@" a = 0%nat ∧ Count "@" b = 0%nat.
Proof.
  intros Hsplit.
  pose proof (Join_Split "@" spec) as Hjoin.
  pose proof (Count_Split "@" spec) as Hcount.
  rewrite Hsplit in Hjoin, Hcount.
  apply Forall_cons in Hcount as [Ha Hb]. apply Forall_cons in Hb as [Hb _].
  by rewrite <- Hjoin.
Qed.

(** C8.  [ParseUpgrade] succeeds exactly on the strings made of two
    components separated by a single ["@"], both non-empty once trimmed; it
    then returns the trimmed components as [Module] and [NewVersion] (and an
    empty [OldVersion]).  On any other string it returns a [ParseError] that
    holds the string; [run] then returns that error, wrapped, without calling
    the analyzer or a formatter and without writing anything. *)
Theorem C8_ParseUpgrade (TrimSpace : string → string) (spec : string) :
  match ParseUpgrade TrimSpace spec with
  | Ok u =>
      ∃ a b, module_at_version TrimSpace spec a b ∧
        u = {| Module_ := TrimSpace a; OldVersion := "";
               NewVersion := TrimSpace b |}
  | Err e =>
      e = {| Spec := spec |} ∧
      (¬ ∃ a b, module_at_version TrimSpace spec a b) ∧
      (∀ Analyzer New Analyze FindUnusedDependencies FormatJSON FormatText cfg,
         upgrade cfg = spec →
         run TrimSpace Analyzer New Analyze FindUnusedDependencies
             FormatJSON FormatText cfg
         = ([], Err (Errorf "invalid upgrade specification: "
                            (error_ParseError e))))
  end.
Proof.
  destruct (ParseUpgrade TrimSpace spec) as [u|e] eqn:Hparse.
  - unfold ParseUpgrade in Hparse.
    case_decide as Hlen; [done|]. case_decide as Hblank; [done|].
    destruct (Split "@" spec) as [|a [|b [|??]]] eqn:Hsplit;
      try (simpl in Hlen; lia).
    simpl in Hparse, Hblank. injection Hparse as <-.
    apply Split_two_inv in Hsplit as (? & ? & ?).
    exists a, b. split; [|done].
    split_and!; try done; intros ?; apply Hblank; auto.
  - assert (e = {| Spec := spec |}) as ->.
    { unfold ParseUpgrade in Hparse. repeat case_decide; congruence. }
    split_and!; [done| |].
    + intros (a & b & Hwf).
      pose proof (module_at_version_Split _ _ _ _ Hwf) as Hsplit.
      destruct Hwf as (_ & _ & _ & Ha & Hb).
      unfold ParseUpgrade in Hparse. rewrite Hsplit in Hparse. simpl in Hparse.
      rewrite decide_False in Hparse by (intros [?|?]; done). done.
    + intros Analyzer New Analyze FindUnused FormatJSON FormatText cfg Hcfg.
      unfold run. by rewrite Hcfg, Hparse.
Qed.

(** * The driver: the properties *)

Lemma io_bind_Ok {A B} (events : list event) (x : A) (k : A → io B) :
  (events, Ok x) ≫= k = (events ++ (k x).1, (k x).2).
Proof. done. Qed.

Lemma report_and_exit_error FormatJSON FormatText cfg result :
  (report_and_exit FormatJSON FormatText cfg result).2 = Ok tt ∨
  ∃ e, (report_and_exit FormatJSON FormatText cfg result).2
         = Err (Errorf "failed to generate report: " e) ∧
       (if jsonOutput cfg then FormatJSON result
        else FormatText result (verbose cfg)) = Err e.
Proof.
  unfold report_and_exit.
  destruct (jsonOutput cfg).
  - destruct (FormatJSON result) as [output|e] eqn:Hfmt.
    + left. unfold call, or_return; simpl. by case_decide.
    + right. exists e. by unfold call, or_return, mbind, io_bind.
  - destruct (FormatText result (verbose cfg)) as [output|e] eqn:Hfmt.
    + left. unfold call, or_return; simpl. by case_decide.
    + right. exists e. by unfold call, or_return, mbind, io_bind.
Qed.

(** C9, counterexample.  With the unused flag set and verbose mode off, a
    failing [FindUnusedDependencies] leaves no trace: [run] writes the report
    and nothing else, no warning reaches the error stream. *)
Lemma C9_unused_failure_silent_unless_verbose :
  unused (cfg_unused false) = true ∧
  (stub_FindUnused_boom tt).2 = ([], Some (error_other "boom")) ∧
  stub_run (cfg_unused false) =
  ([ Call_New "."; Call_Analyze upgrade_v1_2_0; Call_FindUnusedDependencies;
     Call_FormatText result_no_changes false; Stdout "ok" ],
   Ok tt).
Proof. split_and!; [reflexivity | reflexivity | vm_compute; reflexivity]. Qed.

(** C9, as amended.  With the unused flag set, when [Analyze] succeeded and
    [FindUnusedDependencies] then fails, [run] goes on to the report: the
    result it reports has the [Changes] of the analysis, and the only error
    [run] can still return is a formatter's, wrapped.  The failure is written
    to the error stream as a warning when verbose mode is on; when it is off
    nothing is written about it. *)
Theorem C9_unused_failure_not_fatal
    TrimSpace Analyzer New Analyze FindUnusedDependencies FormatJSON FormatText
    cfg u a result deps err :
  unused cfg = true →
  ParseUpgrade TrimSpace (upgrade cfg) = Ok u →
  New (projectPath cfg) = Ok a →
  (Analyze a u).2 = Ok result →
  (FindUnusedDependencies (Analyze a u).1).2 = (deps, Some err) →
  ∃ result',
    Changes result' = Changes result ∧
    run TrimSpace Analyzer New Analyze FindUnusedDependencies
        FormatJSON FormatText cfg
    = (verbose_log cfg u ++
       [Call_New (projectPath cfg); Call_Analyze u; Call_FindUnusedDependencies] ++
       (if verbose cfg then [Stderr (unused_warning err)] else []) ++
       (report_and_exit FormatJSON FormatText cfg result').1,
       (report_and_exit FormatJSON FormatText cfg result').2) ∧
    ((report_and_exit FormatJSON FormatText cfg result').2 = Ok tt ∨
     ∃ e, (report_and_exit FormatJSON FormatText cfg result').2
            = Err (Errorf "failed to generate report: " e) ∧
          (if jsonOutput cfg then FormatJSON result'
           else FormatText result' (verbose cfg)) = Err e).
Proof.
  intros Hunused Hparse Hnew Hanalyze Hfind.
  exists (if verbose cfg then result else set_UnusedDeps result deps).
  split; [by destruct (verbose cfg)|].
  split; [|apply report_and_exit_error].
  unfold run, unused_pass.
  unfold mbind, io_bind, or_return, call, emit, mret, io_ret.
  rewrite Hparse; cbn [fst snd].
  rewrite Hnew; cbn [fst snd].
  rewrite Hanalyze; cbn [fst snd].
  rewrite Hunused, Hfind; cbn [fst snd].
  destruct (verbose cfg); cbn [fst snd app]; by rewrite ?app_nil_r.
Qed.

Lemma C9_unused_failure_not_fatal_witness :
  unused (cfg_unused true) = true ∧
  ParseUpgrade TrimSpace_ascii (upgrade (cfg_unused true)) = Ok upgrade_v1_2_0 ∧
  (stub_FindUnused_boom tt).2 = ([], Some (error_other "boom")) ∧
  ∃ result',
    Changes result' = Changes result_no_changes ∧
    stub_run (cfg_unused true)
    = (verbose_log (cfg_unused true) upgrade_v1_2_0 ++
       [Call_New "."; Call_Analyze upgrade_v1_2_0; Call_FindUnusedDependencies] ++
       [Stderr (unused_warning (error_other "boom"))] ++
       (report_and_exit stub_FormatJSON stub_FormatText (cfg_unused true) result').1,
       (report_and_exit stub_FormatJSON stub_FormatText (cfg_unused true) result').2).
Proof.
  assert (ParseUpgrade TrimSpace_ascii (upgrade (cfg_unused true))
          = Ok upgrade_v1_2_0) as Hparse by (vm_compute; reflexivity).
  split_and!; [reflexivity | exact Hparse | reflexivity |].
  destruct (C9_unused_failure_not_fatal TrimSpace_ascii unit stub_New stub_Analyze
              stub_FindUnused_boom stub_FormatJSON stub_FormatText
              (cfg_unused true) upgrade_v1_2_0 tt result_no_changes []
              (error_other "boom") eq_refl Hparse eq_refl eq_refl eq_refl)
    as (result' & Hchanges & Hrun & _).
  exists result'. split; [exact Hchanges | exact Hrun].
Defined.

(** * The report formatters: lemmas and properties *)

Example formatLocations_single :
  report.formatLocations [ {| File := "main.go"; Line := 10 |} ] 3 = "main.go:10".
Proof. vm_compute. reflexivity. Qed.

Example formatLocations_over_max :
  report.formatLocations
    [ {| File := "main.go"; Line := 10 |}; {| File := "handler.go"; Line := 25 |};
      {| File := "config.go"; Line := 5 |}; {| File := "util.go"; Line := 100 |} ] 2
  = "main.go:10, handler.go:25, and 2 more".
Proof. vm_compute. reflexivity. Qed.

Lemma len_nil {A} : report.len (@nil A) = 0.
Proof. done. Qed.

Lemma len_cons {A} (x : A) l : report.len (x :: l) = 1 + report.len l.
Proof. unfold report.len. simpl length. lia. Qed.

Lemma len_app {A} (l k : list A) : report.len (l ++ k) = report.len l + report.len k.
Proof. unfold report.len. rewrite length_app. lia. Qed.

Lemma len_nonneg {A} (l : list A) : (0 ≤ report.len l)%Z.
Proof. unfold report.len. lia. Qed.

Lemma len_zero {A} (l : list A) : report.len l = 0 ↔ l = [].
Proof. destruct l; [done|]. rewrite len_cons. pose proof (len_nonneg l). split; [lia|done]. Qed.

Lemma formatLocations_parts_all n max i locations :
  (report.len locations ≤ max - i)%Z →
  report.formatLocations_parts n max i locations = location_text <$> locations.
Proof.
  revert i. induction locations as [|loc locations IH]; intros i Hlen; [done|].
  rewrite len_cons in Hlen. pose proof (len_nonneg locations).
  simpl. rewrite decide_False by lia.
  rewrite IH by lia. done.
Qed.


(** X1.  [formatLocations] lists every location, as ["file:line"] joined by
    [", "], when there are at most [max] of them; the empty list gives the
    empty string. *)
Theorem X1_formatLocations_all locations max :
  (report.len locations ≤ max)%Z →
  report.formatLocations locations max
  = report.strings_Join (location_text <$> locations) ", ".
Proof.
  intros Hlen. unfold report.formatLocations.
  case_decide as Hempty.
  - by apply len_zero in Hempty as ->.
  - rewrite formatLocations_parts_all by lia. done.
Qed.

Lemma X1_formatLocations_all_witness :
  (report.len [ {| File := "main.go"; Line := 10 |};
                {| File := "handler.go"; Line := 25 |} ] ≤ 3)%Z ∧
  report.formatLocations [ {| File := "main.go"; Line := 10 |};
                           {| File := "handler.go"; Line := 25 |} ] 3
  = "main.go:10, handler.go:25".
Proof.
  assert (report.len [ {| File := "main.go"; Line := 10 |};
                       {| File := "handler.go"; Line := 25 |} ] ≤ 3)%Z as Hlen
    by (vm_compute; discriminate).
  split; [exact Hlen|].
  exact (X1_formatLocations_all _ 3 Hlen).
Defined.



Lemma foldl_add_len {A B} (f : A → list B) (l : list A) (count : Z) :
  foldl (λ count x, count + report.len (f x)) count l
  = count + report.len (l ≫= f).
Proof.
  revert count. induction l as [|x l IH]; intros count; cbn [foldl].
  - change ([] ≫= f) with (@nil B). rewrite len_nil. lia.
  - rewrite IH, bind_cons, len_app. lia.
Qed.

Lemma countAffectedLocations_bind d :
  report.countAffectedLocations d
  = report.len (Removed d ≫= RemovedSymbol.UsedIn) +
    report.len (Changed d ≫= ChangedSignature.UsedIn) +
    report.len (InterfaceChanges d ≫= InterfaceChange.UsedIn).
Proof.
  unfold report.countAffectedLocations. rewrite !foldl_add_len. lia.
Qed.

Lemma len_bind_ge {A B} (f : A → list B) (l : list A) :
  Forall (λ x, f x ≠ []) l → (report.len l ≤ report.len (l ≫= f))%Z.
Proof.
  induction 1 as [|x l Hx _ IH]; [done|].
  rewrite bind_cons, len_app, len_cons.
  destruct (f x) as [|y ys]; [done|]. rewrite len_cons.
  pose proof (len_nonneg ys). lia.
Qed.

Lemma len_Permutation {A} (l k : list A) : l ≡ₚ k → report.len l = report.len k.
Proof. intros H. unfold report.len. by rewrite H. Qed.

Lemma diffAPIs_all_located oldAPI newAPI usage d :
  d ∈ diffAPIs oldAPI newAPI usage → all_located d.
Proof.
  intros Hd. split_and!; apply Forall_forall.
  - intros r Hr.
    apply (elem_of_Removed _ _ _ _ _ Hd) in Hr as (_ & _ & Hused & ->). done.
  - intros c Hc.
    apply (elem_of_Changed _ _ _ _ _ Hd) in Hc
      as (? & ? & _ & _ & _ & Hused & _ & _ & ->). done.
  - intros c Hc.
    apply (elem_of_InterfaceChanges _ _ _ _ _ Hd) in Hc
      as (? & ? & _ & _ & _ & Hused & _ & _ & _ & ->). done.
Qed.

Lemma all_located_count d :
  all_located d → (breaking_count d ≤ report.countAffectedLocations d)%Z.
Proof.
  intros (HR & HC & HI). rewrite countAffectedLocations_bind.
  unfold breaking_count.
  pose proof (len_bind_ge _ _ HR). pose proof (len_bind_ge _ _ HC).
  pose proof (len_bind_ge _ _ HI). lia.
Qed.

(** X3.  In every Diff the engine returns, each breaking entry lists at
    least one location: the number of affected locations that the reports
    print is at least the number of breaking changes, and it is zero exactly
    when there is no breaking change. *)
Theorem X3_countAffectedLocations_engine oldAPI newAPI usage d :
  d ∈ diffAPIs oldAPI newAPI usage →
  all_located d ∧
  (breaking_count d ≤ report.countAffectedLocations d)%Z ∧
  (report.countAffectedLocations d = 0 ↔ breaking_count d = 0).
Proof.
  intros Hd. pose proof (diffAPIs_all_located _ _ _ _ Hd) as Hloc.
  pose proof (all_located_count _ Hloc) as Hle.
  split_and!; [done..|].
  assert (0 ≤ breaking_count d)%Z as Hb.
  { unfold breaking_count.
    pose proof (len_nonneg (Removed d)). pose proof (len_nonneg (Changed d)).
    pose proof (len_nonneg (InterfaceChanges d)). lia. }
  split; [lia|]. intros Hzero.
  unfold breaking_count in Hzero.
  pose proof (len_nonneg (Removed d)). pose proof (len_nonneg (Changed d)).
  pose proof (len_nonneg (InterfaceChanges d)).
  assert (Removed d = []) as HR by (apply len_zero; lia).
  assert (Changed d = []) as HC by (apply len_zero; lia).
  assert (InterfaceChanges d = []) as HI by (apply len_zero; lia).
  rewrite countAffectedLocations_bind, HR, HC, HI. done.
Qed.

Lemma X3_countAffectedLocations_engine_witness :
  diff_removed_F ∈ diffAPIs api_F empty_API (used ["F"]) ∧
  (breaking_count diff_removed_F ≤ report.countAffectedLocations diff_removed_F)%Z.
Proof.
  assert (diff_removed_F ∈ diffAPIs api_F empty_API (used ["F"])) as Hd
    by by_compute.
  split; [exact Hd|].
  exact (proj1 (proj2 (X3_countAffectedLocations_engine _ _ _ _ Hd))).
Defined.

(** X4.  The two numbers of the summary line, the number of breaking changes
    and the number of affected locations, are the same for every run of the
    engine on the same inputs, whatever the visiting order of the maps. *)
Theorem X4_summary_counts_stable oldAPI newAPI usage d1 d2 :
  d1 ∈ diffAPIs oldAPI newAPI usage →
  d2 ∈ diffAPIs oldAPI newAPI usage →
  breaking_count d1 = breaking_count d2 ∧
  report.countAffectedLocations d1 = report.countAffectedLocations d2.
Proof.
  intros Hd1 Hd2.
  pose proof (outcomes_Removed_Permutation _ _ _ _ _ Hd1 Hd2) as HR.
  pose proof (outcomes_Changed_Permutation _ _ _ _ _ Hd1 Hd2) as HC.
  pose proof (outcomes_change_keys_Permutation _ _ _ _ _ Hd1 Hd2) as HK.
  assert (∀ d, InterfaceChanges d ≫= InterfaceChange.UsedIn
               = (change_key <$> InterfaceChanges d) ≫= snd) as Hkey.
  { intros d. by rewrite list_fmap_bind. }
  split.
  - unfold breaking_count.
    rewrite (len_Permutation _ _ HR), (len_Permutation _ _ HC).
    assert (report.len (InterfaceChanges d1) = report.len (InterfaceChanges d2))
      as ->; [|done].
    pose proof (Permutation_length HK) as Hlen.
    rewrite !length_fmap in Hlen. unfold report.len. by rewrite Hlen.
  - rewrite !countAffectedLocations_bind, !Hkey.
    by rewrite (len_Permutation _ _ (bind_Permutation _ _ _ HR)),
      (len_Permutation _ _ (bind_Permutation _ _ _ HC)),
      (len_Permutation _ _ (bind_Permutation _ _ _ HK)).
Qed.

Lemma X4_summary_counts_stable_witness :
  removed_in_order ["A"; "B"] ∈ diffAPIs api_A_B empty_API (used ["A"; "B"]) ∧
  removed_in_order ["B"; "A"] ∈ diffAPIs api_A_B empty_API (used ["A"; "B"]) ∧
  report.countAffectedLocations (removed_in_order ["A"; "B"])
  = report.countAffectedLocations (removed_in_order ["B"; "A"]).
Proof.
  assert (removed_in_order ["A"; "B"]
            ∈ diffAPIs api_A_B empty_API (used ["A"; "B"])) as H1 by by_compute.
  assert (removed_in_order ["B"; "A"]
            ∈ diffAPIs api_A_B empty_API (used ["A"; "B"])) as H2 by by_compute.
  split_and!; [exact H1 | exact H2 |].
  exact (proj2 (X4_summary_counts_stable _ _ _ _ _ H1 H2)).
Defined.

Lemma foldl_append_located {A} (usedIn : A → list Location) (text : A → string)
    (l : list A) (fixes : list string) :
  foldl (λ fixes x, if decide (report.len (usedIn x) = 0) then fixes
                    else fixes ++ [text x]) fixes l
  = fixes ++ (text <$> filter (λ x, usedIn x ≠ []) l).
Proof.
  revert fixes. induction l as [|x l IH]; intros fixes; cbn [foldl].
  - by rewrite app_nil_r.
  - rewrite IH, filter_cons. destruct (decide (report.len (usedIn x) = 0)) as [Hx|Hx].
    + apply len_zero in Hx. by rewrite decide_False by (by intros []).
    + rewrite decide_True by (by rewrite <- len_zero).
      by rewrite <- app_assoc.
Qed.

Lemma summarizeFixes_all changes :
  ∃ fixes, report.len fixes = located_count changes ∧
    ∀ max, report.summarizeFixes changes max
           = if decide (max < report.len fixes)%Z
             then report.slice_to fixes max else Some fixes.
Proof.
  unfold report.summarizeFixes. rewrite !foldl_append_located.
  eexists. split; [|done].
  unfold located_count. rewrite !len_app. unfold report.len.
  rewrite !length_fmap. simpl. lia.
Qed.

Lemma filter_Forall_id {A} (P : A → Prop) `{∀ x, Decision (P x)} (l : list A) :
  Forall P l → filter P l = l.
Proof.
  induction 1 as [|x l Hx _ IH]; [done|].
  by rewrite filter_cons, decide_True, IH.
Qed.

Lemma all_located_located_count d :
  all_located d → located_count d = breaking_count d.
Proof.
  intros (HR & HC & HI). unfold located_count, breaking_count.
  by rewrite !filter_Forall_id.
Qed.

(** X5.  [summarizeFixes] panics exactly when [max] is negative.  Otherwise
    it returns one fix per breaking entry that lists a location, cut to the
    first [max]: it returns [min(max, n)] fixes, where [n] is the number of
    such entries, and a smaller [max] gives a prefix of what a larger one
    gives. *)
Theorem X5_summarizeFixes changes max :
  (report.summarizeFixes changes max = None ↔ (max < 0)%Z) ∧
  ((0 ≤ max)%Z →
     ∃ fixes, report.summarizeFixes changes max = Some fixes ∧
       report.len fixes = Z.min max (located_count changes)) ∧
  (∀ max', (0 ≤ max ≤ max')%Z →
     report.summarizeFixes changes max
     = take (Z.to_nat max) <$> report.summarizeFixes changes max').
Proof.
  destruct (summarizeFixes_all changes) as (fixes & Hlen & Hfix).
  pose proof (len_nonneg fixes) as Hnn.
  split_and!.
  - rewrite Hfix. unfold report.slice_to. repeat case_decide; split; (done || lia).
  - intros Hmax. rewrite Hfix. unfold report.slice_to.
    destruct (decide (max < report.len fixes)%Z) as [Hlt|Hge].
    + rewrite decide_True by done. eexists. split; [done|].
      unfold report.len in *. rewrite length_take. lia.
    + exists fixes. split; [done|]. lia.
  - intros max' [Hmax Hle]. rewrite !Hfix. unfold report.slice_to.
    destruct (decide (max < report.len fixes)%Z) as [Hlt|Hge].
    + rewrite decide_True by done.
      destruct (decide (max' < report.len fixes)%Z) as [Hlt'|Hge'].
      * rewrite decide_True by lia. simpl. f_equal.
        rewrite take_take. f_equal. lia.
      * done.
    + rewrite (decide_False (P := (max' < report.len fixes)%Z)) by lia.
      simpl. f_equal. rewrite take_ge; [done|]. unfold report.len in *. lia.
Qed.

(** X6.  On a Diff the engine returns, [summarizeFixes] lists a fix for every
    breaking entry up to [max]: with the [max] of 3 that [FormatText] passes,
    the "What to fix next" list is empty only when nothing is breaking. *)
Theorem X6_summarizeFixes_engine oldAPI newAPI usage d max :
  d ∈ diffAPIs oldAPI newAPI usage →
  (0 ≤ max)%Z →
  ∃ fixes, report.summarizeFixes d max = Some fixes ∧
    report.len fixes = Z.min max (breaking_count d).
Proof.
  intros Hd Hmax.
  destruct (summarizeFixes_all d) as (fixes & Hlen & Hfix).
  rewrite (all_located_located_count d) in Hlen
    by (by eapply diffAPIs_all_located).
  rewrite Hfix. unfold report.slice_to.
  destruct (decide (max < report.len fixes)%Z) as [Hlt|Hge].
  - rewrite decide_True by done. eexists. split; [done|].
    unfold report.len in *. rewrite length_take. lia.
  - exists fixes. split; [done|]. lia.
Qed.

Lemma X6_summarizeFixes_engine_witness :
  diff_removed_F ∈ diffAPIs api_F empty_API (used ["F"]) ∧ (0 ≤ 3)%Z ∧
  ∃ fixes, report.summarizeFixes diff_removed_F 3 = Some fixes ∧
    report.len fixes = Z.min 3 (breaking_count diff_removed_F).
Proof.
  assert (diff_removed_F ∈ diffAPIs api_F empty_API (used ["F"])) as Hd
    by by_compute.
  assert (0 ≤ 3)%Z as H3 by (vm_compute; discriminate).
  split_and!; [exact Hd | exact H3 |].
  exact (X6_summarizeFixes_engine _ _ _ _ 3 Hd H3).
Defined.

Lemma self_diff_is_empty S U d : d ∈ diffAPIs S S U → d = empty_Diff.
Proof.
  intros Hd. destruct d as [R A C I]. unfold empty_Diff.
  f_equal; apply nil_if_no_elem.
  - intros r Hr. by apply (elem_of_Removed _ _ _ _ _ Hd) in Hr as (? & ? & _).
  - intros a Ha. by apply (elem_of_Added _ _ _ _ _ Hd) in Ha as (? & ?).
  - intros c Hc.
    apply (elem_of_Changed _ _ _ _ _ Hd) in Hc as (f & f' & Hf & Hf' & Hne & _).
    by simplify_eq.
  - intros c Hc.
    apply (elem_of_InterfaceChanges _ _ _ _ _ Hd) in Hc
      as (i & i' & Hi & Hi' & [Hdiff|Hdiff] & _);
      rewrite Hi in Hi'; injection Hi' as <-;
      apply Hdiff, difference_diag_L.
Qed.

(** X7.  The text report of an audit whose two surfaces are the same: the
    header, the line "No breaking changes detected." and the list of unused
    dependencies, if any; nothing else, in verbose mode or not.  Its exit
    code is 1 only in strict mode with unused dependencies. *)
Theorem X7_report_of_unchanged_surface S U d module oldVersion newVersion deps
    verbose strict :
  d ∈ diffAPIs S S U →
  let result := {| Result_Module := module; Result_OldVersion := oldVersion;
                   Result_NewVersion := newVersion; Changes := Some d;
                   UnusedDeps := deps |} in
  report.FormatText result verbose
  = Some (report.write_unused deps
            (report_header module oldVersion newVersion +:+
             report.no_breaking_banner)) ∧
  determineExitCode result strict
  = (if strict && bool_decide (deps ≠ []) then 1 else 0).
Proof.
  intros ->%self_diff_is_empty result. split.
  - unfold report.FormatText, result. simpl.
    unfold report.write_added. by rewrite andb_false_r.
  - unfold determineExitCode, HasBreakingChanges, HasWarnings, result; simpl.
    destruct strict; [|done]. destruct deps; done.
Qed.

Lemma X7_report_of_unchanged_surface_witness :
  empty_Diff ∈ diffAPIs api_F api_F (used ["F"]) ∧
  report.FormatText
    {| Result_Module := "example.com/mod"; Result_OldVersion := "v1.0.0";
       Result_NewVersion := "v1.0.0"; Changes := Some empty_Diff;
       UnusedDeps := [] |} false
  = Some (report.write_unused []
            (report_header "example.com/mod" "v1.0.0" "v1.0.0" +:+
             report.no_breaking_banner)).
Proof.
  assert (empty_Diff ∈ diffAPIs api_F api_F (used ["F"])) as Hd by by_compute.
  split; [exact Hd|].
  exact (proj1 (X7_report_of_unchanged_surface api_F (used ["F"]) empty_Diff
                  "example.com/mod" "v1.0.0" "v1.0.0" [] false false Hd)).
Defined.

(** X8.  In non-verbose mode the text report never shows the added symbols:
    two results that differ in their [Added] sequences only get the same
    text. *)
Theorem X8_FormatText_hides_Added result result' d d' :
  Changes result = Some d → Changes result' = Some d' →
  Result_Module result = Result_Module result' →
  Result_OldVersion result = Result_OldVersion result' →
  Result_NewVersion result = Result_NewVersion result' →
  UnusedDeps result = UnusedDeps result' →
  Removed d = Removed d' → Changed d = Changed d' →
  InterfaceChanges d = InterfaceChanges d' →
  report.FormatText result false = report.FormatText result' false.
Proof.
  intros Hd Hd' Hm Ho Hn Hu HR HC HI.
  unfold report.FormatText, HasBreakingChanges.
  rewrite Hd, Hd'. simpl.
  unfold report.summarizeFixes, report.countAffectedLocations,
    report.write_removed, report.write_changed, report.write_interfaces,
    report.write_added.
  by rewrite Hm, Ho, Hn, Hu, HR, HC, HI.
Qed.

Lemma X8_FormatText_hides_Added_witness :
  report.FormatText
    {| Result_Module := "m"; Result_OldVersion := "v1"; Result_NewVersion := "v2";
       Changes := Some diff_added_F_type; UnusedDeps := [] |} false
  = report.FormatText
    {| Result_Module := "m"; Result_OldVersion := "v1"; Result_NewVersion := "v2";
       Changes := Some empty_Diff; UnusedDeps := [] |} false.
Proof.
  exact (X8_FormatText_hides_Added
    {| Result_Module := "m"; Result_OldVersion := "v1"; Result_NewVersion := "v2";
       Changes := Some diff_added_F_type; UnusedDeps := [] |}
    {| Result_Module := "m"; Result_OldVersion := "v1"; Result_NewVersion := "v2";
       Changes := Some empty_Diff; UnusedDeps := [] |}
    diff_added_F_type empty_Diff
    eq_refl eq_refl eq_refl eq_refl eq_refl eq_refl eq_refl eq_refl eq_refl).
Defined.

Lemma foldl_snoc_fmap {A B} (f : A → B) (l : list A) (items : list B) :
  foldl (λ items x, items ++ [f x]) items l = items ++ (f <$> l).
Proof.
  revert items. induction l as [|x l IH]; intros items; cbn [foldl].
  - by rewrite app_nil_r.
  - rewrite IH. by rewrite <- app_assoc.
Qed.

Lemma HasBreakingChanges_breaking_count result d :
  Changes result = Some d →
  HasBreakingChanges result = true ↔ (0 < breaking_count d)%Z.
Proof.
  intros Hd. unfold HasBreakingChanges, breaking_count, report.len. rewrite Hd.
  rewrite !orb_true_iff, !bool_decide_eq_true. lia.
Qed.

(** X9.  In the data that [buildHTMLData] hands to the HTML template, the
    breaking flag is set exactly when the summary count is positive, the
    summary count is the number of entries of the three breaking lists, the
    unused-dependency flag is set exactly when the list is not empty, and
    the four lists keep the names of the Diff's entries, in order.
    [buildHTMLData] panics exactly on a Result with a nil [Changes]. *)
Theorem X9_buildHTMLData result :
  match report.buildHTMLData result with
  | Some data =>
      ∃ d, Changes result = Some d ∧
      (report.htmlData.Breaking data = true
         ↔ (0 < report.htmlData.SummaryCount data)%Z) ∧
      report.htmlData.SummaryCount data
        = report.len (report.htmlData.Removed data) +
          report.len (report.htmlData.Changed data) +
          report.len (report.htmlData.Interfaces data) ∧
      (report.htmlData.HasUnusedDeps data = true
         ↔ report.htmlData.UnusedDeps data ≠ []) ∧
      report.htmlRemoved.Name <$> report.htmlData.Removed data
        = RemovedSymbol.Name <$> Removed d ∧
      report.htmlChanged.Name <$> report.htmlData.Changed data
        = ChangedSignature.Name <$> Changed d ∧
      report.htmlInterface.Name <$> report.htmlData.Interfaces data
        = InterfaceChange.Name <$> InterfaceChanges d ∧
      report.htmlAdded.Name <$> report.htmlData.Added data
        = AddedSymbol.Name <$> Added d
  | None => Changes result = None
  end.
Proof.
  unfold report.buildHTMLData.
  destruct (Changes result) as [d|] eqn:Hd; [|done]. simpl.
  exists d. rewrite !foldl_snoc_fmap. simpl.
  split_and!; try done.
  - by rewrite (HasBreakingChanges_breaking_count _ _ Hd).
  - unfold report.len. rewrite !length_fmap. done.
  - rewrite bool_decide_eq_true. pose proof (len_zero (UnusedDeps result)).
    pose proof (len_nonneg (UnusedDeps result)).
    split; [intros ? ?; intuition lia | intros ?; destruct (UnusedDeps result); [done|]].
    rewrite len_cons. pose proof (len_nonneg l). lia.
  - by rewrite <- list_fmap_compose.
  - by rewrite <- list_fmap_compose.
  - by rewrite <- list_fmap_compose.
  - by rewrite <- list_fmap_compose.
Qed.

Lemma convert_UsedIn_length usedIn :
  report.len (report.convert_UsedIn usedIn) = report.len usedIn.
Proof.
  unfold report.convert_UsedIn. rewrite foldl_snoc_fmap. simpl.
  unfold report.len. by rewrite length_fmap.
Qed.

Lemma len_bind_fmap {A B C D} (f : A → B) (g : B → list C) (h : A → list D)
    (l : list A) :
  (∀ x, report.len (g (f x)) = report.len (h x)) →
  report.len ((f <$> l) ≫= g) = report.len (l ≫= h).
Proof.
  intros Hgh. induction l as [|x l IH]; [done|].
  rewrite fmap_cons, !bind_cons, !len_app, IH, Hgh. done.
Qed.

(** X10.  In the report that [FormatJSON] marshals, [breaking] is true
    exactly when [breaking_count] is positive, [breaking_count] is the number
    of entries of [removed], [changed] and [interface_changes] together, and
    [affected_locations] is the number of [used_in] locations that these
    entries list.  The report is built exactly when [Changes] is not nil. *)
Theorem X10_jsonReport result :
  match report.jsonReport result with
  | Some r =>
      Changes result ≠ None ∧
      (report.JSONReport.Breaking r = true
         ↔ (0 < report.JSONReport.BreakingCount r)%Z) ∧
      report.JSONReport.BreakingCount r
        = report.len (report.JSONReport.Removed r) +
          report.len (report.JSONReport.Changed r) +
          report.len (report.JSONReport.InterfaceChanges r) ∧
      report.JSONReport.AffectedLocations r
        = report.len (report.JSONReport.Removed r ≫= report.RemovedItem.UsedIn) +
          report.len (report.JSONReport.Changed r ≫= report.ChangedItem.UsedIn) +
          report.len (report.JSONReport.InterfaceChanges r
                        ≫= report.InterfaceChangeItem.UsedIn) ∧
      report.JSONReport.UnusedDeps r = UnusedDeps result
  | None => Changes result = None
  end.
Proof.
  unfold report.jsonReport.
  destruct (Changes result) as [d|] eqn:Hd; [|done]. simpl.
  rewrite !foldl_snoc_fmap. simpl.
  split_and!; try done.
  - by rewrite (HasBreakingChanges_breaking_count _ _ Hd).
  - unfold report.len. rewrite !length_fmap. done.
  - rewrite countAffectedLocations_bind.
    rewrite (len_bind_fmap _ report.RemovedItem.UsedIn RemovedSymbol.UsedIn)
      by (intros; apply convert_UsedIn_length).
    rewrite (len_bind_fmap _ report.ChangedItem.UsedIn ChangedSignature.UsedIn)
      by (intros; apply convert_UsedIn_length).
    rewrite (len_bind_fmap _ report.InterfaceChangeItem.UsedIn InterfaceChange.UsedIn)
      by (intros; apply convert_UsedIn_length).
    done.
Qed.

(** * The analyzer: lemmas and properties *)

Lemma index_bool_insert_true (seen : gmap string bool) k k' :
  index_bool (<[k := true]> seen) k' = true ↔ k = k' ∨ index_bool seen k' = true.
Proof.
  unfold index_bool. destruct (decide (k = k')) as [->|Hne].
  - rewrite lookup_insert_eq. simpl. by split; [left|].
  - rewrite lookup_insert_ne by done. split; [by right | by intros [?|?]].
Qed.

Lemma dependency_modules_invariant order :
  let state := foldl analyzer.dependency_modules_step ([], ∅) order in
  NoDup (packages.Path <$> state.1) ∧
  (∀ p, index_bool state.2 p = true ↔ p ∈ packages.Path <$> state.1) ∧
  (∀ m, m ∈ state.1 → ∃ kv, kv ∈ order ∧ packages.Imported_Module kv.2 = Some m) ∧
  (∀ kv m, kv ∈ order → packages.Imported_Module kv.2 = Some m →
           packages.Path m ∈ packages.Path <$> state.1).
Proof.
  induction order as [|kv order IH] using rev_ind; simpl.
  - split_and!.
    + constructor.
    + intros p. unfold index_bool. rewrite lookup_empty. simpl.
      split; [done | by intros ?%elem_of_nil].
    + by intros m ?%elem_of_nil.
    + by intros kv m ?%elem_of_nil.
  - rewrite foldl_app. simpl in *.
    destruct (foldl analyzer.dependency_modules_step ([], ∅) order) as [modules seen].
    destruct IH as (Hnd & Hseen & Hfrom & Hcover). simpl in *.
    destruct (packages.Imported_Module kv.2) as [m|] eqn:Hm.
    + destruct (index_bool seen (packages.Path m)) eqn:Hin; simpl.
      * split_and!; try done.
        -- intros m' Hm'. destruct (Hfrom m' Hm') as (kv' & ? & ?).
           exists kv'. split; [|done]. apply elem_of_app. by left.
        -- intros kv' m' [Hkv'| ->%list_elem_of_singleton]%elem_of_app Hm'.
           ++ by eapply Hcover.
           ++ rewrite Hm in Hm'. injection Hm' as <-. by apply Hseen.
      * assert (packages.Path m ∉ packages.Path <$> modules) as Hfresh.
        { intros ?%Hseen. congruence. }
        rewrite fmap_app. simpl. split_and!.
        -- apply NoDup_app. split_and!; [done| |apply NoDup_singleton].
           intros p Hp ->%list_elem_of_singleton. done.
        -- intros p. rewrite index_bool_insert_true, elem_of_app,
             list_elem_of_singleton, Hseen.
           split; (intros [?|?]; [right|left]); done.
        -- intros m' [Hm'| ->%list_elem_of_singleton]%elem_of_app.
           ++ destruct (Hfrom m' Hm') as (kv' & ? & ?).
              exists kv'. split; [|done]. apply elem_of_app. by left.
           ++ exists kv. split; [|done]. apply elem_of_app. right.
              by apply list_elem_of_singleton.
        -- intros kv' m' [Hkv'| ->%list_elem_of_singleton]%elem_of_app Hm'.
           ++ apply elem_of_app. left. by eapply Hcover.
           ++ rewrite Hm in Hm'. injection Hm' as <-.
              apply elem_of_app. right. by apply list_elem_of_singleton.
    + split_and!; try done.
      * intros m' Hm'. destruct (Hfrom m' Hm') as (kv' & ? & ?).
        exists kv'. split; [|done]. apply elem_of_app. by left.
      * intros kv' m' [Hkv'| ->%list_elem_of_singleton]%elem_of_app Hm'.
        -- by eapply Hcover.
        -- congruence.
Qed.

Lemma getDependencyModules_unfold pkg modules :
  modules ∈ analyzer.getDependencyModules pkg ↔
  ∃ order, order ∈ range (packages.Imports pkg) ∧
    modules = (foldl analyzer.dependency_modules_step ([], ∅) order).1.
Proof.
  unfold analyzer.getDependencyModules. rewrite list_elem_of_bind.
  split.
  - intros (order & ->%list_elem_of_ret & Horder). by exists order.
  - intros (order & Horder & ->). exists order. split; [|done].
    by apply list_elem_of_ret.
Qed.

Lemma getDependencyModules_spec pkg modules :
  modules ∈ analyzer.getDependencyModules pkg →
  NoDup (packages.Path <$> modules) ∧
  (∀ m, m ∈ modules →
     ∃ k imp, packages.Imports pkg !! k = Some imp ∧
              packages.Imported_Module imp = Some m) ∧
  (∀ k imp m, packages.Imports pkg !! k = Some imp →
     packages.Imported_Module imp = Some m →
     packages.Path m ∈ packages.Path <$> modules).
Proof.
  intros (order & Horder & ->)%getDependencyModules_unfold.
  destruct (dependency_modules_invariant order) as (Hnd & _ & Hfrom & Hcover).
  split_and!; [done| |].
  - intros m Hm. destruct (Hfrom m Hm) as ([k imp] & Hkv & ?).
    exists k, imp. split; [|done]. by apply (range_lookup _ _ _ _ Horder).
  - intros k imp m Hk Hm. apply (Hcover (k, imp)); [|done].
    by apply (range_lookup _ _ _ _ Horder).
Qed.

(** X11.  Whatever the visiting order, [getDependencyModules] returns each
    module of an imported package once: no two modules of the result have the
    same path, every module of the result is the module of an imported
    package, and the path of every imported package's module is the path of
    a module of the result. *)
Theorem X11_getDependencyModules pkg modules :
  modules ∈ analyzer.getDependencyModules pkg →
  NoDup (packages.Path <$> modules) ∧
  (∀ m, m ∈ modules →
     ∃ k imp, packages.Imports pkg !! k = Some imp ∧
              packages.Imported_Module imp = Some m) ∧
  (∀ k imp m, packages.Imports pkg !! k = Some imp →
     packages.Imported_Module imp = Some m →
     packages.Path m ∈ packages.Path <$> modules).
Proof. apply getDependencyModules_spec. Qed.

Lemma X11_getDependencyModules_witness :
  [module_lib] ∈ analyzer.getDependencyModules pkg_user ∧
  NoDup (packages.Path <$> [module_lib]).
Proof.
  assert ([module_lib] ∈ analyzer.getDependencyModules pkg_user) as H
    by by_compute.
  split; [exact H|].
  exact (proj1 (X11_getDependencyModules pkg_user [module_lib] H)).
Defined.

Lemma getDependencyModules_total pkg :
  ∃ modules, modules ∈ analyzer.getDependencyModules pkg.
Proof.
  unfold analyzer.getDependencyModules. apply bind_range_inhabited.
  intros order. eexists. by apply list_elem_of_ret.
Qed.

Lemma Module_eta (m : packages.Module_) :
  m = {| packages.Path := packages.Path m; packages.Version := packages.Version m |}.
Proof. by destruct m. Qed.

Lemma imports_module_version_cons pkg pkgs module version :
  imports_module_version (pkg :: pkgs) module version ↔
  (∃ k imp, packages.Imports pkg !! k = Some imp ∧
     packages.Imported_Module imp
       = Some {| packages.Path := module; packages.Version := version |}) ∨
  imports_module_version pkgs module version.
Proof.
  unfold imports_module_version. split.
  - intros (pkg' & k & imp & [->|Hin]%elem_of_cons & Hk & Hm).
    + left. eauto.
    + right. eauto 6.
  - intros [(k & imp & Hk & Hm)|(pkg' & k & imp & Hin & Hk & Hm)].
    + exists pkg, k, imp. split_and!; [apply list_elem_of_here|done..].
    + exists pkg', k, imp. split_and!; [by apply list_elem_of_further|done..].
Qed.

Lemma is_module_version_cons pkg pkgs module version :
  is_module_version (pkg :: pkgs) module version ↔
  packages.Module' pkg
    = Some {| packages.Path := module; packages.Version := version |} ∨
  is_module_version pkgs module version.
Proof.
  unfold is_module_version. split.
  - intros (pkg' & [->|Hin]%elem_of_cons & Hm); [by left | right; eauto].
  - intros [Hm|(pkg' & Hin & Hm)].
    + exists pkg. split; [apply list_elem_of_here|done].
    + exists pkg'. split; [by apply list_elem_of_further|done].
Qed.

Lemma getCurrentVersion_spec pkgs module outcome :
  outcome ∈ analyzer.getCurrentVersion pkgs module →
  match outcome with
  | Ok version =>
      is_module_version pkgs module version ∨
      imports_module_version pkgs module version
  | Err err =>
      err = module_not_found module ∧
      (∀ version, ¬ is_module_version pkgs module version) ∧
      (∀ version, ¬ imports_module_version pkgs module version)
  end.
Proof.
  induction pkgs as [|pkg pkgs IH]; cbn [analyzer.getCurrentVersion].
  - intros ->%list_elem_of_ret. split_and!; [done| |].
    + intros v (pkg & ?%elem_of_nil & _). done.
    + intros v (pkg & k & imp & ?%elem_of_nil & _). done.
  - assert (outcome ∈
      (modules ← analyzer.getDependencyModules pkg;
       match List.find (λ dep, bool_decide (packages.Path dep = module)) modules with
       | Some dep => mret (Ok (packages.Version dep))
       | None => analyzer.getCurrentVersion pkgs module
       end) →
      (∀ version, packages.Module' pkg
         ≠ Some {| packages.Path := module; packages.Version := version |}) →
      match outcome with
      | Ok version =>
          is_module_version (pkg :: pkgs) module version ∨
          imports_module_version (pkg :: pkgs) module version
      | Err err =>
          err = module_not_found module ∧
          (∀ version, ¬ is_module_version (pkg :: pkgs) module version) ∧
          (∀ version, ¬ imports_module_version (pkg :: pkgs) module version)
      end) as Hdeps.
    { intros (modules & Hout & Hmods)%list_elem_of_bind Hown.
      destruct (getDependencyModules_spec _ _ Hmods) as (_ & Hfrom & Hcover).
      destruct (List.find _ modules) as [dep|] eqn:Hfind.
      - apply list_elem_of_ret in Hout as ->.
        apply find_some in Hfind as [Hdep Hpath].
        apply bool_decide_eq_true in Hpath.
        apply list_elem_of_In, Hfrom in Hdep as (k & imp & Hk & Hm).
        right. apply imports_module_version_cons. left.
        exists k, imp. split; [done|]. rewrite Hm, <- Hpath. f_equal.
        apply Module_eta.
      - assert (∀ version, ¬ ∃ k imp, packages.Imports pkg !! k = Some imp ∧
                  packages.Imported_Module imp
                    = Some {| packages.Path := module;
                              packages.Version := version |}) as Hnone.
        { intros version (k & imp & Hk & Hm).
          pose proof (Hcover _ _ _ Hk Hm) as Hin. simpl in Hin.
          apply list_elem_of_fmap in Hin as (dep & Hpath & Hdep).
          apply list_elem_of_In in Hdep.
          pose proof (find_none _ _ Hfind _ Hdep) as Hno. simpl in Hno.
          apply bool_decide_eq_false in Hno. done. }
        specialize (IH Hout). destruct outcome as [version|err].
        + destruct IH as [?|?].
          * left. apply is_module_version_cons. by right.
          * right. apply imports_module_version_cons. by right.
        + destruct IH as (-> & Hno1 & Hno2). split_and!; [done| |].
          * intros v [?|?]%is_module_version_cons; [by eapply Hown|by eapply Hno1].
          * intros v [?|?]%imports_module_version_cons;
              [by eapply Hnone|by eapply Hno2]. }
    destruct (packages.Module' pkg) as [m|] eqn:Hm.
    + case_decide as Hpath.
      * intros ->%list_elem_of_ret. left. apply is_module_version_cons. left.
        rewrite Hm, <- Hpath. f_equal. apply Module_eta.
      * intros Hout. apply Hdeps; [done|]. intros version [= ->]. done.
    + intros Hout. by apply Hdeps.
Qed.

Lemma getCurrentVersion_total pkgs module :
  ∃ outcome, outcome ∈ analyzer.getCurrentVersion pkgs module.
Proof.
  induction pkgs as [|pkg pkgs [outcome IH]]; cbn [analyzer.getCurrentVersion].
  - eexists. by apply list_elem_of_ret.
  - assert (∃ outcome, outcome ∈
      (modules ← analyzer.getDependencyModules pkg;
       match List.find (λ dep, bool_decide (packages.Path dep = module)) modules with
       | Some dep => mret (Ok (packages.Version dep))
       | None => analyzer.getCurrentVersion pkgs module
       end)) as Hdeps.
    { destruct (getDependencyModules_total pkg) as [modules Hmods].
      destruct (List.find (λ dep, bool_decide (packages.Path dep = module)) modules)
        as [dep|] eqn:Hfind.
      - exists (Ok (packages.Version dep)). apply list_elem_of_bind.
        exists modules. split; [|done]. rewrite Hfind. by apply list_elem_of_ret.
      - exists outcome. apply list_elem_of_bind.
        exists modules. split; [|done]. by rewrite Hfind. }
    destruct (packages.Module' pkg) as [m|]; [|done].
    case_decide; [|done]. eexists. by apply list_elem_of_ret.
Qed.

(** X12.  [getCurrentVersion] always returns.  When it returns a version, a
    loaded package belongs to the module in that version, or imports a
    package of the module in that version.  It returns the error "module ...
    not found in project dependencies" only when no loaded package belongs to
    the module or imports a package of it; so the outcome, found or not, does
    not depend on the visiting order of the import maps. *)
Theorem X12_getCurrentVersion pkgs module :
  (∃ outcome, outcome ∈ analyzer.getCurrentVersion pkgs module) ∧
  (∀ outcome, outcome ∈ analyzer.getCurrentVersion pkgs module →
     match outcome with
     | Ok version =>
         is_module_version pkgs module version ∨
         imports_module_version pkgs module version
     | Err err =>
         err = module_not_found module ∧
         (∀ version, ¬ is_module_version pkgs module version) ∧
         (∀ version, ¬ imports_module_version pkgs module version)
     end).
Proof.
  split; [apply getCurrentVersion_total | apply getCurrentVersion_spec].
Qed.

Example getCurrentVersion_lib :
  remove_dups (analyzer.getCurrentVersion [pkg_user] "example.com/lib")
  = [Ok "v1.0.0"].
Proof. vm_compute. reflexivity. Qed.

Example getCurrentVersion_missing :
  remove_dups (analyzer.getCurrentVersion [pkg_user] "example.com/other")
  = [Err (module_not_found "example.com/other")].
Proof. vm_compute. reflexivity. Qed.

Lemma imports_module_nil dep : ¬ imports_module [] dep.
Proof. intros (v & pkg & k & imp & ?%elem_of_nil & _). done. Qed.

Lemma imports_module_cons pkg pkgs dep :
  imports_module (pkg :: pkgs) dep ↔
  package_imports_module pkg dep ∨ imports_module pkgs dep.
Proof.
  unfold imports_module, package_imports_module. split.
  - intros (v & [(k & imp & ? & ?)|?]%imports_module_version_cons);
      [left; eauto | right; eauto].
  - intros [(k & imp & v & ? & ?)|(v & ?)]; exists v;
      apply imports_module_version_cons; [left; eauto | by right].
Qed.

Lemma imports_package_nil path : ¬ imports_package [] path.
Proof. intros (pkg & k & imp & ?%elem_of_nil & _). done. Qed.

Lemma imports_package_cons pkg pkgs path :
  imports_package (pkg :: pkgs) path ↔
  package_imports_package pkg path ∨ imports_package pkgs path.
Proof.
  unfold imports_package, package_imports_package. split.
  - intros (pkg' & k & imp & [->|Hin]%elem_of_cons & Hk & Hp);
      [left; eauto | right; eauto 6].
  - intros [(k & imp & Hk & Hp)|(pkg' & k & imp & Hin & Hk & Hp)].
    + exists pkg, k, imp. split_and!; [apply list_elem_of_here|done..].
    + exists pkg', k, imp. split_and!; [by apply list_elem_of_further|done..].
Qed.

Lemma deduplicate_invariant deps :
  let state := foldl analyzer.deduplicate_step ([], ∅) deps in
  NoDup state.1 ∧
  (∀ p, index_bool state.2 p = true ↔ p ∈ state.1) ∧
  (∀ p, p ∈ state.1 ↔ p ∈ deps).
Proof.
  induction deps as [|dep deps IH] using rev_ind; simpl.
  - split_and!; [constructor| |done].
    intros p. unfold index_bool. rewrite lookup_empty. simpl.
    split; [done | by intros ?%elem_of_nil].
  - rewrite foldl_app. simpl in *.
    destruct (foldl analyzer.deduplicate_step ([], ∅) deps) as [unique seen].
    destruct IH as (Hnd & Hseen & Hsame). simpl in *.
    destruct (index_bool seen dep) eqn:Hin; simpl.
    + split_and!; [done..|].
      intros p. rewrite elem_of_app, list_elem_of_singleton, Hsame.
      split; [by left|]. intros [?| ->]; [done|]. by apply Hsame, Hseen.
    + assert (dep ∉ unique) as Hfresh by (intros ?%Hseen; congruence).
      split_and!.
      * apply NoDup_app. split_and!; [done| |apply NoDup_singleton].
        intros p Hp ->%list_elem_of_singleton. done.
      * intros p. rewrite index_bool_insert_true, elem_of_app,
          list_elem_of_singleton, Hseen.
        split; (intros [?|?]; [right|left]); done.
      * intros p. by rewrite !elem_of_app, Hsame.
Qed.

Lemma deduplicate_spec deps :
  NoDup (analyzer.deduplicate deps) ∧
  ∀ p, p ∈ analyzer.deduplicate deps ↔ p ∈ deps.
Proof.
  destruct (deduplicate_invariant deps) as (? & _ & ?). done.
Qed.

Lemma direct_dependencies_fold (m : gmap string packages.Imported) order deps dep :
  order ∈ range m →
  dep ∈ foldl analyzer.direct_dependencies_step deps order ↔
  dep ∈ deps ∨
  (dep ≠ "" ∧ ∃ k imp version, m !! k = Some imp ∧
     packages.Imported_Module imp
       = Some {| packages.Path := dep; packages.Version := version |}).
Proof.
  intros Horder.
  assert (∀ deps, dep ∈ foldl analyzer.direct_dependencies_step deps order ↔
    dep ∈ deps ∨
    (dep ≠ "" ∧ ∃ kv version, kv ∈ order ∧
       packages.Imported_Module kv.2
         = Some {| packages.Path := dep; packages.Version := version |})) as Hfold.
  { clear. induction order as [|kv order IH]; intros deps; cbn [foldl].
    - split; [by left|]. intros [?|(_ & kv & v & ?%elem_of_nil & _)]; done.
    - rewrite IH. unfold analyzer.direct_dependencies_step.
      split.
      + intros [Hin|(Hne & kv' & v & Hkv' & Hm)].
        * destruct (packages.Imported_Module kv.2) as [m|] eqn:Hm; [|by left].
          case_decide as Hpath; [|by left].
          apply elem_of_app in Hin as [?| ->%list_elem_of_singleton]; [by left|].
          right. split; [done|]. exists kv, (packages.Version m).
          split; [apply list_elem_of_here|]. rewrite Hm. f_equal. apply Module_eta.
        * right. split; [done|]. exists kv', v.
          split; [by apply list_elem_of_further|done].
      + intros [Hin|(Hne & kv' & v & [->|Hkv']%elem_of_cons & Hm)].
        * left. destruct (packages.Imported_Module kv.2) as [m|]; [|done].
          case_decide; [|done]. apply elem_of_app. by left.
        * left. rewrite Hm. simpl. rewrite decide_True by done.
          apply elem_of_app. right. by apply list_elem_of_singleton.
        * right. split; [done|]. eauto. }
  rewrite Hfold. split.
  - intros [?|(Hne & [k imp] & v & Hkv%(range_lookup _ _ _ _ Horder) & Hm)];
      [by left|]. right. split; [done|]. eauto.
  - intros [?|(Hne & k & imp & v & Hk & Hm)]; [by left|].
    right. split; [done|]. exists (k, imp), v.
    split; [by apply (range_lookup _ _ _ _ Horder)|done].
Qed.

Lemma direct_dependencies_foldM pkgs deps deps' dep :
  deps' ∈ foldM (λ deps pkg,
                   order ← range (packages.Imports pkg);
                   mret (foldl analyzer.direct_dependencies_step deps order))
                deps pkgs →
  dep ∈ deps' ↔ dep ∈ deps ∨ (dep ≠ "" ∧ imports_module pkgs dep).
Proof.
  revert deps. induction pkgs as [|pkg pkgs IH]; intros deps; cbn [foldM].
  - intros ->%list_elem_of_singleton. split; [by left|].
    intros [?|[_ ?%imports_module_nil]]; done.
  - intros (deps1 & Hrest & (order & ->%list_elem_of_ret & Horder)%list_elem_of_bind)
      %list_elem_of_bind.
    rewrite (IH _ Hrest), (direct_dependencies_fold _ _ _ _ Horder),
      imports_module_cons.
    unfold package_imports_module. tauto.
Qed.

Lemma getDirectDependencies_spec pkgs deps :
  deps ∈ analyzer.getDirectDependencies pkgs →
  NoDup deps ∧ ∀ dep, dep ∈ deps ↔ dep ≠ "" ∧ imports_module pkgs dep.
Proof.
  unfold analyzer.getDirectDependencies.
  intros (deps0 & ->%list_elem_of_ret & Hdeps0)%list_elem_of_bind.
  destruct (deduplicate_spec deps0) as [Hnd Hsame].
  split; [done|]. intros dep.
  rewrite Hsame, (direct_dependencies_foldM _ _ _ _ Hdeps0).
  split; [intros [?%elem_of_nil|?]; done | by right].
Qed.

Lemma getDirectDependencies_total pkgs :
  ∃ deps, deps ∈ analyzer.getDirectDependencies pkgs.
Proof.
  unfold analyzer.getDirectDependencies.
  destruct (foldM_total
    (λ deps pkg, order ← range (packages.Imports pkg);
                 mret (foldl analyzer.direct_dependencies_step deps order))
    pkgs []) as [deps0 Hdeps0].
  { intros deps pkg. apply bind_range_inhabited. intros order.
    eexists. by apply list_elem_of_ret. }
  eexists. apply list_elem_of_bind. exists deps0. split; [|done].
  by apply list_elem_of_ret.
Qed.

(** X13.  [getDirectDependencies] always returns a list, never an error:
    the list holds, each once, exactly the non-empty module paths of the
    packages that the loaded packages import.  Its order alone depends on the
    visiting order of the import maps. *)
Theorem X13_getDirectDependencies pkgs :
  (∃ deps, deps ∈ analyzer.getDirectDependencies pkgs) ∧
  (∀ deps, deps ∈ analyzer.getDirectDependencies pkgs →
     NoDup deps ∧ ∀ dep, dep ∈ deps ↔ dep ≠ "" ∧ imports_module pkgs dep) ∧
  (∀ deps deps', deps ∈ analyzer.getDirectDependencies pkgs →
     deps' ∈ analyzer.getDirectDependencies pkgs → deps ≡ₚ deps').
Proof.
  split_and!.
  - apply getDirectDependencies_total.
  - apply getDirectDependencies_spec.
  - intros deps deps' [Hnd Hin]%getDirectDependencies_spec
      [Hnd' Hin']%getDirectDependencies_spec.
    apply NoDup_Permutation; [done..|]. intros dep. by rewrite Hin, Hin'.
Qed.

Lemma imported_fold (m : gmap string packages.Imported) order imported path :
  order ∈ range m →
  index_bool (foldl analyzer.imported_step imported order) path = true ↔
  index_bool imported path = true ∨
  (path ≠ "" ∧ ∃ k imp, m !! k = Some imp ∧ packages.Imported_PkgPath imp = path).
Proof.
  intros Horder.
  assert (∀ imported,
    index_bool (foldl analyzer.imported_step imported order) path = true ↔
    index_bool imported path = true ∨
    (path ≠ "" ∧ ∃ kv, kv ∈ order ∧ packages.Imported_PkgPath kv.2 = path))
    as Hfold.
  { clear. induction order as [|kv order IH]; intros imported; cbn [foldl].
    - split; [by left|]. intros [?|(_ & kv & ?%elem_of_nil & _)]; done.
    - rewrite IH. unfold analyzer.imported_step, analyzer.extractModulePath.
      split.
      + intros [Hin|(Hne & kv' & Hkv' & Hp)].
        * case_decide as Hpath; [|by left].
          apply index_bool_insert_true in Hin as [Heq|?]; [|by left].
          right. split; [congruence|]. exists kv.
          split; [apply list_elem_of_here|done].
        * right. split; [done|]. exists kv'.
          split; [by apply list_elem_of_further|done].
      + intros [Hin|(Hne & kv' & [->|Hkv']%elem_of_cons & Hp)].
        * left. case_decide; [|done]. apply index_bool_insert_true. by right.
        * left. rewrite decide_True by congruence.
          apply index_bool_insert_true. by left.
        * right. split; [done|]. eauto. }
  rewrite Hfold. split.
  - intros [?|(Hne & [k imp] & Hkv%(range_lookup _ _ _ _ Horder) & Hp)];
      [by left|]. right. split; [done|]. eauto.
  - intros [?|(Hne & k & imp & Hk & Hp)]; [by left|].
    right. split; [done|]. exists (k, imp).
    split; [by apply (range_lookup _ _ _ _ Horder)|done].
Qed.

Lemma imported_foldM pkgs imported imported' path :
  imported' ∈ foldM (λ imported pkg,
                       order ← range (packages.Imports pkg);
                       mret (foldl analyzer.imported_step imported order))
                    imported pkgs →
  index_bool imported' path = true ↔
  index_bool imported path = true ∨ (path ≠ "" ∧ imports_package pkgs path).
Proof.
  revert imported. induction pkgs as [|pkg pkgs IH]; intros imported; cbn [foldM].
  - intros ->%list_elem_of_singleton. split; [by left|].
    intros [?|[_ ?%imports_package_nil]]; done.
  - intros (imported1 & Hrest &
            (order & ->%list_elem_of_ret & Horder)%list_elem_of_bind)
      %list_elem_of_bind.
    rewrite (IH _ Hrest), (imported_fold _ _ _ _ Horder), imports_package_cons.
    unfold package_imports_package. tauto.
Qed.

Lemma imported_modules_spec pkgs imported path :
  imported ∈ analyzer.imported_modules pkgs →
  index_bool imported path = true ↔ path ≠ "" ∧ imports_package pkgs path.
Proof.
  intros Himp. rewrite (imported_foldM _ _ _ _ Himp).
  unfold index_bool. rewrite lookup_empty. simpl. split; [by intros [?|?] | by right].
Qed.

Lemma imported_modules_total pkgs :
  ∃ imported, imported ∈ analyzer.imported_modules pkgs.
Proof.
  apply foldM_total. intros imported pkg. apply bind_range_inhabited.
  intros order. eexists. by apply list_elem_of_ret.
Qed.

Lemma unused_dependencies_filter imported dependencies :
  analyzer.unused_dependencies imported dependencies
  = filter (λ dep, index_bool imported dep = false) dependencies.
Proof.
  unfold analyzer.unused_dependencies.
  enough (∀ unused,
    foldl (λ unused dep,
             if negb (index_bool imported dep) then unused ++ [dep] else unused)
          unused dependencies
    = unused ++ filter (λ dep, index_bool imported dep = false) dependencies)
    as ->; [done|].
  induction dependencies as [|dep deps IH]; intros unused; cbn [foldl].
  - by rewrite app_nil_r.
  - rewrite IH, filter_cons.
    destruct (index_bool imported dep); simpl; [done|].
    by rewrite <- app_assoc.
Qed.

Section FindUnusedDependencies.

Variable packagesLoad : string → string → returns (list packages.Package) error.
Variable packagesPrintErrors : list packages.Package → Z.

Lemma FindUnusedDependencies_spec a a' out :
  (if decide (length (analyzer.pkgs a) = 0%nat)
   then analyzer.loadProject packagesLoad packagesPrintErrors a else Ok a) = Ok a' →
  out ∈ analyzer.FindUnusedDependencies packagesLoad packagesPrintErrors a →
  out.1 = a' ∧ out.2.2 = None ∧ NoDup out.2.1 ∧
  ∀ dep, dep ∈ out.2.1 ↔
    dep ≠ "" ∧ imports_module (analyzer.pkgs a') dep ∧
    ¬ imports_package (analyzer.pkgs a') dep.
Proof.
  intros Hload. unfold analyzer.FindUnusedDependencies. rewrite Hload.
  intros (deps & (imported & ->%list_elem_of_ret & Himp)%list_elem_of_bind
          & Hdeps)%list_elem_of_bind.
  simpl. rewrite unused_dependencies_filter.
  destruct (getDirectDependencies_spec _ _ Hdeps) as [Hnd Hin].
  split_and!; [done..|by apply NoDup_filter|].
  intros dep. rewrite list_elem_of_filter, Hin.
  rewrite <- not_true_iff_false, (imported_modules_spec _ _ _ Himp).
  split.
  - intros (Hnot & Hne & Hmod). split_and!; [done..|]. intros ?. by apply Hnot.
  - intros (Hne & Hmod & Hnot). split_and!; [|done..]. intros [_ ?]. by apply Hnot.
Qed.

Lemma FindUnusedDependencies_total a :
  ∃ out, out ∈ analyzer.FindUnusedDependencies packagesLoad packagesPrintErrors a.
Proof.
  unfold analyzer.FindUnusedDependencies.
  destruct (if decide (length (analyzer.pkgs a) = 0%nat)
            then analyzer.loadProject packagesLoad packagesPrintErrors a
            else Ok a) as [a'|err].
  - destruct (getDirectDependencies_total (analyzer.pkgs a')) as [deps Hdeps].
    destruct (imported_modules_total (analyzer.pkgs a')) as [imported Himp].
    eexists. apply list_elem_of_bind. exists deps. split; [|done].
    apply list_elem_of_bind. exists imported. split; [|done].
    by apply list_elem_of_ret.
  - eexists. by apply list_elem_of_ret.
Qed.

End FindUnusedDependencies.

(** X14.  Once the packages are loaded (they were, or [loadProject]
    succeeds), [FindUnusedDependencies] returns no error and a list that
    holds, each once, exactly the non-empty module paths [dep] such that a
    loaded package imports a package of module [dep] and no loaded package
    imports a package whose import path is [dep] itself.  So every
    dependency it reports is the module of an imported package, and a module
    of which only sub-packages are imported is reported. *)
Theorem X14_FindUnusedDependencies packagesLoad packagesPrintErrors a a' out :
  (if decide (length (analyzer.pkgs a) = 0%nat)
   then analyzer.loadProject packagesLoad packagesPrintErrors a else Ok a) = Ok a' →
  out ∈ analyzer.FindUnusedDependencies packagesLoad packagesPrintErrors a →
  out.1 = a' ∧ out.2.2 = None ∧ NoDup out.2.1 ∧
  ∀ dep, dep ∈ out.2.1 ↔
    dep ≠ "" ∧ imports_module (analyzer.pkgs a') dep ∧
    ¬ imports_package (analyzer.pkgs a') dep.
Proof. apply FindUnusedDependencies_spec. Qed.

Lemma X14_FindUnusedDependencies_witness :
  (analyzer_user, (["example.com/lib"], None))
    ∈ analyzer.FindUnusedDependencies no_packagesLoad no_PrintErrors analyzer_user ∧
  NoDup ["example.com/lib"].
Proof.
  assert ((analyzer_user, (["example.com/lib"], None))
            ∈ analyzer.FindUnusedDependencies no_packagesLoad no_PrintErrors
                analyzer_user) as Hout by by_compute.
  split; [exact Hout|].
  exact (proj1 (proj2 (proj2 (X14_FindUnusedDependencies no_packagesLoad
    no_PrintErrors analyzer_user analyzer_user _ eq_refl Hout)))).
Defined.

Section Analyze.

Variable packagesLoad : string → string → returns (list packages.Package) error.
Variable packagesPrintErrors : list packages.Package → Z.
Variable loadModuleAPI : string → string → returns API error.
Variable findUsage : list packages.Package → string → Usage.

Lemma Analyze_Ok a upgrade out r :
  out ∈ analyzer.Analyze packagesLoad packagesPrintErrors loadModuleAPI findUsage
      a upgrade → out.2 = Ok r →
  ∃ d oldAPI newAPI,
    analyzer.loadProject packagesLoad packagesPrintErrors a = Ok out.1 ∧
    Ok (Result_OldVersion r)
      ∈ analyzer.getCurrentVersion (analyzer.pkgs out.1) (Module_ upgrade) ∧
    loadModuleAPI (Module_ upgrade) (Result_OldVersion r) = Ok oldAPI ∧
    loadModuleAPI (Module_ upgrade) (NewVersion upgrade) = Ok newAPI ∧
    d ∈ diffAPIs oldAPI newAPI
          (findUsage (analyzer.pkgs out.1) (Module_ upgrade)) ∧
    r = {| Result_Module := Module_ upgrade;
           Result_OldVersion := Result_OldVersion r;
           Result_NewVersion := NewVersion upgrade;
           Changes := Some d; UnusedDeps := [] |}.
Proof.
  unfold analyzer.Analyze.
  destruct (analyzer.loadProject packagesLoad packagesPrintErrors a) as [a'|err] eqn:Hload;
    [|by intros ->%list_elem_of_ret].
  intros (current & Hout & Hcurrent)%list_elem_of_bind.
  destruct current as [v|err]; [|by apply list_elem_of_ret in Hout as ->].
  destruct (loadModuleAPI (Module_ upgrade) v) as [oldAPI|err] eqn:Hold;
    [|by apply list_elem_of_ret in Hout as ->].
  destruct (loadModuleAPI (Module_ upgrade) (NewVersion upgrade))
    as [newAPI|err] eqn:Hnew; [|by apply list_elem_of_ret in Hout as ->].
  apply list_elem_of_bind in Hout as (d & ->%list_elem_of_ret & Hd).
  simpl. intros [= <-]. simpl. by exists d, oldAPI, newAPI.
Qed.

Lemma Analyze_Err a upgrade out err :
  out ∈ analyzer.Analyze packagesLoad packagesPrintErrors loadModuleAPI findUsage
      a upgrade → out.2 = Err err →
  (∃ err', analyzer.loadProject packagesLoad packagesPrintErrors a = Err err' ∧ out.1 = a ∧
     err = Errorf "failed to load project: " err') ∨
  (analyzer.loadProject packagesLoad packagesPrintErrors a = Ok out.1 ∧
   ((err = Errorf "failed to determine current version: "
                  (module_not_found (Module_ upgrade)) ∧
     (∀ v, ¬ is_module_version (analyzer.pkgs out.1) (Module_ upgrade) v) ∧
     (∀ v, ¬ imports_module_version (analyzer.pkgs out.1) (Module_ upgrade) v)) ∨
    (∃ v err',
       Ok v ∈ analyzer.getCurrentVersion (analyzer.pkgs out.1) (Module_ upgrade) ∧
       loadModuleAPI (Module_ upgrade) v = Err err' ∧
       err = Errorf "failed to load old API: " err') ∨
    (∃ v oldAPI err',
       Ok v ∈ analyzer.getCurrentVersion (analyzer.pkgs out.1) (Module_ upgrade) ∧
       loadModuleAPI (Module_ upgrade) v = Ok oldAPI ∧
       loadModuleAPI (Module_ upgrade) (NewVersion upgrade) = Err err' ∧
       err = Errorf "failed to load new API: " err'))).
Proof.
  unfold analyzer.Analyze.
  destruct (analyzer.loadProject packagesLoad packagesPrintErrors a) as [a'|err0] eqn:Hload.
  - intros (current & Hout & Hcurrent)%list_elem_of_bind Herr. right.
    destruct current as [v|err0].
    + destruct (loadModuleAPI (Module_ upgrade) v) as [oldAPI|err0] eqn:Hold.
      * destruct (loadModuleAPI (Module_ upgrade) (NewVersion upgrade))
          as [newAPI|err0] eqn:Hnew.
        -- apply list_elem_of_bind in Hout as (d & ->%list_elem_of_ret & Hd).
           done.
        -- apply list_elem_of_ret in Hout as ->. simpl in *.
           injection Herr as <-. split; [done|]. right; right.
           by exists v, oldAPI, err0.
      * apply list_elem_of_ret in Hout as ->. simpl in *.
        injection Herr as <-. split; [done|]. right; left. by exists v, err0.
    + apply list_elem_of_ret in Hout as ->. simpl in *. injection Herr as <-.
      split; [done|]. left.
      by apply getCurrentVersion_spec in Hcurrent as (-> & ? & ?).
  - intros ->%list_elem_of_ret. simpl. intros [= <-]. left. by exists err0.
Qed.

Lemma Analyze_total a upgrade : ∃ out, out ∈ analyzer.Analyze packagesLoad packagesPrintErrors loadModuleAPI findUsage
      a upgrade.
Proof.
  unfold analyzer.Analyze.
  destruct (analyzer.loadProject packagesLoad packagesPrintErrors a) as [a'|err]; [|eexists; by apply list_elem_of_ret].
  destruct (getCurrentVersion_total (analyzer.pkgs a') (Module_ upgrade))
    as [current Hcurrent].
  destruct current as [v|err] eqn:Hc.
  - destruct (loadModuleAPI (Module_ upgrade) v) as [oldAPI|err] eqn:Hold.
    + destruct (loadModuleAPI (Module_ upgrade) (NewVersion upgrade))
        as [newAPI|err] eqn:Hnew.
      * destruct (diffAPIs_total oldAPI newAPI
                    (findUsage (analyzer.pkgs a') (Module_ upgrade))) as [d Hd].
        eexists. apply list_elem_of_bind. exists (Ok v). split; [|done].
        rewrite ?Hold, ?Hnew. apply list_elem_of_bind. exists d. split; [|done].
        by apply list_elem_of_ret.
      * eexists. apply list_elem_of_bind. exists (Ok v). split; [|done].
        rewrite ?Hold, ?Hnew. by apply list_elem_of_ret.
    + eexists. apply list_elem_of_bind. exists (Ok v). split; [|done].
      rewrite ?Hold. by apply list_elem_of_ret.
  - eexists. apply list_elem_of_bind. exists (Err err). split; [|done].
    by apply list_elem_of_ret.
Qed.

End Analyze.

Lemma FormatText_is_Some result verbose :
  is_Some (report.FormatText result verbose) ↔ Changes result ≠ None.
Proof.
  unfold report.FormatText.
  destruct (Changes result) as [d|]; simpl; [|split; [by intros [??]|done]].
  split; [done|]. intros _.
  destruct (summarizeFixes_all d) as (fixes & _ & Hfix). rewrite Hfix.
  unfold report.slice_to. rewrite (decide_True (P := (0 ≤ 3)%Z)) by lia.
  destruct (HasBreakingChanges result); simpl; [|done].
  case_decide; simpl; done.
Qed.

(** X15.  A result that [Analyze] returns was built from what the loaders
    gave: the project loaded, the current version of the module was found
    among the loaded packages and is the result's [OldVersion], both
    surfaces loaded, and [Changes] is a Diff of the engine on them, never
    nil; the unused-dependency list is empty.  So the guard on a nil
    [Changes] never fires on it and the text formatter does not panic. *)
Theorem X15_Analyze_result packagesLoad packagesPrintErrors loadModuleAPI
    findUsage a upgrade out r :
  out ∈ analyzer.Analyze packagesLoad packagesPrintErrors loadModuleAPI
          findUsage a upgrade →
  out.2 = Ok r →
  (∃ d oldAPI newAPI,
    analyzer.loadProject packagesLoad packagesPrintErrors a = Ok out.1 ∧
    Ok (Result_OldVersion r)
      ∈ analyzer.getCurrentVersion (analyzer.pkgs out.1) (Module_ upgrade) ∧
    loadModuleAPI (Module_ upgrade) (Result_OldVersion r) = Ok oldAPI ∧
    loadModuleAPI (Module_ upgrade) (NewVersion upgrade) = Ok newAPI ∧
    d ∈ diffAPIs oldAPI newAPI
          (findUsage (analyzer.pkgs out.1) (Module_ upgrade)) ∧
    r = {| Result_Module := Module_ upgrade;
           Result_OldVersion := Result_OldVersion r;
           Result_NewVersion := NewVersion upgrade;
           Changes := Some d; UnusedDeps := [] |}) ∧
  (∀ verbose, is_Some (report.FormatText r verbose)).
Proof.
  intros Hout Hr.
  destruct (Analyze_Ok _ _ _ _ _ _ _ _ Hout Hr)
    as (d & oldAPI & newAPI & ? & ? & ? & ? & ? & Heq).
  split; [by exists d, oldAPI, newAPI|].
  intros verbose. apply FormatText_is_Some. by rewrite Heq.
Qed.

Lemma X15_Analyze_result_witness :
  ({| analyzer.projectPath := "/work/user"; analyzer.pkgs := [pkg_user] |},
   Ok result_lib_v2)
    ∈ analyzer.Analyze load_user no_PrintErrors load_lib usage_F
        {| analyzer.projectPath := "/work/user"; analyzer.pkgs := [] |}
        (upgrade_lib "v2.0.0") ∧
  ∀ verbose, is_Some (report.FormatText result_lib_v2 verbose).
Proof.
  assert (({| analyzer.projectPath := "/work/user"; analyzer.pkgs := [pkg_user] |},
           Ok result_lib_v2)
    ∈ analyzer.Analyze load_user no_PrintErrors load_lib usage_F
        {| analyzer.projectPath := "/work/user"; analyzer.pkgs := [] |}
        (upgrade_lib "v2.0.0")) as Hout.
  { apply (bool_decide_unpack _). vm_compute. exact I. }
  split; [exact Hout|].
  exact (proj2 (X15_Analyze_result load_user no_PrintErrors load_lib usage_F
                  _ _ _ result_lib_v2 Hout eq_refl)).
Defined.

(** X16.  [Analyze] always returns, and when it returns an error the error
    tells the step that failed: loading the project; finding the module,
    which fails only when no loaded package belongs to the module or imports
    a package of it; loading the old surface at the version found; or
    loading the new surface at the requested version. *)
Theorem X16_Analyze_errors packagesLoad packagesPrintErrors loadModuleAPI
    findUsage a upgrade :
  (∃ out, out ∈ analyzer.Analyze packagesLoad packagesPrintErrors
                  loadModuleAPI findUsage a upgrade) ∧
  (∀ out err,
     out ∈ analyzer.Analyze packagesLoad packagesPrintErrors loadModuleAPI
             findUsage a upgrade →
     out.2 = Err err →
     (∃ err', analyzer.loadProject packagesLoad packagesPrintErrors a = Err err' ∧
        out.1 = a ∧ err = Errorf "failed to load project: " err') ∨
     (analyzer.loadProject packagesLoad packagesPrintErrors a = Ok out.1 ∧
      ((err = Errorf "failed to determine current version: "
                     (module_not_found (Module_ upgrade)) ∧
        (∀ v, ¬ is_module_version (analyzer.pkgs out.1) (Module_ upgrade) v) ∧
        (∀ v, ¬ imports_module_version (analyzer.pkgs out.1) (Module_ upgrade) v)) ∨
       (∃ v err',
          Ok v ∈ analyzer.getCurrentVersion (analyzer.pkgs out.1) (Module_ upgrade) ∧
          loadModuleAPI (Module_ upgrade) v = Err err' ∧
          err = Errorf "failed to load old API: " err') ∨
       (∃ v oldAPI err',
          Ok v ∈ analyzer.getCurrentVersion (analyzer.pkgs out.1) (Module_ upgrade) ∧
          loadModuleAPI (Module_ upgrade) v = Ok oldAPI ∧
          loadModuleAPI (Module_ upgrade) (NewVersion upgrade) = Err err' ∧
          err = Errorf "failed to load new API: " err')))).
Proof.
  split; [apply Analyze_total|]. intros out err. apply Analyze_Err.
Qed.

(** X17.  Auditing an upgrade to the version the project already uses: the
    result of [Analyze] has an empty Diff, neither breaking changes nor
    warnings, exit code 0 also in strict mode, and its text report is the
    header followed by "No breaking changes detected.". *)
Theorem X17_Analyze_same_version packagesLoad packagesPrintErrors loadModuleAPI
    findUsage a upgrade out r :
  out ∈ analyzer.Analyze packagesLoad packagesPrintErrors loadModuleAPI
          findUsage a upgrade →
  out.2 = Ok r →
  Result_OldVersion r = NewVersion upgrade →
  Changes r = Some empty_Diff ∧
  HasBreakingChanges r = false ∧ HasWarnings r = false ∧
  (∀ strict, determineExitCode r strict = 0) ∧
  (∀ verbose,
     report.FormatText r verbose
     = Some (report_header (Module_ upgrade) (NewVersion upgrade)
               (NewVersion upgrade) +:+ report.no_breaking_banner)).
Proof.
  intros Hout Hr Hsame.
  destruct (Analyze_Ok _ _ _ _ _ _ _ _ Hout Hr)
    as (d & oldAPI & newAPI & _ & _ & Hold & Hnew & Hd & Heq).
  rewrite Hsame in Hold, Heq. rewrite Hold in Hnew. injection Hnew as <-.
  apply self_diff_is_empty in Hd as ->. rewrite Heq.
  split_and!; try done.
  - by intros [].
  - intros verbose. unfold report.FormatText. simpl.
    unfold report.write_added. by rewrite andb_false_r.
Qed.

Lemma X17_Analyze_same_version_witness :
  ({| analyzer.projectPath := "/work/user"; analyzer.pkgs := [pkg_user] |},
   Ok result_lib_v1)
    ∈ analyzer.Analyze load_user no_PrintErrors load_lib usage_F
        {| analyzer.projectPath := "/work/user"; analyzer.pkgs := [] |}
        (upgrade_lib "v1.0.0") ∧
  Changes result_lib_v1 = Some empty_Diff.
Proof.
  assert (({| analyzer.projectPath := "/work/user"; analyzer.pkgs := [pkg_user] |},
           Ok result_lib_v1)
    ∈ analyzer.Analyze load_user no_PrintErrors load_lib usage_F
        {| analyzer.projectPath := "/work/user"; analyzer.pkgs := [] |}
        (upgrade_lib "v1.0.0")) as Hout.
  { apply (bool_decide_unpack _). vm_compute. exact I. }
  split; [exact Hout|].
  exact (proj1 (X17_Analyze_same_version load_user no_PrintErrors load_lib usage_F
                  _ _ _ result_lib_v1 Hout eq_refl eq_refl)).
Defined.

(** * The driver and the entry point: lemmas and properties *)

Section run.

Variable TrimSpace : string → string.
Variable Analyzer : Type.
Variable New : string → returns Analyzer error.
Variable Analyze : Analyzer → Upgrade → Analyzer * returns Result error.
Variable FindUnusedDependencies : Analyzer → Analyzer * (list string * option error).
Variable FormatJSON : Result → returns string error.
Variable FormatText : Result → bool → returns string error.

Lemma report_and_exit_cases cfg result :
  (∃ err, formatted FormatJSON FormatText cfg result = Err err ∧
     report_and_exit FormatJSON FormatText cfg result
     = ([format_call cfg result], Err (Errorf "failed to generate report: " err))) ∨
  (∃ output, formatted FormatJSON FormatText cfg result = Ok output ∧
     report_and_exit FormatJSON FormatText cfg result
     = ([format_call cfg result; Stdout output] ++
        (if decide (determineExitCode result (strict cfg) = 0) then []
         else [Exit 1]),
        Ok tt)).
Proof.
  unfold report_and_exit, formatted, format_call.
  unfold mbind, io_bind, or_return, call, emit, mret, io_ret.
  assert (determineExitCode result (strict cfg) = 0 ∨
          determineExitCode result (strict cfg) = 1) as Hcode.
  { unfold determineExitCode.
    destruct (HasBreakingChanges result), (strict cfg), (HasWarnings result); auto. }
  destruct (jsonOutput cfg).
  - destruct (FormatJSON result) as [output|err]; cbn [fst snd];
      [right; exists output | left; by exists err].
    split; [done|]. destruct Hcode as [-> | ->]; done.
  - destruct (FormatText result (verbose cfg)) as [output|err]; cbn [fst snd];
      [right; exists output | left; by exists err].
    split; [done|]. destruct Hcode as [-> | ->]; done.
Qed.

Lemma unused_pass_cases cfg a result :
  ∃ events result',
    unused_pass Analyzer FindUnusedDependencies cfg a result = (events, Ok result') ∧
    Changes result' = Changes result ∧
    (∀ e, e ∈ events → is_Stdout e = false ∧ is_Exit e = false) ∧
    (unused cfg = false → events = [] ∧ result' = result).
Proof.
  unfold unused_pass. destruct (unused cfg).
  - destruct (FindUnusedDependencies a).2 as [deps err].
    unfold mbind, io_bind, emit, mret, io_ret; cbn [fst snd].
    destruct err as [err|], (verbose cfg); cbn [fst snd app];
      eexists _, _; (split; [reflexivity|]); (split; [done|]);
      (split; [|done]); intros e;
      rewrite ?elem_of_cons, ?elem_of_nil; intros H;
      repeat destruct H as [->|H]; done.
  - exists [], result. split_and!; [done..| |done].
    by intros e ?%elem_of_nil.
Qed.

Lemma verbose_log_events cfg u e :
  e ∈ verbose_log cfg u →
  is_Stdout e = false ∧ is_Exit e = false ∧ is_call e = false.
Proof.
  unfold verbose_log. destruct (verbose cfg);
    rewrite ?elem_of_cons, ?elem_of_nil; intros H;
    repeat destruct H as [->|H]; done.
Qed.

(** Every run of [run]: where it stops and what it has done by then. *)
Lemma run_cases cfg :
  (∃ err, ParseUpgrade TrimSpace (upgrade cfg) = Err err ∧
     run TrimSpace Analyzer New Analyze FindUnusedDependencies
         FormatJSON FormatText cfg
     = ([], Err (Errorf "invalid upgrade specification: " (error_ParseError err)))) ∨
  (∃ u, ParseUpgrade TrimSpace (upgrade cfg) = Ok u ∧
    ((∃ err, New (projectPath cfg) = Err err ∧
        run TrimSpace Analyzer New Analyze FindUnusedDependencies
            FormatJSON FormatText cfg
        = (verbose_log cfg u ++ [Call_New (projectPath cfg)],
           Err (Errorf "failed to initialize analyzer: " err))) ∨
     (∃ a, New (projectPath cfg) = Ok a ∧
       ((∃ err, (Analyze a u).2 = Err err ∧
           run TrimSpace Analyzer New Analyze FindUnusedDependencies
               FormatJSON FormatText cfg
           = (verbose_log cfg u ++ [Call_New (projectPath cfg); Call_Analyze u],
              Err (Errorf "analysis failed: " err))) ∨
        (∃ result, (Analyze a u).2 = Ok result ∧
           run TrimSpace Analyzer New Analyze FindUnusedDependencies
               FormatJSON FormatText cfg
           = (verbose_log cfg u ++
              [Call_New (projectPath cfg); Call_Analyze u] ++
              (unused_pass Analyzer FindUnusedDependencies cfg (Analyze a u).1 result).1 ++
              (match (unused_pass Analyzer FindUnusedDependencies cfg (Analyze a u).1 result).2 with
               | Ok result' => report_and_exit FormatJSON FormatText cfg result'
               | Err err => ([], Err err)
               end).1,
              (match (unused_pass Analyzer FindUnusedDependencies cfg (Analyze a u).1 result).2 with
               | Ok result' => report_and_exit FormatJSON FormatText cfg result'
               | Err err => ([], Err err)
               end).2)))))).
Proof.
  unfold run, mbind, io_bind, or_return, call, mret, io_ret.
  destruct (ParseUpgrade TrimSpace (upgrade cfg)) as [u|err]; cbn [fst snd];
    [right; exists u; split; [done|] | left; by exists err].
  destruct (New (projectPath cfg)) as [a|err]; cbn [fst snd];
    [right; exists a; split; [done|] | left; by exists err].
  destruct (Analyze a u).2 as [result|err]; cbn [fst snd];
    [right; exists result; split; [done|] | left; exists err; split; [done|]].
  - destruct (unused_pass Analyzer FindUnusedDependencies cfg (Analyze a u).1 result)
      as [events [result'|err]]; cbn [fst snd app].
    + destruct (report_and_exit FormatJSON FormatText cfg result')
        as [events' [[]|err]]; cbn [fst snd app]; by rewrite <- ?app_assoc.
    + by rewrite <- ?app_assoc, ?app_nil_r.
  - by rewrite <- ?app_assoc.
Qed.

Lemma run_Err_spec cfg err :
  (run TrimSpace Analyzer New Analyze FindUnusedDependencies
       FormatJSON FormatText cfg).2 = Err err →
  (∀ e, e ∈ (run TrimSpace Analyzer New Analyze FindUnusedDependencies
                 FormatJSON FormatText cfg).1 →
        is_Stdout e = false ∧ is_Exit e = false) ∧
  (∃ prefix cause, err = Errorf prefix cause ∧ prefix ∈ run_error_prefixes).
Proof.
  intros Herr. unfold run_error_prefixes.
  destruct (run_cases cfg) as
    [(e0 & _ & Hrun)|(u & _ & [(e0 & _ & Hrun)|(a & _ &
       [(e0 & _ & Hrun)|(result & _ & Hrun)])])];
    rewrite Hrun in Herr |- *; cbn [fst snd] in *.
  - injection Herr as <-. split; [by intros e ?%elem_of_nil|].
    eexists _, _. split; [done|]. rewrite !elem_of_cons. eauto 10.
  - injection Herr as <-. split.
    + intros e [H%verbose_log_events|H]%elem_of_app; [tauto|].
      rewrite elem_of_cons, elem_of_nil in H. by destruct H as [->|[]].
    + eexists _, _. split; [done|]. rewrite !elem_of_cons. eauto 10.
  - injection Herr as <-. split.
    + intros e [H%verbose_log_events|H]%elem_of_app; [tauto|].
      rewrite !elem_of_cons, elem_of_nil in H. by destruct H as [->|[->|[]]].
    + eexists _, _. split; [done|]. rewrite !elem_of_cons. eauto 10.
  - destruct (unused_pass_cases cfg (Analyze a u).1 result)
      as (events & result' & Hpass & _ & Hevents & _).
    rewrite Hpass in Herr |- *; cbn [fst snd] in *.
    destruct (report_and_exit_cases cfg result')
      as [(e0 & _ & Hrep)|(output & _ & Hrep)];
      rewrite Hrep in Herr |- *; cbn [fst snd] in *; [|done].
    injection Herr as <-. split.
    + intros e [H%verbose_log_events|H]%elem_of_app; [tauto|].
      cbn [app] in H.
      rewrite !elem_of_cons, elem_of_app, elem_of_cons, elem_of_nil in H.
      destruct H as [->|[->|[H|[->|[]]]]]; [done|done|by apply Hevents|].
      unfold format_call. by destruct (jsonOutput cfg).
    + eexists _, _. split; [done|]. rewrite !elem_of_cons. eauto 10.
Qed.

Lemma run_Ok_spec cfg done_ :
  (run TrimSpace Analyzer New Analyze FindUnusedDependencies
       FormatJSON FormatText cfg).2 = Ok done_ →
  ∃ pre result output,
    formatted FormatJSON FormatText cfg result = Ok output ∧
    (run TrimSpace Analyzer New Analyze FindUnusedDependencies
         FormatJSON FormatText cfg).1
    = pre ++ [format_call cfg result; Stdout output] ++
      (if decide (determineExitCode result (strict cfg) = 0) then []
       else [Exit 1]) ∧
    (∀ e, e ∈ pre → is_Stdout e = false ∧ is_Exit e = false).
Proof.
  intros Hok.
  destruct (run_cases cfg) as
    [(e0 & _ & Hrun)|(u & _ & [(e0 & _ & Hrun)|(a & _ &
       [(e0 & _ & Hrun)|(result & _ & Hrun)])])];
    rewrite Hrun in Hok |- *; cbn [fst snd] in *; try done.
  destruct (unused_pass_cases cfg (Analyze a u).1 result)
    as (events & result' & Hpass & _ & Hevents & _).
  rewrite Hpass in Hok |- *; cbn [fst snd] in *.
  destruct (report_and_exit_cases cfg result')
    as [(e0 & _ & Hrep)|(output & Hfmt & Hrep)];
    rewrite Hrep in Hok |- *; cbn [fst snd] in *; [done|].
  exists (verbose_log cfg u ++
          [Call_New (projectPath cfg); Call_Analyze u] ++ events), result', output.
  split; [done|]. split; [by rewrite <- !app_assoc|].
  intros e [H%verbose_log_events|H]%elem_of_app; [tauto|].
  cbn [app] in H. rewrite !elem_of_cons in H.
  destruct H as [->|[->|H]]; [done|done|by apply Hevents].
Qed.

Lemma run_without_unused_spec cfg :
  unused cfg = false →
  (Call_FindUnusedDependencies
     ∉ (run TrimSpace Analyzer New Analyze FindUnusedDependencies
            FormatJSON FormatText cfg).1) ∧
  (∀ result,
     format_call cfg result
       ∈ (run TrimSpace Analyzer New Analyze FindUnusedDependencies
              FormatJSON FormatText cfg).1 →
     ∃ u a, ParseUpgrade TrimSpace (upgrade cfg) = Ok u ∧
            New (projectPath cfg) = Ok a ∧
            (Analyze a u).2 = Ok result).
Proof.
  intros Hunused.
  assert (∀ u r, format_call cfg r ∉ verbose_log cfg u) as Hlog1.
  { intros u r [_ [_ H]]%verbose_log_events. unfold format_call in H.
    by destruct (jsonOutput cfg). }
  assert (∀ u, Call_FindUnusedDependencies ∉ verbose_log cfg u) as Hlog2.
  { by intros u [_ [_ H]]%verbose_log_events. }
  assert (∀ r, format_call cfg r ≠ Call_New (projectPath cfg)) as Hnew.
  { intros r. unfold format_call. by destruct (jsonOutput cfg). }
  assert (∀ r u, format_call cfg r ≠ Call_Analyze u) as Han.
  { intros r u. unfold format_call. by destruct (jsonOutput cfg). }
  assert (∀ r, Call_FindUnusedDependencies ≠ format_call cfg r) as Hfind.
  { intros r. unfold format_call. by destruct (jsonOutput cfg). }
  assert (∀ r r', format_call cfg r = format_call cfg r' → r = r') as Hinj.
  { intros r r'. unfold format_call. destruct (jsonOutput cfg); congruence. }
  destruct (run_cases cfg) as
    [(e0 & _ & Hrun)|(u & Hu & [(e0 & _ & Hrun)|(a & Ha &
       [(e0 & _ & Hrun)|(result & Hresult & Hrun)])])];
    rewrite Hrun; cbn [fst snd].
  - split; [by intros ?%elem_of_nil|]. by intros r ?%elem_of_nil.
  - split.
    + intros [H|H]%elem_of_app; [by apply Hlog2 in H|].
      rewrite elem_of_cons, elem_of_nil in H. by destruct H as [?|[]].
    + intros r [H|H]%elem_of_app; [by apply Hlog1 in H|].
      rewrite elem_of_cons, elem_of_nil in H. destruct H as [H|[]].
      by apply Hnew in H.
  - split.
    + intros [H|H]%elem_of_app; [by apply Hlog2 in H|].
      rewrite !elem_of_cons, elem_of_nil in H. by destruct H as [?|[?|[]]].
    + intros r [H|H]%elem_of_app; [by apply Hlog1 in H|].
      rewrite !elem_of_cons, elem_of_nil in H. destruct H as [H|[H|[]]].
      * by apply Hnew in H.
      * by apply Han in H.
  - destruct (unused_pass_cases cfg (Analyze a u).1 result)
      as (events & result' & Hpass & _ & _ & Hplain).
    destruct (Hplain Hunused) as [-> ->].
    rewrite Hpass; cbn [fst snd app].
    assert (∃ tail, (report_and_exit FormatJSON FormatText cfg result).1
                    = format_call cfg result :: tail ∧
                    ∀ e, e ∈ tail → is_call e = false) as (tail & -> & Htail).
    { destruct (report_and_exit_cases cfg result)
        as [(e0 & _ & ->)|(output & _ & ->)]; cbn [fst snd app].
      - exists []. split; [done|]. by intros e ?%elem_of_nil.
      - eexists. split; [done|]. intros e.
        rewrite elem_of_cons. intros [->|H]; [done|].
        destruct (decide _); [by apply elem_of_nil in H|].
        rewrite elem_of_cons, elem_of_nil in H. by destruct H as [->|[]]. }
    split.
    + intros [H|H]%elem_of_app; [by apply Hlog2 in H|].
      rewrite !elem_of_cons in H.
      destruct H as [?|[?|[H|H]]]; [done|done|by apply Hfind in H|].
      by apply Htail in H.
    + intros r [H|H]%elem_of_app; [by apply Hlog1 in H|].
      rewrite !elem_of_cons in H.
      destruct H as [H|[H|[H|H]]].
      * by apply Hnew in H.
      * by apply Han in H.
      * apply Hinj in H as ->. by exists u, a.
      * apply Htail in H. unfold format_call in H. by destruct (jsonOutput cfg).
Qed.

(** X18. When [run] returns an error it has written nothing to the standard
    output and requested no exit, and the error is one of its four wrapped
    errors: an invalid upgrade specification, a failed analyzer
    initialisation, a failed analysis or a failed report generation. *)
Theorem X18_run_error cfg err :
  (run TrimSpace Analyzer New Analyze FindUnusedDependencies
       FormatJSON FormatText cfg).2 = Err err →
  (∀ e, e ∈ (run TrimSpace Analyzer New Analyze FindUnusedDependencies
                 FormatJSON FormatText cfg).1 →
        is_Stdout e = false ∧ is_Exit e = false) ∧
  (∃ prefix cause, err = Errorf prefix cause ∧ prefix ∈ run_error_prefixes).
Proof. apply run_Err_spec. Qed.

(** X19. When [run] returns without error, the last thing it wrote is the
    output of the formatter that the configuration selects, written once to
    the standard output; the only exit it requests comes after that, with
    status 1, exactly when [determineExitCode] is not 0. *)
Theorem X19_run_success cfg done_ :
  (run TrimSpace Analyzer New Analyze FindUnusedDependencies
       FormatJSON FormatText cfg).2 = Ok done_ →
  ∃ pre result output,
    formatted FormatJSON FormatText cfg result = Ok output ∧
    (run TrimSpace Analyzer New Analyze FindUnusedDependencies
         FormatJSON FormatText cfg).1
    = pre ++ [format_call cfg result; Stdout output] ++
      (if decide (determineExitCode result (strict cfg) = 0) then []
       else [Exit 1]) ∧
    (∀ e, e ∈ pre → is_Stdout e = false ∧ is_Exit e = false).
Proof. apply run_Ok_spec. Qed.

(** X20. Without the -unused flag [run] never calls
    [FindUnusedDependencies], and a result it hands to the formatter is the
    one [Analyze] returned, unchanged. *)
Theorem X20_run_without_unused cfg :
  unused cfg = false →
  (Call_FindUnusedDependencies
     ∉ (run TrimSpace Analyzer New Analyze FindUnusedDependencies
            FormatJSON FormatText cfg).1) ∧
  (∀ result,
     format_call cfg result
       ∈ (run TrimSpace Analyzer New Analyze FindUnusedDependencies
              FormatJSON FormatText cfg).1 →
     ∃ u a, ParseUpgrade TrimSpace (upgrade cfg) = Ok u ∧
            New (projectPath cfg) = Ok a ∧
            (Analyze a u).2 = Ok result).
Proof. apply run_without_unused_spec. Qed.

End run.

Lemma X18_run_error_witness :
  (stub_run cfg_no_at).2
  = Err (Errorf "invalid upgrade specification: "
           (error_ParseError {| Spec := "example.com/mod" |})) ∧
  ∃ prefix cause,
    Errorf "invalid upgrade specification: "
      (error_ParseError {| Spec := "example.com/mod" |}) = Errorf prefix cause ∧
    prefix ∈ run_error_prefixes.
Proof.
  assert ((stub_run cfg_no_at).2
          = Err (Errorf "invalid upgrade specification: "
                   (error_ParseError {| Spec := "example.com/mod" |}))) as Herr
    by (vm_compute; reflexivity).
  split; [exact Herr|].
  exact (proj2 (X18_run_error TrimSpace_ascii unit stub_New stub_Analyze
    stub_FindUnused_boom stub_FormatJSON stub_FormatText cfg_no_at _ Herr)).
Defined.

Lemma X19_run_success_witness :
  (stub_run cfg_plain).2 = Ok tt ∧
  ∃ pre result output,
    formatted stub_FormatJSON stub_FormatText cfg_plain result = Ok output ∧
    (stub_run cfg_plain).1
    = pre ++ [format_call cfg_plain result; Stdout output] ++
      (if decide (determineExitCode result (strict cfg_plain) = 0) then []
       else [Exit 1]) ∧
    (∀ e, e ∈ pre → is_Stdout e = false ∧ is_Exit e = false).
Proof.
  assert ((stub_run cfg_plain).2 = Ok tt) as Hok by (vm_compute; reflexivity).
  split; [exact Hok|].
  exact (X19_run_success TrimSpace_ascii unit stub_New stub_Analyze
    stub_FindUnused_boom stub_FormatJSON stub_FormatText cfg_plain tt Hok).
Defined.

Lemma X20_run_without_unused_witness :
  unused cfg_plain = false ∧
  Call_FindUnusedDependencies ∉ (stub_run cfg_plain).1.
Proof.
  assert (unused cfg_plain = false) as Hunused by reflexivity.
  split; [exact Hunused|].
  exact (proj1 (X20_run_without_unused TrimSpace_ascii unit stub_New stub_Analyze
    stub_FindUnused_boom stub_FormatJSON stub_FormatText cfg_plain Hunused)).
Defined.



Section entry.

Variable TrimSpace : string → string.
Variable Analyzer : Type.
Variable New : string → returns Analyzer error.
Variable Analyze : Analyzer → Upgrade → Analyzer * returns Result error.
Variable FindUnusedDependencies : Analyzer → Analyzer * (list string * option error).
Variable FormatJSON : Result → returns string error.
Variable FormatText : Result → bool → returns string error.
Variable usage_text : string.



Lemma main_report_spec cfg :
  showVersion cfg = false → upgrade cfg ≠ "" →
  ((∃ text, Stdout text ∈ main TrimSpace Analyzer New Analyze
                               FindUnusedDependencies FormatJSON FormatText
                               usage_text cfg)
   ↔ ∃ done_, (run TrimSpace Analyzer New Analyze FindUnusedDependencies
                   FormatJSON FormatText cfg).2 = Ok done_) ∧
  (Exit 1 ∉ main TrimSpace Analyzer New Analyze FindUnusedDependencies
                 FormatJSON FormatText usage_text cfg →
   ∃ result output,
     formatted FormatJSON FormatText cfg result = Ok output ∧
     Stdout output ∈ main TrimSpace Analyzer New Analyze FindUnusedDependencies
                          FormatJSON FormatText usage_text cfg ∧
     HasBreakingChanges result = false ∧
     (strict cfg = true → HasWarnings result = false)).
Proof.
  intros Hversion Hupgrade. unfold main. rewrite Hversion.
  destruct (decide (upgrade cfg = "")) as [?|_]; [done|]. cbv zeta.
  destruct (run TrimSpace Analyzer New Analyze FindUnusedDependencies
                FormatJSON FormatText cfg).2 as [done_|err] eqn:Hrun.
  - destruct (run_Ok_spec _ _ _ _ _ _ _ _ _ Hrun)
      as (pre & result & output & Hfmt & -> & Hpre).
    split.
    + split; [by exists done_|]. intros _. exists output.
      apply elem_of_app. right. apply elem_of_app. left. right. left.
    + intros Hexit. exists result, output. split; [done|]. split.
      { apply elem_of_app. right. apply elem_of_app. left. right. left. }
      destruct (decide (determineExitCode result (strict cfg) = 0)) as [Hcode|_].
      * unfold determineExitCode in Hcode.
        destruct (HasBreakingChanges result); [done|]. split; [done|].
        intros Hstrict. rewrite Hstrict in Hcode.
        by destruct (HasWarnings result).
      * exfalso. apply Hexit. apply elem_of_app. right. apply elem_of_app.
        right. left.
  - destruct (run_Err_spec _ _ _ _ _ _ _ _ _ Hrun) as [Hpre _]. split.
    + split; [|by intros [? ?]]. intros [text [H%Hpre|H]%elem_of_app]; [by destruct H|].
      rewrite !elem_of_cons, elem_of_nil in H. by destruct H as [?|[?|[]]].
    + intros Hexit. exfalso. apply Hexit. apply elem_of_app. right. right. left.
Qed.


(** X22. With an -upgrade argument and without -version, [main] writes to
    the standard output exactly when [run] returns without error.  When the
    process does not exit with status 1, a report was printed, of a result
    that has no breaking changes and, in strict mode, no warnings. *)
Theorem X22_main_report cfg :
  showVersion cfg = false → upgrade cfg ≠ "" →
  ((∃ text, Stdout text ∈ main TrimSpace Analyzer New Analyze
                               FindUnusedDependencies FormatJSON FormatText
                               usage_text cfg)
   ↔ ∃ done_, (run TrimSpace Analyzer New Analyze FindUnusedDependencies
                   FormatJSON FormatText cfg).2 = Ok done_) ∧
  (Exit 1 ∉ main TrimSpace Analyzer New Analyze FindUnusedDependencies
                 FormatJSON FormatText usage_text cfg →
   ∃ result output,
     formatted FormatJSON FormatText cfg result = Ok output ∧
     Stdout output ∈ main TrimSpace Analyzer New Analyze FindUnusedDependencies
                          FormatJSON FormatText usage_text cfg ∧
     HasBreakingChanges result = false ∧
     (strict cfg = true → HasWarnings result = false)).
Proof. apply main_report_spec. Qed.

End entry.

Lemma X22_main_report_witness :
  showVersion cfg_plain = false ∧ upgrade cfg_plain ≠ "" ∧
  ((∃ text, Stdout text ∈ main TrimSpace_ascii unit stub_New stub_Analyze
                               stub_FindUnused_boom stub_FormatJSON
                               stub_FormatText "usage" cfg_plain)
   ↔ ∃ done_, (stub_run cfg_plain).2 = Ok done_).
Proof.
  assert (showVersion cfg_plain = false) as Hversion by reflexivity.
  assert (upgrade cfg_plain ≠ "") as Hupgrade by discriminate.
  split; [exact Hversion|]. split; [exact Hupgrade|].
  exact (proj1 (X22_main_report TrimSpace_ascii unit stub_New stub_Analyze
    stub_FindUnused_boom stub_FormatJSON stub_FormatText "usage" cfg_plain
    Hversion Hupgrade)).
Defined.

Lemma string_app_assoc (s1 s2 s3 : string) :
  (s1 +:+ s2) +:+ s3 = s1 +:+ s2 +:+ s3.
Proof.
  induction s1 as [|c s1 IH]; [done|].
  change (String c ((s1 +:+ s2) +:+ s3) = String c (s1 +:+ s2 +:+ s3)).
  by rewrite IH.
Qed.

Lemma ParseUpgrade_Err TrimSpace spec e :
  ParseUpgrade TrimSpace spec = Err e → e = {| Spec := spec |}.
Proof. unfold ParseUpgrade. repeat case_decide; congruence. Qed.

Lemma main_invalid_spec TrimSpace Analyzer New Analyze FindUnusedDependencies
    FormatJSON FormatText usage_text cfg e :
  showVersion cfg = false → upgrade cfg ≠ "" →
  ParseUpgrade TrimSpace (upgrade cfg) = Err e →
  main TrimSpace Analyzer New Analyze FindUnusedDependencies
       FormatJSON FormatText usage_text cfg
  = [ Stderr ("Error: invalid upgrade specification: " +:+
              "invalid upgrade specification: " +:+ upgrade cfg +:+
              " (expected format: module@version)" +:+ newline);
      Exit 1 ].
Proof.
  intros Hversion Hupgrade Hparse. unfold main. rewrite Hversion.
  destruct (decide (upgrade cfg = "")) as [?|_]; [done|]. cbv zeta.
  destruct (run_cases TrimSpace Analyzer New Analyze FindUnusedDependencies
              FormatJSON FormatText cfg) as [(e' & He' & ->)|(u & Hu & _)];
    [|congruence].
  cbn [fst snd app]. rewrite Hparse in He'. injection He' as <-.
  apply ParseUpgrade_Err in Hparse as ->.
  cbn [Error Spec]. by rewrite !string_app_assoc.
Qed.

(** X23. Given a non-empty -upgrade argument that [ParseUpgrade] rejects,
    [main] writes one line to the standard error, which names the invalid
    upgrade specification twice and quotes the argument, and exits with
    status 1; it writes nothing else and calls no collaborator. *)
Theorem X23_main_invalid_spec TrimSpace Analyzer New Analyze
    FindUnusedDependencies FormatJSON FormatText usage_text cfg e :
  showVersion cfg = false → upgrade cfg ≠ "" →
  ParseUpgrade TrimSpace (upgrade cfg) = Err e →
  main TrimSpace Analyzer New Analyze FindUnusedDependencies
       FormatJSON FormatText usage_text cfg
  = [ Stderr ("Error: invalid upgrade specification: " +:+
              "invalid upgrade specification: " +:+ upgrade cfg +:+
              " (expected format: module@version)" +:+ newline);
      Exit 1 ].
Proof. apply main_invalid_spec. Qed.

Lemma X23_main_invalid_spec_witness :
  showVersion cfg_no_at = false ∧ upgrade cfg_no_at ≠ "" ∧
  ParseUpgrade TrimSpace_ascii (upgrade cfg_no_at)
    = Err {| Spec := "example.com/mod" |} ∧
  main TrimSpace_ascii unit stub_New stub_Analyze stub_FindUnused_boom
       stub_FormatJSON stub_FormatText "usage" cfg_no_at
  = [ Stderr ("Error: invalid upgrade specification: " +:+
              "invalid upgrade specification: " +:+ upgrade cfg_no_at +:+
              " (expected format: module@version)" +:+ newline);
      Exit 1 ].
Proof.
  assert (showVersion cfg_no_at = false) as Hversion by reflexivity.
  assert (upgrade cfg_no_at ≠ "") as Hupgrade by discriminate.
  assert (ParseUpgrade TrimSpace_ascii (upgrade cfg_no_at)
          = Err {| Spec := "example.com/mod" |}) as Hparse
    by (vm_compute; reflexivity).
  split; [exact Hversion|]. split; [exact Hupgrade|]. split; [exact Hparse|].
  exact (X23_main_invalid_spec TrimSpace_ascii unit stub_New stub_Analyze
    stub_FindUnused_boom stub_FormatJSON stub_FormatText "usage" cfg_no_at _
    Hversion Hupgrade Hparse).
Defined.
